(** * MCPClient: a multi-server session and tool-routing client

    A shallow embedding of [src/MCPClient.ts].  The class keeps four
    mutable fields ([config], [sessions], [activeSessions],
    [toolServerMap]) and one number ([maxToolTimeout]); its methods are
    modelled as computations in a state-and-exception monad over those
    fields, over the world in which the protocol SDK lives, and over the
    record of the SDK calls made.

    Scope of the model.  The configuration object handed to the
    constructor is a plain object whose prototype is [Object.prototype],
    as [JSON.parse] builds it; the class itself can replace that prototype,
    by [addServer] under the name [__proto__], and the model follows it:
    the prototype of [config.mcpServers] is part of the state, and
    [servers[name]] is read through it.  The configuration object and the
    session map belong to the instance: callers do not mutate them behind
    its back, and no object is its own ancestor.  Console
    output is dropped, and [saveConfig], which only writes a file, is left
    out.  The methods run one at a time: no other call is interleaved at an
    [await].  The sample driver of the repository is modelled as [main];
    what it prints is dropped, and the JSON objects it reads have distinct
    keys. *)

From Stdlib Require Import List String Ascii Bool Arith NArith ZArith Lia.
From Stdlib Require Import PrimFloat.
Import ListNotations.
Open Scope string_scope.

Set Implicit Arguments.
Set Warnings "-register-all".

(* ================================================================== *)
(** ** JavaScript strings, arrays, maps and objects                    *)
(* ================================================================== *)

(** Truthiness of an optional string field: [undefined] and the empty
    string are falsy, every other string is truthy. *)
Definition truthy_string (o : option string) : bool :=
  match o with
  | Some s => negb (s =? "")
  | None => false
  end.

(** Truthiness of an optional object or array: only [undefined] is falsy. *)
Definition truthy_object {A : Type} (o : option A) : bool :=
  match o with
  | Some _ => true
  | None => false
  end.

(** Truthiness of a number: [+0], [-0] and [NaN] are falsy. *)
Definition truthy_number (x : float) : bool :=
  negb (is_zero x || is_nan x).

Module JsArray.

(** [Array.prototype.includes] on an array of strings. *)
Fixpoint includes (l : list string) (x : string) : bool :=
  match l with
  | [] => false
  | y :: r => (y =? x) || includes r x
  end.

(** [Array.prototype.indexOf]: position of the first occurrence, or [-1]. *)
Fixpoint indexOf_from (l : list string) (x : string) (i : Z) : Z :=
  match l with
  | [] => (-1)%Z
  | y :: r => if y =? x then i else indexOf_from r x (i + 1)%Z
  end.

Definition indexOf (l : list string) (x : string) : Z := indexOf_from l x 0%Z.

(** [l.splice(i, 1)] for an index [i >= 0]: drops the element at [i]. *)
Fixpoint splice1_nat {A : Type} (l : list A) (i : nat) : list A :=
  match l, i with
  | [], _ => []
  | _ :: r, O => r
  | y :: r, S j => y :: splice1_nat r j
  end.

Definition splice1 {A : Type} (l : list A) (i : Z) : list A :=
  splice1_nat l (Z.to_nat i).

Definition push {A : Type} (l : list A) (x : A) : list A := l ++ [x].

(** The idiom [idx = l.indexOf(x); if (idx !== -1) l.splice(idx, 1)]. *)
Definition evict (l : list string) (x : string) : list string :=
  let idx := indexOf l x in
  if (idx =? -1)%Z then l else splice1 l idx.

(** What the idiom computes: the first occurrence is dropped. *)
Fixpoint remove_first (l : list string) (x : string) : list string :=
  match l with
  | [] => []
  | y :: r => if y =? x then r else y :: remove_first r x
  end.

End JsArray.

(** Association lists in insertion order: the store behind both a
    JavaScript [Map] and the own properties of a plain object. *)
Module Assoc.

Definition t (V : Type) : Type := list (string * V).

Definition empty {V : Type} : t V := [].

Fixpoint get {V : Type} (m : t V) (k : string) : option V :=
  match m with
  | [] => None
  | (k', v) :: r => if k' =? k then Some v else get r k
  end.

Definition has {V : Type} (m : t V) (k : string) : bool :=
  match get m k with Some _ => true | None => false end.

(** Writing a key that exists keeps its position; a new key goes last. *)
Fixpoint set {V : Type} (m : t V) (k : string) (v : V) : t V :=
  match m with
  | [] => [(k, v)]
  | (k', v') :: r => if k' =? k then (k, v) :: r else (k', v') :: set r k v
  end.

Definition delete {V : Type} (m : t V) (k : string) : t V :=
  filter (fun kv => negb (fst kv =? k)) m.

Definition keys {V : Type} (m : t V) : list string := map fst m.

Definition entries {V : Type} (m : t V) : list (string * V) := m.

End Assoc.

(** [Map<string, V>]: iteration follows insertion order. *)
Module JsMap.
Definition t := Assoc.t.
Definition empty {V : Type} : t V := Assoc.empty.
Definition get {V : Type} : t V -> string -> option V := @Assoc.get V.
Definition set {V : Type} : t V -> string -> V -> t V := @Assoc.set V.
Definition delete {V : Type} : t V -> string -> t V := @Assoc.delete V.
Definition keys {V : Type} : t V -> list string := @Assoc.keys V.
Definition entries {V : Type} : t V -> list (string * V) := @Assoc.entries V.
End JsMap.

(** A plain object used as a record [Record<string, V>].  [Object.keys]
    lists the keys that are array indices first, in ascending numeric
    order, and then the other keys in creation order. *)
Module JsObject.

Definition t := Assoc.t.
Definition get {V : Type} : t V -> string -> option V := @Assoc.get V.
Definition set {V : Type} : t V -> string -> V -> t V := @Assoc.set V.
Definition delete {V : Type} : t V -> string -> t V := @Assoc.delete V.

Definition digit_of (c : ascii) : option N :=
  let n := N_of_ascii c in
  if ((48 <=? n) && (n <=? 57))%N then Some (n - 48)%N else None.

Fixpoint parse_digits (s : string) (acc : N) : option N :=
  match s with
  | EmptyString => Some acc
  | String c r =>
      match digit_of c with
      | Some d => parse_digits r (10 * acc + d)%N
      | None => None
      end
  end.

(** A key is an array index when it is the canonical decimal form of an
    integer below [2^32 - 1]. *)
Definition array_index (s : string) : option N :=
  match s with
  | EmptyString => None
  | String c r =>
      if (c =? "0")%char
      then match r with EmptyString => Some 0%N | _ => None end
      else match parse_digits s 0 with
           | Some n => if (n <? 4294967295)%N then Some n else None
           | None => None
           end
  end.

Fixpoint insert_index (x : N * string) (l : list (N * string)) : list (N * string) :=
  match l with
  | [] => [x]
  | y :: r => if (fst x <=? fst y)%N then x :: l else y :: insert_index x r
  end.

Fixpoint index_keys (l : list string) : list (N * string) :=
  match l with
  | [] => []
  | k :: r =>
      match array_index k with
      | Some n => insert_index (n, k) (index_keys r)
      | None => index_keys r
      end
  end.

(** The property names every plain object inherits from
    [Object.prototype]: reading one of them yields a function (or, for
    [__proto__], the prototype object), which is truthy and has none of
    the fields of a server configuration. *)
Definition Object_prototype_keys : list string :=
  ["constructor"; "__defineGetter__"; "__defineSetter__"; "hasOwnProperty";
   "__lookupGetter__"; "__lookupSetter__"; "isPrototypeOf";
   "propertyIsEnumerable"; "toString"; "valueOf"; "__proto__"; "toLocaleString"].

Definition inherits (k : string) : bool :=
  existsb (fun p => p =? k) Object_prototype_keys.

Definition is_index (k : string) : bool :=
  match array_index k with Some _ => true | None => false end.

Definition keys {V : Type} (o : t V) : list string :=
  map snd (index_keys (Assoc.keys o))
  ++ filter (fun k => negb (is_index k)) (Assoc.keys o).

End JsObject.

(* ================================================================== *)
(** ** Configuration                                                    *)
(* ================================================================== *)

(** The [type] field of a server configuration. *)
Inductive TransportType : Type :=
  | type_stdio
  | type_streamable_http
  | type_sse.

Definition TransportType_eqb (a b : TransportType) : bool :=
  match a, b with
  | type_stdio, type_stdio => true
  | type_streamable_http, type_streamable_http => true
  | type_sse, type_sse => true
  | _, _ => false
  end.

(** [interface MCPServerConfig]: every field is optional. *)
Record MCPServerConfig : Type := mkServerConfig {
  type : option TransportType;
  command : option string;
  args : option (list string);
  env : option (list (string * string));
  url : option string;
  ws_url : option string
}.

(** [interface MCPConfig]: the own properties of [mcpServers]. *)
Record MCPConfig : Type := mkConfig {
  mcpServers : option (JsObject.t MCPServerConfig)
}.

(** The string behind a [type] field. *)
Definition TransportType_name (t : TransportType) : string :=
  match t with
  | type_stdio => "stdio"
  | type_streamable_http => "streamable-http"
  | type_sse => "sse"
  end.

(** What the expression [servers[name]] can evaluate to.  The static type
    says [MCPServerConfig]; at run time the property is looked up through
    the prototype chain of [servers], so it can also be a field of the
    prototype, or a member of [Object.prototype]. *)
Inductive ServerValue : Type :=
  | value_undefined
  | value_config (cfg : MCPServerConfig)
  | value_string (s : string)
  | value_array (l : list string)
  | value_record (r : list (string * string))
  | value_inherited (k : string).

(** Truthiness of such a value: [undefined] and the empty string are
    falsy; objects, arrays and functions are truthy. *)
Definition truthy_value (v : ServerValue) : bool :=
  match v with
  | value_undefined => false
  | value_string s => negb (s =? "")
  | _ => true
  end.

(** [p[k]] for a server configuration [p] used as a prototype: its own
    fields, by name; [None] when [p] has no such property. *)
Definition own_field (p : MCPServerConfig) (k : string) : option ServerValue :=
  if k =? "type" then option_map (fun t => value_string (TransportType_name t)) (type p)
  else if k =? "command" then option_map value_string (command p)
  else if k =? "args" then option_map value_array (args p)
  else if k =? "env" then option_map value_record (env p)
  else if k =? "url" then option_map value_string (url p)
  else if k =? "ws_url" then option_map value_string (ws_url p)
  else None.

(** [servers[name]], for the object with own properties [o] whose
    prototype is [proto]: [None] stands for [Object.prototype], [Some p]
    for a server configuration [p], itself a plain object.  An own
    property comes first; then [__proto__], the accessor that yields the
    prototype; then the fields of the prototype; then the members of
    [Object.prototype]. *)
Definition read_server (o : JsObject.t MCPServerConfig) (proto : option MCPServerConfig)
                       (name : string) : ServerValue :=
  match JsObject.get o name with
  | Some cfg => value_config cfg
  | None =>
      match proto with
      | Some p =>
          if name =? "__proto__" then value_config p
          else match own_field p name with
               | Some v => v
               | None =>
                   if JsObject.inherits name then value_inherited name
                   else value_undefined
               end
      | None =>
          if JsObject.inherits name then value_inherited name else value_undefined
      end
  end.

(* ================================================================== *)
(** ** Exceptions, protocol data and the SDK boundary                  *)
(* ================================================================== *)

(** Values that the code throws or that the SDK raises. *)
Inductive Exn : Type :=
  | Error (message : string)
  | TypeError (message : string)
  | McpError (code : Z) (message : string).

(** Outcome of running a statement or an awaited call. *)
Inductive Completion (A : Type) : Type :=
  | Normal (a : A)
  | Throw (e : Exn).

Arguments Normal {A} a.
Arguments Throw {A} e.

Inductive Json : Type :=
  | JNull
  | JBool (b : bool)
  | JNumber (x : float)
  | JString (s : string)
  | JArray (l : list Json)
  | JObject (fields : list (string * Json)).

(** A tool descriptor as [session.listTools()] reports it. *)
Record Tool : Type := mkTool {
  tool_name : string;
  tool_description : option string;
  tool_inputSchema : Json
}.

(** An entry of the list that [MCPClient.listTools] returns. *)
Record ToolInfo : Type := mkToolInfo {
  info_name : string;
  info_description : string;
  info_inputSchema : Json
}.

(** The four transports the client can construct.  The parameters of a
    stdio transport are stored as given: from a server configuration they
    are a string, an array and a record; from a record of strings, which
    the code can meet where it expects a configuration, all three are
    strings. *)
Inductive Transport (URL : Type) : Type :=
  | StdioClientTransport (cmd : string) (argv : list string)
                         (environment : option (list (string * string)))
  | StdioClientTransport_strings (cmd : string) (argv : string)
                                 (environment : option string)
  | SSEClientTransport (u : URL)
  | StreamableHTTPClientTransport (u : URL)
  | WebSocketClientTransport (u : URL).

Arguments StdioClientTransport {URL} cmd argv environment.
Arguments StdioClientTransport_strings {URL} cmd argv environment.
Arguments SSEClientTransport {URL} u.
Arguments StreamableHTTPClientTransport {URL} u.
Arguments WebSocketClientTransport {URL} u.

(** Everything the class imports: the file system, the [URL] constructor
    and the protocol SDK.  An SDK call takes the world, may change it, and
    completes normally or throws. *)
Class Sdk : Type := {
  World : Type;
  Client : Type;
  URL : Type;
  (** [new URL(s)]; [None] when the constructor throws its [TypeError]. *)
  new_URL : string -> option URL;
  (** [JSON.parse(fs.readFileSync(path.resolve(p), 'utf-8'))]. *)
  read_config : string -> World -> Completion MCPConfig * World;
  (** [c = new MCPClientSDK({name, version}); await c.connect(t)]. *)
  sdk_connect : string -> string -> Transport URL -> World -> Completion Client * World;
  (** [await c.close()]. *)
  sdk_close : Client -> World -> Completion unit * World;
  (** [await c.listTools()], projected on its [tools] field. *)
  sdk_listTools : Client -> World -> Completion (list Tool) * World;
  (** [await c.callTool({name, arguments}, CallToolResultSchema, {timeout})]. *)
  sdk_callTool : Client -> string -> Json -> float -> World -> Completion Json * World
}.

(* ================================================================== *)
(** ** Transport selection                                              *)
(* ================================================================== *)

Definition msg_no_servers : string := "No MCP servers defined in config".

Definition msg_server_not_found (serverName : string) : string :=
  "Server '" ++ serverName ++ "' not found in config".

Definition msg_no_session_exists (serverName : string) : string :=
  "No session exists for server '" ++ serverName ++ "'".

Definition msg_cannot_determine : string :=
  "Cannot determine transport type from config: missing command+args, url, or ws_url".

Definition msg_no_server_for_tool (name : string) : string :=
  "No server found for tool '" ++ name ++ "'".

Definition msg_no_session_found (serverName : string) : string :=
  "No session found for server '" ++ serverName ++ "'".

Definition msg_invalid_url : string := "Invalid URL".

Section Client.

Context {sdk : Sdk}.

Definition type_is (cfg : MCPServerConfig) (t : TransportType) : bool :=
  match type cfg with
  | Some t' => TransportType_eqb t' t
  | None => false
  end.

Definition with_URL (s : string) (k : URL -> Transport URL) : Completion (Transport URL) :=
  match new_URL s with
  | Some u => Normal (k u)
  | None => Throw (TypeError msg_invalid_url)
  end.

(** [private createTransport(cfg)]. *)
Definition createTransport (cfg : MCPServerConfig) : Completion (Transport URL) :=
  if truthy_string (command cfg) && truthy_object (args cfg) then
    match command cfg, args cfg with
    | Some c, Some a => Normal (StdioClientTransport c a (env cfg))
    | _, _ => Throw (Error msg_cannot_determine)
    end
  else if truthy_string (url cfg) && type_is cfg type_sse then
    match url cfg with
    | Some u => with_URL u SSEClientTransport
    | None => Throw (Error msg_cannot_determine)
    end
  else if truthy_string (url cfg) && type_is cfg type_streamable_http then
    match url cfg with
    | Some u => with_URL u StreamableHTTPClientTransport
    | None => Throw (Error msg_cannot_determine)
    end
  else if truthy_string (ws_url cfg) then
    match ws_url cfg with
    | Some u => with_URL u WebSocketClientTransport
    | None => Throw (Error msg_cannot_determine)
    end
  else Throw (Error msg_cannot_determine).

Definition msg_undefined_command : string :=
  "Cannot read properties of undefined (reading 'command')".

(** [createTransport] run on a record of strings [r]: the same tests,
    on the properties [r.command], [r.args], [r.url], [r.type] and
    [r.ws_url], which are strings where they exist. *)
Definition createTransport_record (r : list (string * string))
  : Completion (Transport URL) :=
  let type_is_string (t : string) : bool :=
    match Assoc.get r "type" with
    | Some t' => t' =? t
    | None => false
    end in
  if truthy_string (Assoc.get r "command") && truthy_string (Assoc.get r "args") then
    match Assoc.get r "command", Assoc.get r "args" with
    | Some c, Some a => Normal (StdioClientTransport_strings c a (Assoc.get r "env"))
    | _, _ => Throw (Error msg_cannot_determine)
    end
  else if truthy_string (Assoc.get r "url") && type_is_string "sse" then
    match Assoc.get r "url" with
    | Some u => with_URL u SSEClientTransport
    | None => Throw (Error msg_cannot_determine)
    end
  else if truthy_string (Assoc.get r "url") && type_is_string "streamable-http" then
    match Assoc.get r "url" with
    | Some u => with_URL u StreamableHTTPClientTransport
    | None => Throw (Error msg_cannot_determine)
    end
  else if truthy_string (Assoc.get r "ws_url") then
    match Assoc.get r "ws_url" with
    | Some u => with_URL u WebSocketClientTransport
    | None => Throw (Error msg_cannot_determine)
    end
  else Throw (Error msg_cannot_determine).

(** [createTransport] run on the value that [servers[name]] held: a
    configuration, a record of strings, or a string, an array or a
    function, none of which has any of the properties tested. *)
Definition createTransport_value (v : ServerValue) : Completion (Transport URL) :=
  match v with
  | value_config cfg => createTransport cfg
  | value_record r => createTransport_record r
  | value_string _ | value_array _ | value_inherited _ =>
      Throw (Error msg_cannot_determine)
  | value_undefined => Throw (TypeError msg_undefined_command)
  end.

(* ================================================================ *)
(** ** The object and its monad                                     *)
(* ================================================================ *)

(** The private fields of an [MCPClient] instance, and the one slot of
    the heap behind them that the class can change besides own
    properties: the prototype of the object [config.mcpServers], where
    [None] is [Object.prototype]. *)
Record MCPClient : Type := mkClient {
  config : MCPConfig;
  sessions : JsMap.t Client;
  activeSessions : list string;
  toolServerMap : JsMap.t string;
  maxToolTimeout : float;
  mcpServers_prototype : option MCPServerConfig
}.

(** One call into the SDK, as the class issues it. *)
Inductive Event : Type :=
  | ev_connect (clientName version : string) (transport : Transport URL)
  | ev_close (client : Client)
  | ev_listTools (client : Client)
  | ev_callTool (client : Client) (name : string) (arguments : Json) (timeout : float).

(** What lies outside the object: the world the SDK acts on, and the
    record of the SDK calls made so far, oldest first. *)
Record Env : Type := mkEnv {
  world : World;
  calls : list Event
}.

(** A method body: reads and writes the fields, talks to the SDK, and
    completes normally or throws. *)
Definition M (A : Type) : Type :=
  MCPClient -> Env -> Completion A * MCPClient * Env.

Definition ret {A : Type} (a : A) : M A := fun s w => (Normal a, s, w).

Definition throw {A : Type} (e : Exn) : M A := fun s w => (Throw e, s, w).

Definition bind {A B : Type} (m : M A) (k : A -> M B) : M B :=
  fun s w =>
    match m s w with
    | (Normal a, s', w') => k a s' w'
    | (Throw e, s', w') => (Throw e, s', w')
    end.

Definition gets {A : Type} (f : MCPClient -> A) : M A :=
  fun s w => (Normal (f s), s, w).

Definition modify (f : MCPClient -> MCPClient) : M unit :=
  fun s w => (Normal tt, f s, w).

(** An awaited SDK call: it is recorded, then the SDK acts on the world. *)
Definition await {A : Type} (ev : Event) (call : World -> Completion A * World) : M A :=
  fun s w =>
    let (r, w') := call (world w) in
    (r, s, mkEnv w' (calls w ++ [ev])).

Definition lift {A : Type} (c : Completion A) : M A :=
  fun s w => (c, s, w).

(** [try { body } catch (e) { handler e }]. *)
Definition try_catch {A : Type} (body : M A) (handler : Exn -> M A) : M A :=
  fun s w =>
    match body s w with
    | (Normal a, s', w') => (Normal a, s', w')
    | (Throw e, s', w') => handler e s' w'
    end.

(** [try { body } finally { fin }]: [fin] always runs; the completion of
    [body] stands unless [fin] itself throws. *)
Definition try_finally {A : Type} (body : M A) (fin : M unit) : M A :=
  fun s w =>
    match body s w with
    | (r, s', w') =>
        match fin s' w' with
        | (Normal _, s'', w'') => (r, s'', w'')
        | (Throw e, s'', w'') => (Throw e, s'', w'')
        end
    end.

(** [for (const x of l) { body x }]. *)
Fixpoint for_of {X : Type} (l : list X) (body : X -> M unit) : M unit :=
  match l with
  | [] => ret tt
  | x :: r => bind (body x) (fun _ => for_of r body)
  end.

End Client.

Declare Scope client_scope.
Delimit Scope client_scope with client.
Notation "x <- m ;; k" := (bind m (fun x => k))
  (at level 61, m at next level, right associativity) : client_scope.
Notation "m ;; k" := (bind m (fun _ => k))
  (at level 61, right associativity) : client_scope.
Open Scope client_scope.

(* ================================================================== *)
(** ** The methods of [MCPClient]                                       *)
(* ================================================================== *)

Section Methods.

Context {sdk : Sdk}.

Definition set_config (c : MCPConfig) (this : MCPClient) : MCPClient :=
  mkClient c (sessions this) (activeSessions this) (toolServerMap this)
           (maxToolTimeout this) (mcpServers_prototype this).

Definition set_sessions (m : JsMap.t Client) (this : MCPClient) : MCPClient :=
  mkClient (config this) m (activeSessions this) (toolServerMap this)
           (maxToolTimeout this) (mcpServers_prototype this).

Definition set_activeSessions (l : list string) (this : MCPClient) : MCPClient :=
  mkClient (config this) (sessions this) l (toolServerMap this)
           (maxToolTimeout this) (mcpServers_prototype this).

Definition set_toolServerMap (m : JsMap.t string) (this : MCPClient) : MCPClient :=
  mkClient (config this) (sessions this) (activeSessions this) m
           (maxToolTimeout this) (mcpServers_prototype this).

Definition set_maxToolTimeout (x : float) (this : MCPClient) : MCPClient :=
  mkClient (config this) (sessions this) (activeSessions this)
           (toolServerMap this) x (mcpServers_prototype this).

Definition set_mcpServers_prototype (p : option MCPServerConfig) (this : MCPClient)
  : MCPClient :=
  mkClient (config this) (sessions this) (activeSessions this)
           (toolServerMap this) (maxToolTimeout this) p.

(** The field initialisers: empty maps, empty list, 10000.  The
    configuration object is as the caller built it. *)
Definition fresh (c : MCPConfig) : MCPClient :=
  mkClient c JsMap.empty [] JsMap.empty 10000%float None.

(** [constructor(configPathOrObject?, maxToolTimeout?)]. *)
Definition new_MCPClient (configPathOrObject : option (string + MCPConfig))
                         (maxToolTimeout_arg : option float)
  : World -> Completion MCPClient * World :=
  fun w =>
    let finish (c : MCPConfig) : MCPClient :=
      match maxToolTimeout_arg with
      | Some x => if truthy_number x then set_maxToolTimeout x (fresh c) else fresh c
      | None => fresh c
      end in
    match configPathOrObject with
    | None => (Normal (finish (mkConfig None)), w)
    | Some (inl p) =>
        if p =? "" then (Normal (finish (mkConfig None)), w)
        else match read_config p w with
             | (Normal c, w') => (Normal (finish c), w')
             | (Throw e, w') => (Throw e, w')
             end
    | Some (inr c) => (Normal (finish c), w)
    end.

(** [static fromObject(config)]. *)
Definition fromObject (c : MCPConfig) : World -> Completion MCPClient * World :=
  new_MCPClient (Some (inr c)) None.

(** [static fromConfigFile(filepath)]. *)
Definition fromConfigFile (filepath : string) : World -> Completion MCPClient * World :=
  new_MCPClient (Some (inl filepath)) None.

(** [this.config.mcpServers || {}]. *)
Definition servers_or_empty (this : MCPClient) : JsObject.t MCPServerConfig :=
  match mcpServers (config this) with
  | Some o => o
  | None => Assoc.empty
  end.

(** [if (!this.config.mcpServers) this.config.mcpServers = {}]: the new
    object is a plain one. *)
Definition ensure_mcpServers (this : MCPClient) : MCPClient :=
  match mcpServers (config this) with
  | Some _ => this
  | None => set_mcpServers_prototype None (set_config (mkConfig (Some Assoc.empty)) this)
  end.

(** [this.config.mcpServers[name] = serverConfig].  The assignment
    writes an own property, except under the name [__proto__] on an
    object that has no own property of that name: there it runs the
    setter inherited from [Object.prototype], which makes [serverConfig]
    the prototype of the object and adds no property. *)
Definition assign_server (name : string) (serverConfig : MCPServerConfig)
                         (this : MCPClient) : MCPClient :=
  let o := servers_or_empty this in
  if (name =? "__proto__") && negb (Assoc.has o name)
  then set_mcpServers_prototype (Some serverConfig) this
  else set_config (mkConfig (Some (JsObject.set o name serverConfig))) this.

(** [addServer(name, serverConfig)]. *)
Definition addServer (name : string) (serverConfig : MCPServerConfig) : M unit :=
  modify (fun this => assign_server name serverConfig (ensure_mcpServers this)).

(** [removeServer(name)]: the test reads [mcpServers[name]] through the
    prototype chain; [delete] removes an own property only. *)
Definition removeServer (name : string) : M unit :=
  modify (fun this =>
    match mcpServers (config this) with
    | Some o =>
        if truthy_value (read_server o (mcpServers_prototype this) name)
        then set_config (mkConfig (Some (JsObject.delete o name))) this
        else this
    | None => this
    end) ;;
  modify (fun this =>
    set_activeSessions (JsArray.evict (activeSessions this) name) this).

(** [getServerNames()]. *)
Definition getServerNames : M (list string) :=
  gets (fun this => JsObject.keys (servers_or_empty this)).

(** [createSession(serverName)]. *)
Definition createSession (serverName : string) : M Client :=
  servers <- gets (fun this => mcpServers (config this)) ;;
  match servers with
  | None => throw (Error msg_no_servers)
  | Some o =>
      if (List.length (JsObject.keys o) =? 0)%nat then throw (Error msg_no_servers)
      else
        cfg <- gets (fun this => read_server o (mcpServers_prototype this) serverName) ;;
        if negb (truthy_value cfg) then throw (Error (msg_server_not_found serverName))
        else
          transport <- lift (createTransport_value cfg) ;;
          client <- await (ev_connect serverName "1.0.0" transport)
                          (sdk_connect serverName "1.0.0" transport) ;;
          modify (fun this =>
            set_sessions (JsMap.set (sessions this) serverName client) this) ;;
          modify (fun this =>
            if JsArray.includes (activeSessions this) serverName then this
            else set_activeSessions
                   (JsArray.push (activeSessions this) serverName) this) ;;
          ret client
  end.

(** The inner loop of [getToolServerMap]. *)
Definition record_tools (serverName : string) (tools : list Tool)
                        (m : JsMap.t string) : JsMap.t string :=
  fold_left (fun acc tool => JsMap.set acc (tool_name tool) serverName) tools m.

(** The outer loop of [getToolServerMap]. *)
Fixpoint scan_sessions (entries : list (string * Client))
                       (toolServerMap : JsMap.t string) : M (JsMap.t string) :=
  match entries with
  | [] => ret toolServerMap
  | (serverName, session) :: r =>
      tools <- await (ev_listTools session) (sdk_listTools session) ;;
      scan_sessions r (record_tools serverName tools toolServerMap)
  end.

(** [private getToolServerMap()]. *)
Definition getToolServerMap : M (JsMap.t string) :=
  entries <- gets (fun this => JsMap.entries (sessions this)) ;;
  scan_sessions entries JsMap.empty.

(** [createAllSessions()]. *)
Definition createAllSessions : M (JsMap.t Client) :=
  servers <- gets (fun this => mcpServers (config this)) ;;
  match servers with
  | None => throw (Error msg_no_servers)
  | Some o =>
      if (List.length (JsObject.keys o) =? 0)%nat then throw (Error msg_no_servers)
      else
        for_of (JsObject.keys o) (fun name => createSession name ;; ret tt) ;;
        m <- getToolServerMap ;;
        modify (set_toolServerMap m) ;;
        gets sessions
  end.

(** [getSession(serverName)]. *)
Definition getSession (serverName : string) : M Client :=
  session <- gets (fun this => JsMap.get (sessions this) serverName) ;;
  match session with
  | None => throw (Error (msg_no_session_exists serverName))
  | Some c => ret c
  end.

(** [getAllActiveSessions()]. *)
Definition getAllActiveSessions : M (JsMap.t Client) :=
  gets (fun this =>
    fold_left (fun result name =>
                 match JsMap.get (sessions this) name with
                 | Some sess => JsMap.set result name sess
                 | None => result
                 end)
              (activeSessions this) JsMap.empty).

(** [closeSession(serverName)]. *)
Definition closeSession (serverName : string) : M unit :=
  client <- gets (fun this => JsMap.get (sessions this) serverName) ;;
  match client with
  | None => ret tt
  | Some c =>
      try_finally
        (try_catch (await (ev_close c) (sdk_close c)) (fun err => ret tt))
        (modify (fun this =>
           set_sessions (JsMap.delete (sessions this) serverName) this) ;;
         modify (fun this =>
           set_activeSessions (JsArray.evict (activeSessions this) serverName) this))
  end.

Definition Exn_toString (e : Exn) : string :=
  match e with
  | Error m => "Error: " ++ m
  | TypeError m => "TypeError: " ++ m
  | McpError _ m => "McpError: " ++ m
  end.

Definition msg_failed_to_close (name : string) (e : Exn) : string :=
  "Failed to close session for server '" ++ name ++ "': " ++ Exn_toString e.

(** The loop of [closeAllSessions], with its local array [errors]. *)
Fixpoint closeAll_loop (names : list string) (errors : list string) : M (list string) :=
  match names with
  | [] => ret errors
  | name :: r =>
      errors' <- try_catch (closeSession name ;; ret errors)
                           (fun e => ret (JsArray.push errors (msg_failed_to_close name e))) ;;
      closeAll_loop r errors'
  end.

(** [closeAllSessions()]. *)
Definition closeAllSessions : M unit :=
  names <- gets (fun this => JsMap.keys (sessions this)) ;;
  closeAll_loop names [] ;;
  ret tt.

Definition to_info (tool : Tool) : ToolInfo :=
  mkToolInfo (tool_name tool)
             (match tool_description tool with Some d => d | None => "" end)
             (tool_inputSchema tool).

(** The loop of [listTools], with its local array [allTools]. *)
Fixpoint listTools_loop (names : list string) (allTools : list ToolInfo)
  : M (list ToolInfo) :=
  match names with
  | [] => ret allTools
  | serverName :: r =>
      session <- gets (fun this => JsMap.get (sessions this) serverName) ;;
      match session with
      | None => throw (Error (msg_no_session_found serverName))
      | Some c =>
          tools <- await (ev_listTools c) (sdk_listTools c) ;;
          listTools_loop r (allTools ++ map to_info tools)
      end
  end.

(** [listTools()]. *)
Definition listTools : M (list ToolInfo) :=
  names <- gets activeSessions ;;
  listTools_loop names [].

(** [callTool({name, args})]. *)
Definition callTool (name : string) (args : Json) : M Json :=
  serverName <- gets (fun this => JsMap.get (toolServerMap this) name) ;;
  if negb (truthy_string serverName) then throw (Error (msg_no_server_for_tool name))
  else
    match serverName with
    | None => throw (Error (msg_no_server_for_tool name))
    | Some sn =>
        session <- gets (fun this => JsMap.get (sessions this) sn) ;;
        match session with
        | None => throw (Error (msg_no_session_found sn))
        | Some c =>
            timeout <- gets maxToolTimeout ;;
            await (ev_callTool c name args timeout)
                    (sdk_callTool c name args timeout)
        end
    end.

(* ================================================================ *)
(** ** Sequences of calls                                           *)
(* ================================================================ *)

(** One call of a public method that can change the object. *)
Inductive Call : Type :=
  | call_addServer (name : string) (serverConfig : MCPServerConfig)
  | call_removeServer (name : string)
  | call_createSession (serverName : string)
  | call_createAllSessions
  | call_closeSession (serverName : string)
  | call_closeAllSessions
  | call_listTools
  | call_callTool (name : string) (args : Json).

Definition forget {A : Type} (m : M A) : MCPClient -> Env -> MCPClient * Env :=
  fun this w => match m this w with (_, this', w') => (this', w') end.

Definition exec (c : Call) : MCPClient -> Env -> MCPClient * Env :=
  match c with
  | call_addServer n cfg => forget (addServer n cfg)
  | call_removeServer n => forget (removeServer n)
  | call_createSession n => forget (createSession n)
  | call_createAllSessions => forget createAllSessions
  | call_closeSession n => forget (closeSession n)
  | call_closeAllSessions => forget closeAllSessions
  | call_listTools => forget listTools
  | call_callTool n a => forget (callTool n a)
  end.

(** The caller catches whatever a call throws and goes on. *)
Fixpoint run (cs : list Call) (this : MCPClient) (w : Env) : MCPClient * Env :=
  match cs with
  | [] => (this, w)
  | c :: r => let (this', w') := exec c this w in run r this' w'
  end.

(** The states an instance can be in: built by the constructor, then
    driven by any sequence of calls. *)
Inductive reachable : MCPClient -> Prop :=
  | reachable_new : forall arg timeout w this w',
      new_MCPClient arg timeout w = (Normal this, w') ->
      reachable this
  | reachable_call : forall c this w,
      reachable this ->
      reachable (fst (exec c this w)).

End Methods.

(* ================================================================== *)
(** ** Invariants, intermediate states and the specification's wording  *)
(* ================================================================== *)

Section Registry.

Context {sdk : Sdk}.

(** The look-up [servers[name]] can only find own properties and
    members of [Object.prototype]: there is no configuration object yet,
    or its prototype is the one it was built with. *)
Definition original_prototype (this : MCPClient) : Prop :=
  mcpServers (config this) = None \/ mcpServers_prototype this = None.

(** What every reachable state satisfies: the active list has no
    repetition and names only servers that have a session; the session
    map has one entry per key; and as long as the prototype of the
    configuration object is the one it was built with, every active name
    has a descriptor of its own in the configuration. *)
Record consistent (this : MCPClient) : Prop := mkConsistent {
  active_NoDup : NoDup (activeSessions this);
  active_has_session :
    forall n, In n (activeSessions this) -> In n (JsMap.keys (sessions this));
  active_is_configured :
    original_prototype this ->
    forall n, In n (activeSessions this) -> In n (Assoc.keys (servers_or_empty this));
  sessions_NoDup : NoDup (JsMap.keys (sessions this))
}.

(** A property of the object that a method body never breaks. *)
Definition stable (I : MCPClient -> Prop) {A : Type} (m : M A) : Prop :=
  forall this e r this' e', m this e = (r, this', e') -> I this -> I this'.

(** The timeout field holds [x]. *)
Definition timeout_is (x : float) (this : MCPClient) : Prop := maxToolTimeout this = x.

(** The prototype of the configuration object is [p]. *)
Definition prototype_is (p : option MCPServerConfig) (this : MCPClient) : Prop :=
  mcpServers_prototype this = p.

(** The object after [createSession n] stored the client [c]. *)
Definition created (n : string) (c : Client) (this : MCPClient) : MCPClient :=
  let this1 := set_sessions (JsMap.set (sessions this) n c) this in
  if JsArray.includes (activeSessions this1) n then this1
  else set_activeSessions (JsArray.push (activeSessions this1) n) this1.

(** The object after [closeSession n] dropped a tracked session. *)
Definition closed (n : string) (this : MCPClient) : MCPClient :=
  set_activeSessions
    (JsArray.evict (activeSessions this) n)
    (set_sessions (JsMap.delete (sessions this) n) this).

(** The object after [removeServer n]. *)
Definition removed (n : string) (this : MCPClient) : MCPClient :=
  set_activeSessions
    (JsArray.evict (activeSessions this) n)
    (match mcpServers (config this) with
     | Some o =>
         match JsObject.get o n with
         | Some _ => set_config (mkConfig (Some (JsObject.delete o n))) this
         | None => this
         end
     | None => this
     end).

(** Where the transport [t] of a session for [n] comes from: from the
    own descriptor of [n]; or, when [n] has none and the prototype of the
    configuration object was replaced by [p], from [p] itself under the
    name [__proto__], or from the record [p.env] under the name [env]. *)
Definition gives_transport (this : MCPClient) (n : string) (t : Transport URL) : Prop :=
  (exists cfg, JsObject.get (servers_or_empty this) n = Some cfg
               /\ createTransport cfg = Normal t)
  \/ (JsObject.get (servers_or_empty this) n = None
      /\ exists p, mcpServers_prototype this = Some p
           /\ ((n = "__proto__" /\ createTransport p = Normal t)
               \/ (n = "env" /\ exists r, env p = Some r
                                 /\ createTransport_record r = Normal t))).

(** The loop of [createAllSessions]. *)
Definition create_each (names : list string) : M unit :=
  for_of names (fun name => createSession name ;; ret tt).

(** The events that are connection attempts. *)
Definition is_connect (ev : Event) : Prop :=
  match ev with
  | ev_connect _ _ _ => True
  | _ => False
  end.

(** One step of the loop of [getAllActiveSessions]. *)
Definition collect (ss result : JsMap.t Client) (name : string) : JsMap.t Client :=
  match JsMap.get ss name with
  | Some sess => JsMap.set result name sess
  | None => result
  end.

(** The index built from the answers of one scan. *)
Definition index_of (catalogs : list (string * list Tool)) (acc : JsMap.t string)
  : JsMap.t string :=
  fold_left (fun m c => record_tools (fst c) (snd c) m) catalogs acc.

(** Whether a catalog lists a tool of the given name. *)
Definition reports (tools : list Tool) (t : string) : bool :=
  existsb (fun tool => tool_name tool =? t) tools.

(** The server that wins a tool name: the last one, in scan order, whose
    catalog lists it. *)
Fixpoint last_reporter (catalogs : list (string * list Tool)) (t : string)
  : option string :=
  match catalogs with
  | [] => None
  | (serverName, tools) :: r =>
      match last_reporter r t with
      | Some s => Some s
      | None => if reports tools t then Some serverName else None
      end
  end.

(** The catalog queries of one scan, in order, with their answers. *)
Fixpoint query_catalogs (entries : list (string * Client))
  : M (list (string * list Tool)) :=
  match entries with
  | [] => ret []
  | (serverName, session) :: r =>
      tools <- await (ev_listTools session) (sdk_listTools session) ;;
      rest <- query_catalogs r ;;
      ret ((serverName, tools) :: rest)
  end.

(** The rebuild as the specification words it: the servers scanned are
    the names in [activeSessions], in that order, each through its
    session. *)
Fixpoint rebuild_over_active (names : list string) (toolServerMap : JsMap.t string)
  : M (JsMap.t string) :=
  match names with
  | [] => ret toolServerMap
  | serverName :: r =>
      session <- gets (fun this => JsMap.get (sessions this) serverName) ;;
      match session with
      | None => rebuild_over_active r toolServerMap
      | Some c =>
          tools <- await (ev_listTools c) (sdk_listTools c) ;;
          rebuild_over_active r (record_tools serverName tools toolServerMap)
      end
  end.

Definition rebuild_as_specified : M (JsMap.t string) :=
  names <- gets activeSessions ;;
  rebuild_over_active names JsMap.empty.

(** The transport kinds, and the failure, that selection can end in. *)
Inductive Selection : Type :=
  | selects_stdio
  | selects_sse
  | selects_streamable_http
  | selects_websocket
  | selects_ConfigurationError.

(** What [createTransport] ended in; [None] for an exception that is
    not the selector's own (the [URL] constructor rejecting its input). *)
Definition selection_of (r : Completion (Transport URL)) : option Selection :=
  match r with
  | Normal (StdioClientTransport _ _ _) => Some selects_stdio
  | Normal (StdioClientTransport_strings _ _ _) => Some selects_stdio
  | Normal (SSEClientTransport _) => Some selects_sse
  | Normal (StreamableHTTPClientTransport _) => Some selects_streamable_http
  | Normal (WebSocketClientTransport _) => Some selects_websocket
  | Throw (Error m) =>
      if m =? msg_cannot_determine then Some selects_ConfigurationError else None
  | Throw _ => None
  end.

(** A field is present when it is defined, whatever its value. *)
Definition present {A : Type} (o : option A) : bool :=
  match o with
  | Some _ => true
  | None => false
  end.

(** The precedence as the specification words it, on presence. *)
Definition selection_as_specified (cfg : MCPServerConfig) : Selection :=
  if present (command cfg) && present (args cfg) then selects_stdio
  else if present (url cfg) && type_is cfg type_sse then selects_sse
  else if present (url cfg) && type_is cfg type_streamable_http
       then selects_streamable_http
  else if present (ws_url cfg) then selects_websocket
  else selects_ConfigurationError.

(** A string field counts when it is present and not empty. *)
Definition nonempty (o : option string) : bool :=
  match o with
  | Some s => negb (String.length s =? 0)%nat
  | None => false
  end.

(** The precedence on fields that are present and not empty. *)
Definition selection_on_nonempty (cfg : MCPServerConfig) : Selection :=
  if nonempty (command cfg) && present (args cfg) then selects_stdio
  else if nonempty (url cfg) && type_is cfg type_sse then selects_sse
  else if nonempty (url cfg) && type_is cfg type_streamable_http
       then selects_streamable_http
  else if nonempty (ws_url cfg) then selects_websocket
  else selects_ConfigurationError.

(** The names the specification gives to the failures of the client,
    which all are plain [Error] objects told apart by their message. *)
Inductive ErrorKind : Type :=
  | ConfigurationError
  | NotFoundError
  | OtherError.

Fixpoint is_prefix (p s : string) : bool :=
  match p with
  | EmptyString => true
  | String a p' =>
      match s with
      | EmptyString => false
      | String b s' => (a =? b)%char && is_prefix p' s'
      end
  end.

Definition error_kind (e : Exn) : ErrorKind :=
  match e with
  | Error m =>
      if m =? msg_cannot_determine then ConfigurationError
      else if (m =? msg_no_servers)
              || is_prefix "Server '" m
              || is_prefix "No session exists for server '" m
              || is_prefix "No server found for tool '" m
              || is_prefix "No session found for server '" m
           then NotFoundError
      else OtherError
  | _ => OtherError
  end.

(** What a method body does to the call record: started in a state
    that satisfies [I], it ends in one that does, and every SDK call it
    adds to the record satisfies [P]. *)
Definition emits (I : MCPClient -> Prop) (P : Event -> Prop) {A : Type} (m : M A)
  : Prop :=
  forall this e r this' e',
    m this e = (r, this', e') -> I this ->
    I this' /\ exists evs, calls e' = (calls e ++ evs)%list /\ Forall P evs.

Definition is_close (ev : Event) : Prop :=
  match ev with
  | ev_close _ => True
  | _ => False
  end.

Definition is_listTools (ev : Event) : Prop :=
  match ev with
  | ev_listTools _ => True
  | _ => False
  end.

Definition is_callTool (ev : Event) : Prop :=
  match ev with
  | ev_callTool _ _ _ _ => True
  | _ => False
  end.

(** A tool call, if the event is one, was given the timeout [x]. *)
Definition carries_timeout (x : float) (ev : Event) : Prop :=
  match ev with
  | ev_callTool _ _ _ t => t = x
  | _ => True
  end.

(** The names of a list that have a session in a map, each with its
    session, in the order of the list. *)
Definition entries_of (ss : JsMap.t Client) (names : list string)
  : list (string * Client) :=
  flat_map (fun n => match JsMap.get ss n with
                     | Some c => [(n, c)]
                     | None => []
                     end) names.

(** The active names that have a session, each with its session, in the
    order of [activeSessions]. *)
Definition active_entries (this : MCPClient) : list (string * Client) :=
  entries_of (sessions this) (activeSessions this).

(** The catalogs of several servers as one list, server by server. *)
Definition flatten_catalogs (catalogs : list (string * list Tool)) : list ToolInfo :=
  flat_map (fun c => map to_info (snd c)) catalogs.

(* ---------------------------------------------------------------- *)
(** *** The sample driver                                              *)

(** Reading a property of a JSON value; [None] is [undefined].  Only
    objects have properties of their own here. *)
Definition get_prop (v : Json) (k : string) : option Json :=
  match v with
  | JObject fields => Assoc.get fields k
  | _ => None
  end.

(** [v[0]]. *)
Definition index0 (v : Json) : option Json :=
  match v with
  | JArray (x :: _) => Some x
  | JString (String c _) => Some (JString (String c EmptyString))
  | JObject fields => Assoc.get fields "0"
  | _ => None
  end.

(** [null] and [undefined] stop an optional chain. *)
Definition nullish (v : option Json) : bool :=
  match v with
  | None => true
  | Some JNull => true
  | Some _ => false
  end.

Definition msg_not_a_function : string := "result.content?.[0]?.text?.slice is not a function".

Definition msg_null_property : string := "Cannot read properties of null (reading 'content')".

(** [result.content?.[0]?.text?.slice(0, 100)], for what it can throw;
    the value goes to the console. *)
Definition preview (result : Json) : Completion unit :=
  match result with
  | JNull => Throw (TypeError msg_null_property)
  | _ =>
      match get_prop result "content" with
      | None | Some JNull => Normal tt
      | Some content =>
          match index0 content with
          | None | Some JNull => Normal tt
          | Some first =>
              match get_prop first "text" with
              | None | Some JNull => Normal tt
              | Some (JString _) | Some (JArray _) => Normal tt
              | Some _ => Throw (TypeError msg_not_a_function)
              end
          end
      end
  end.

Definition fetch_args : Json :=
  JObject [("url", JString "https://js.langchain.com/v0.1/docs/modules/agents/tools/dynamic/")].

Definition read_file_args : Json :=
  JObject [("path", JString "./test.py")].

(** The body of [main] up to the last tool call. *)
Definition main_calls : M unit :=
  createAllSessions ;;
  listTools ;;
  result <- callTool "fetch" fetch_args ;;
  lift (preview result) ;;
  result2 <- callTool "read_file" read_file_args ;;
  lift (preview result2).

(** The body of [main] once the client is constructed. *)
Definition main_body : M unit :=
  main_calls ;;
  closeAllSessions.

(** [main().then(() => process.exit(0)).catch(() => process.exit(1))]:
    the exit code, and what was done to the SDK. *)
Definition main (w : World) : Z * Env :=
  match fromConfigFile "mcp_config.json" w with
  | (Throw _, w') => (1%Z, mkEnv w' [])
  | (Normal client, w') =>
      match main_body client (mkEnv w' []) with
      | (Normal _, _, e) => (0%Z, e)
      | (Throw _, _, e) => (1%Z, e)
      end
  end.

End Registry.

(* ================================================================== *)
(** ** A runtime to run the client on                                  *)
(* ================================================================== *)

Module Demo.

(** A scripted set of servers: which refuse to connect, which fail to
    close, and the tools each one reports. *)
Record Scenario : Type := mkScenario {
  refusing : list string;
  failing_close : list string;
  catalog : string -> list Tool
}.

Definition has_colon (s : string) : bool :=
  existsb (fun c => (c =? ":")%char) (list_ascii_of_string s).

(** The world counts the requests served; a client is known by the name
    it connected under. *)
#[local] Instance runtime (sc : Scenario) : Sdk := {|
  World := nat;
  Client := string;
  URL := string;
  new_URL := fun s => if has_colon s then Some s else None;
  read_config := fun _ w => (Throw (Error "ENOENT: no such file or directory"), w);
  sdk_connect := fun name _ _ w =>
    (if JsArray.includes (refusing sc) name
     then Throw (McpError (-32000) "Connection closed")
     else Normal name, S w);
  sdk_close := fun c w =>
    (if JsArray.includes (failing_close sc) c
     then Throw (Error "Not connected")
     else Normal tt, S w);
  sdk_listTools := fun c w => (Normal (catalog sc c), S w);
  sdk_callTool := fun c name _ _ w => (Normal (JString (c ++ "/" ++ name)), S w)
|}.

Definition stdio (cmd : string) : MCPServerConfig :=
  mkServerConfig None (Some cmd) (Some []) None None None.

Definition tool (name : string) : Tool := mkTool name None JNull.

(** No SDK call made yet. *)
Definition start (sc : Scenario) : Env (sdk := runtime sc) :=
  mkEnv (sdk := runtime sc) 0 [].

(** Servers that all connect and close, with no tools. *)
Definition quiet : Scenario := mkScenario [] [] (fun _ => []).

(** Server [a] reports the tools [x] and [shared], server [b] the tools
    [y] and [shared]. *)
Definition two_catalogs : Scenario :=
  mkScenario [] []
    (fun c => if c =? "a" then [tool "x"; tool "shared"]
              else if c =? "b" then [tool "y"; tool "shared"]
              else []).

Definition two_servers : MCPConfig :=
  mkConfig (Some [("a", stdio "srv-a"); ("b", stdio "srv-b")]).

(** Server [a] fails to close. *)
Definition stubborn : Scenario := mkScenario [] ["a"] (fun _ => []).

(** Server [b] refuses connections. *)
Definition b_down : Scenario := mkScenario ["b"] [] (fun _ => []).

Definition three_servers : MCPConfig :=
  mkConfig (Some [("a", stdio "srv-a"); ("b", stdio "srv-b"); ("c", stdio "srv-c")]).

(** One server, configured under the empty name, reporting the tool [x]. *)
Definition unnamed : Scenario :=
  mkScenario [] [] (fun c => if c =? "" then [tool "x"] else []).

Definition unnamed_server : MCPConfig :=
  mkConfig (Some [("", stdio "srv")]).

(** A stdio descriptor whose environment record happens to hold the
    keys [type] and [url]. *)
Definition carrier : MCPServerConfig :=
  mkServerConfig None (Some "srv-p") (Some [])
                 (Some [("type", "sse"); ("url", "http://localhost:8000/sse")])
                 None None.

(** The object and the environment after a sequence of calls on a new
    client. *)
Definition after (sc : Scenario) (c : MCPConfig) (cs : list Call)
  : MCPClient (sdk := runtime sc) * Env (sdk := runtime sc) :=
  run (sdk := runtime sc) cs (fresh c) (start sc).

End Demo.

(* ================================================================== *)
(** ** Facts about arrays, maps and objects                            *)
(* ================================================================== *)

Module JsArrayFacts.
Import JsArray.

Lemma includes_In (l : list string) (x : string) :
  includes l x = true <-> In x l.
Proof.
  induction l as [|y r IH]; simpl.
  - split; [discriminate | tauto].
  - rewrite orb_true_iff, IH, String.eqb_eq. tauto.
Qed.

Lemma includes_not_In (l : list string) (x : string) :
  includes l x = false <-> ~ In x l.
Proof.
  rewrite <- includes_In. destruct (includes l x); split; congruence.
Qed.

Lemma indexOf_from_spec (x : string) (l : list string) :
  forall i : Z, (0 <= i)%Z ->
    (indexOf_from l x i = (-1)%Z /\ remove_first l x = l)
    \/ ((i <= indexOf_from l x i)%Z
        /\ splice1_nat l (Z.to_nat (indexOf_from l x i - i)) = remove_first l x).
Proof.
  induction l as [|y r IH]; intros i Hi; simpl.
  - left; split; reflexivity.
  - destruct (y =? x) eqn:E.
    + right. split; [lia|]. rewrite Z.sub_diag. reflexivity.
    + destruct (IH (i + 1)%Z ltac:(lia)) as [[H1 H2]|[H1 H2]].
      * left. split; [assumption | now rewrite H2].
      * right. split; [lia|].
        replace (Z.to_nat (indexOf_from r x (i + 1) - i))
          with (S (Z.to_nat (indexOf_from r x (i + 1) - (i + 1)))) by lia.
        simpl. now rewrite H2.
Qed.

(** The [indexOf]/[splice] idiom drops the first occurrence. *)
Lemma evict_remove_first (l : list string) (x : string) :
  evict l x = remove_first l x.
Proof.
  unfold evict, indexOf, splice1.
  destruct (@indexOf_from_spec x l 0%Z ltac:(lia)) as [[H1 H2]|[H1 H2]].
  - rewrite H1. simpl. now rewrite H2.
  - destruct (indexOf_from l x 0 =? -1)%Z eqn:E.
    + apply Z.eqb_eq in E. lia.
    + rewrite Z.sub_0_r in H2. exact H2.
Qed.

Lemma In_remove_first (l : list string) (x y : string) :
  In y (remove_first l x) -> In y l.
Proof.
  induction l as [|z r IH]; simpl; [tauto|].
  destruct (z =? x); simpl; tauto.
Qed.

Lemma In_remove_first_other (l : list string) (x y : string) :
  y <> x -> In y l -> In y (remove_first l x).
Proof.
  intros Hne. induction l as [|z r IH]; simpl; [tauto|].
  destruct (z =? x) eqn:E; simpl.
  - apply String.eqb_eq in E. subst z. intros [H|H]; [congruence | assumption].
  - tauto.
Qed.

Lemma NoDup_remove_first (l : list string) (x : string) :
  NoDup l -> NoDup (remove_first l x).
Proof.
  induction 1 as [|z r Hz Hr IH]; simpl; [constructor|].
  destruct (z =? x); [assumption|].
  constructor; [|assumption].
  intro H. apply Hz. eapply In_remove_first; eassumption.
Qed.

Lemma remove_first_NoDup_not_In (l : list string) (x : string) :
  NoDup l -> ~ In x (remove_first l x).
Proof.
  induction 1 as [|z r Hz Hr IH]; simpl; [tauto|].
  destruct (z =? x) eqn:E.
  - apply String.eqb_eq in E. now subst z.
  - apply String.eqb_neq in E. simpl. intros [H|H]; [congruence | tauto].
Qed.

Lemma remove_first_not_In (l : list string) (x : string) :
  ~ In x l -> remove_first l x = l.
Proof.
  induction l as [|z r IH]; simpl; [reflexivity|].
  intros H. destruct (z =? x) eqn:E.
  - apply String.eqb_eq in E. tauto.
  - f_equal. apply IH. tauto.
Qed.

Example evict_drops_first_occurrence :
  evict ["a"; "b"; "a"; "c"] "a" = ["b"; "a"; "c"]
  /\ evict ["a"; "b"] "z" = ["a"; "b"].
Proof. split; reflexivity. Qed.

Lemma NoDup_push (l : list string) (x : string) :
  NoDup l -> ~ In x l -> NoDup (push l x).
Proof.
  unfold push. induction 1 as [|z r Hz Hr IH]; simpl; intros Hx.
  - constructor; [simpl; tauto | constructor].
  - constructor.
    + rewrite in_app_iff. simpl. intros [H|[H|[]]]; [tauto | subst; tauto].
    + apply IH. tauto.
Qed.

Lemma In_push (l : list string) (x y : string) :
  In y (push l x) <-> In y l \/ y = x.
Proof.
  unfold push. rewrite in_app_iff. simpl. intuition congruence.
Qed.

End JsArrayFacts.

Module AssocFacts.
Import Assoc.

Section WithValues.
Variable V : Type.
Implicit Types (m : t V) (k : string) (v : V).

Lemma get_Some_In_keys m k v : get m k = Some v -> In k (keys m).
Proof.
  induction m as [|[k' v'] r IH]; simpl; [discriminate|].
  destruct (k' =? k) eqn:E.
  - apply String.eqb_eq in E. tauto.
  - intros H. right. now apply IH.
Qed.

Lemma In_keys_get m k : In k (keys m) -> exists v, get m k = Some v.
Proof.
  induction m as [|[k' v'] r IH]; simpl; [tauto|].
  destruct (k' =? k) eqn:E.
  - intros _. now exists v'.
  - apply String.eqb_neq in E. intros [H|H]; [congruence | now apply IH].
Qed.

Lemma get_None_not_In m k : get m k = None <-> ~ In k (keys m).
Proof.
  split.
  - intros H Hin. apply In_keys_get in Hin. destruct Hin as [v Hv]. congruence.
  - intros H. destruct (get m k) eqn:E; [|reflexivity].
    apply get_Some_In_keys in E. tauto.
Qed.

Lemma get_set_same m k v : get (set m k v) k = Some v.
Proof.
  induction m as [|[k' v'] r IH]; simpl.
  - now rewrite String.eqb_refl.
  - destruct (k' =? k) eqn:E; simpl.
    + now rewrite String.eqb_refl.
    + now rewrite E.
Qed.

Lemma get_set_other m k k' v : k <> k' -> get (set m k v) k' = get m k'.
Proof.
  intros Hne. induction m as [|[k0 v0] r IH]; simpl.
  - apply String.eqb_neq in Hne. now rewrite Hne.
  - destruct (k0 =? k) eqn:E; simpl.
    + apply String.eqb_eq in E. subst k0.
      apply String.eqb_neq in Hne. now rewrite Hne.
    + now rewrite IH.
Qed.

Lemma In_keys_set m k v x : In x (keys (set m k v)) <-> x = k \/ In x (keys m).
Proof.
  induction m as [|[k0 v0] r IH]; simpl.
  - intuition congruence.
  - destruct (k0 =? k) eqn:E; simpl.
    + apply String.eqb_eq in E. subst k0. intuition congruence.
    + rewrite IH. intuition congruence.
Qed.

Lemma NoDup_keys_set m k v : NoDup (keys m) -> NoDup (keys (set m k v)).
Proof.
  induction m as [|[k0 v0] r IH]; simpl; intros H.
  - constructor; [simpl; tauto | constructor].
  - inversion H as [|? ? Hk0 Hr]; subst.
    destruct (k0 =? k) eqn:E; simpl.
    + apply String.eqb_eq in E. subst k0. now constructor.
    + apply String.eqb_neq in E. constructor; [|now apply IH].
      rewrite In_keys_set. intros [H1|H1]; [congruence | tauto].
Qed.

Lemma In_keys_delete m k x : In x (keys (delete m k)) <-> x <> k /\ In x (keys m).
Proof.
  induction m as [|[k0 v0] r IH]; simpl; [tauto|].
  destruct (k0 =? k) eqn:E; simpl.
  - apply String.eqb_eq in E. subst k0. rewrite IH. intuition congruence.
  - apply String.eqb_neq in E. rewrite IH. intuition congruence.
Qed.

Lemma NoDup_keys_delete m k : NoDup (keys m) -> NoDup (keys (delete m k)).
Proof.
  induction m as [|[k0 v0] r IH]; simpl; intros H; [constructor|].
  inversion H as [|? ? Hk0 Hr]; subst.
  destruct (k0 =? k) eqn:E; simpl; [now apply IH|].
  constructor; [|now apply IH].
  rewrite In_keys_delete. tauto.
Qed.

Lemma get_delete_same m k : get (delete m k) k = None.
Proof.
  apply get_None_not_In. rewrite In_keys_delete. tauto.
Qed.

Lemma get_delete_other m k k' : k <> k' -> get (delete m k) k' = get m k'.
Proof.
  intros Hne. induction m as [|[k0 v0] r IH]; simpl; [reflexivity|].
  destruct (k0 =? k) eqn:E; simpl.
  - apply String.eqb_eq in E. subst k0.
    apply String.eqb_neq in Hne. now rewrite Hne.
  - now rewrite IH.
Qed.

End WithValues.

End AssocFacts.

Module JsObjectFacts.
Import JsObject.

Lemma In_insert_index (x y : N * string) (l : list (N * string)) :
  In y (insert_index x l) <-> y = x \/ In y l.
Proof.
  induction l as [|z r IH]; simpl.
  - intuition congruence.
  - destruct (fst x <=? fst z)%N; simpl; [|rewrite IH]; intuition congruence.
Qed.

Lemma In_index_keys (l : list string) (n : N) (k : string) :
  In (n, k) (index_keys l) <-> In k l /\ array_index k = Some n.
Proof.
  induction l as [|k0 r IH]; simpl; [tauto|].
  destruct (array_index k0) as [n0|] eqn:E.
  - rewrite In_insert_index, IH. split.
    + intros [H|H]; [inversion H; subst; tauto | tauto].
    + intros [[H|H] Hk]; [subst k0; left; congruence | tauto].
  - rewrite IH. split; [tauto|].
    intros [[H|H] Hk]; [subst k0; congruence | tauto].
Qed.

(** [Object.keys] lists exactly the own keys. *)
Lemma In_keys {V : Type} (o : t V) (k : string) :
  In k (keys o) <-> In k (Assoc.keys o).
Proof.
  unfold keys. rewrite in_app_iff, in_map_iff, filter_In. split.
  - intros [[[n k'] [Hk Hin]]|[Hin _]]; [|assumption].
    simpl in Hk. subst k'. now apply In_index_keys in Hin.
  - intros Hin. destruct (array_index k) as [n|] eqn:E.
    + left. exists (n, k). split; [reflexivity|]. now apply In_index_keys.
    + right. split; [assumption|]. unfold is_index. now rewrite E.
Qed.

Lemma keys_nil {V : Type} (o : t V) : keys o = [] <-> o = [].
Proof.
  split.
  - intros H. destruct o as [|[k v] r]; [reflexivity|].
    assert (Hin : In k (keys ((k, v) :: r))) by (apply In_keys; simpl; tauto).
    rewrite H in Hin. destruct Hin.
  - intros ->. reflexivity.
Qed.

Lemma get_Some_In_Object_keys {V : Type} (o : t V) (k : string) (v : V) :
  get o k = Some v -> In k (keys o).
Proof.
  intros H. apply In_keys. eapply AssocFacts.get_Some_In_keys. exact H.
Qed.

(** Numeric keys come first, in numeric order; the others keep the
    order in which they were created. *)
Example Object_keys_order :
  keys [("b", 1); ("10", 2); ("2", 3); ("a", 4); ("01", 5)] = ["2"; "10"; "b"; "a"; "01"].
Proof. reflexivity. Qed.

End JsObjectFacts.

(* ================================================================== *)
(** ** Transport selection                                             *)
(* ================================================================== *)

Section Selector.

Context {sdk : Sdk}.

Lemma nonempty_truthy (o : option string) : nonempty o = truthy_string o.
Proof.
  destruct o as [[|c s]|]; reflexivity.
Qed.

Lemma selection_of_with_URL (u : string) (k : URL -> Transport URL) (sel : Selection) :
  (forall x, selection_of (Normal (k x)) = Some sel) ->
  selection_of (with_URL u k) = Some sel \/ with_URL u k = Throw (TypeError msg_invalid_url).
Proof.
  intros Hk. unfold with_URL. destruct (new_URL u); [left; apply Hk | right; reflexivity].
Qed.

(** A descriptor with a non-empty command and an argument list is
    stdio, whatever else it carries. *)
Lemma createTransport_stdio (cfg : MCPServerConfig) (c : string) (a : list string) :
  command cfg = Some c -> c <> "" -> args cfg = Some a ->
  createTransport cfg = Normal (StdioClientTransport c a (env cfg)).
Proof.
  intros Hc Hne Ha. unfold createTransport. rewrite Hc, Ha. simpl.
  apply String.eqb_neq in Hne. now rewrite Hne.
Qed.

(** C2, as amended: selection follows the precedence
    stdio, SSE, streamable HTTP, WebSocket, on string fields that are
    present and not empty (an empty [command], [url] or [ws_url] counts as
    absent).  When stdio is selected the transport carries the command,
    arguments and environment; when a URL-based transport is selected, it
    is built on [new URL] of the field, and the [TypeError] of that
    constructor propagates if the string does not parse; when nothing is
    selected the call throws the cannot-determine error, which the
    specification calls ConfigurationError.  A descriptor carrying a
    non-empty command, arguments and a url yields the stdio transport. *)
Theorem createTransport_precedence (cfg : MCPServerConfig) :
  match selection_on_nonempty cfg with
  | selects_stdio =>
      exists c a, command cfg = Some c /\ args cfg = Some a
                  /\ createTransport cfg = Normal (StdioClientTransport c a (env cfg))
  | selects_sse =>
      exists u, url cfg = Some u
                /\ createTransport cfg = with_URL u SSEClientTransport
  | selects_streamable_http =>
      exists u, url cfg = Some u
                /\ createTransport cfg = with_URL u StreamableHTTPClientTransport
  | selects_websocket =>
      exists u, ws_url cfg = Some u
                /\ createTransport cfg = with_URL u WebSocketClientTransport
  | selects_ConfigurationError =>
      createTransport cfg = Throw (Error msg_cannot_determine)
      /\ error_kind (Error msg_cannot_determine) = ConfigurationError
  end
  /\ (selection_of (createTransport cfg) = Some (selection_on_nonempty cfg)
      \/ createTransport cfg = Throw (TypeError msg_invalid_url))
  /\ (nonempty (command cfg) = true -> present (args cfg) = true ->
      present (url cfg) = true ->
      selection_of (createTransport cfg) = Some selects_stdio).
Proof.
  unfold selection_on_nonempty, createTransport.
  rewrite !nonempty_truthy.
  destruct cfg as [ty c a e u w]; simpl.
  destruct c as [c|], a as [a|]; simpl;
    try destruct (c =? "") eqn:Ec; simpl.
  all: try solve [ repeat split; eauto ].
  all: unfold type_is; simpl.
  all: destruct u as [u|]; simpl; try destruct (u =? "") eqn:Eu; simpl.
  all: destruct ty as [[ | | ]|]; simpl.
  all: destruct w as [w|]; simpl; try destruct (w =? "") eqn:Ew; simpl.
  all: repeat split; eauto; try discriminate.
  all: try (apply selection_of_with_URL; reflexivity).
Qed.

End Selector.

(** C2, as stated, fails: an empty [command] is present, yet the
    code passes over stdio and builds the WebSocket transport. *)
Lemma createTransport_empty_command_is_not_stdio :
  let cfg := mkServerConfig None (Some "") (Some ["-v"]) None None
                            (Some "ws://localhost:9000") in
  selection_as_specified cfg = selects_stdio
  /\ createTransport (sdk := Demo.runtime Demo.quiet) cfg
     = Normal (WebSocketClientTransport "ws://localhost:9000")
  /\ selection_of (createTransport (sdk := Demo.runtime Demo.quiet) cfg)
     <> Some (selection_as_specified cfg).
Proof.
  repeat split; try reflexivity. discriminate.
Qed.

(** The two descriptors of the README, a descriptor with both shapes,
    one with none, and one whose url does not parse. *)
Example createTransport_examples :
  let select := createTransport (sdk := Demo.runtime Demo.quiet) in
  select (mkServerConfig None (Some "tool_studio") (Some ["arg1"; "arg2"]) None None None)
  = Normal (StdioClientTransport "tool_studio" ["arg1"; "arg2"] None)
  /\ select (mkServerConfig (Some type_sse) None None None
                            (Some "http://localhost:8000/sse") None)
     = Normal (SSEClientTransport "http://localhost:8000/sse")
  /\ select (mkServerConfig (Some type_sse) (Some "tool_studio") (Some []) None
                            (Some "http://localhost:8000/sse") None)
     = Normal (StdioClientTransport "tool_studio" [] None)
  /\ select (mkServerConfig None None None None (Some "http://localhost:8000/mcp") None)
     = Throw (Error msg_cannot_determine)
  /\ select (mkServerConfig (Some type_streamable_http) None None None (Some "localhost") None)
     = Throw (TypeError msg_invalid_url).
Proof. repeat split; reflexivity. Qed.

(* ================================================================== *)
(** ** The constructor and the timeout                                 *)
(* ================================================================== *)

Section Stability.

Context {sdk : Sdk}.

Variable I : MCPClient -> Prop.

Lemma stable_ret {A : Type} (a : A) : stable I (ret a).
Proof. intros this e r this' e' H. inversion H. auto. Qed.

Lemma stable_throw {A : Type} (ex : Exn) : stable I (throw (A := A) ex).
Proof. intros this e r this' e' H. inversion H. auto. Qed.

Lemma stable_gets {A : Type} (f : MCPClient -> A) : stable I (gets f).
Proof. intros this e r this' e' H. inversion H. auto. Qed.

Lemma stable_lift {A : Type} (c : Completion A) : stable I (lift c).
Proof. intros this e r this' e' H. inversion H. auto. Qed.

Lemma stable_await {A : Type} (ev : Event) (call : World -> Completion A * World) :
  stable I (await ev call).
Proof.
  intros this e r this' e' H. unfold await in H.
  destruct (call (world e)). inversion H. auto.
Qed.

Lemma stable_modify (f : MCPClient -> MCPClient) :
  (forall this, I this -> I (f this)) -> stable I (modify f).
Proof. intros Hf this e r this' e' H. inversion H. auto. Qed.

Lemma stable_bind {A B : Type} (m : M A) (k : A -> M B) :
  stable I m -> (forall a, stable I (k a)) -> stable I (bind m k).
Proof.
  intros Hm Hk this e r this' e' H Hi. unfold bind in H.
  destruct (m this e) as [[[a|ex] this1] e1] eqn:E.
  - eapply Hk; [exact H|]. eapply Hm; eassumption.
  - inversion H; subst. eapply Hm; eassumption.
Qed.

Lemma stable_try_catch {A : Type} (m : M A) (h : Exn -> M A) :
  stable I m -> (forall ex, stable I (h ex)) -> stable I (try_catch m h).
Proof.
  intros Hm Hh this e r this' e' H Hi. unfold try_catch in H.
  destruct (m this e) as [[[a|ex] this1] e1] eqn:E.
  - inversion H; subst. eapply Hm; eassumption.
  - eapply Hh; [exact H|]. eapply Hm; eassumption.
Qed.

Lemma stable_try_finally {A : Type} (m : M A) (fin : M unit) :
  stable I m -> stable I fin -> stable I (try_finally m fin).
Proof.
  intros Hm Hf this e r this' e' H Hi. unfold try_finally in H.
  destruct (m this e) as [[r1 this1] e1] eqn:E.
  destruct (fin this1 e1) as [[[u|ex] this2] e2] eqn:E2;
    inversion H; subst; (eapply Hf; [exact E2|]); eapply Hm; eassumption.
Qed.

Lemma stable_for_of {X : Type} (l : list X) (body : X -> M unit) :
  (forall x, stable I (body x)) -> stable I (for_of l body).
Proof.
  intros Hb. induction l as [|x r IH]; simpl.
  - apply stable_ret.
  - apply stable_bind; auto.
Qed.

(** Bodies that only read the fields keep every property. *)
Lemma scan_sessions_stable (entries : list (string * Client)) :
  forall acc, stable I (scan_sessions entries acc).
Proof.
  induction entries as [|[s c] r IH]; intros acc; simpl.
  - apply stable_ret.
  - apply stable_bind; [apply stable_await | intros tools; apply IH].
Qed.

Lemma getToolServerMap_stable : stable I getToolServerMap.
Proof.
  unfold getToolServerMap. apply stable_bind; [apply stable_gets|].
  intros entries. apply scan_sessions_stable.
Qed.

Lemma query_catalogs_stable (entries : list (string * Client)) :
  stable I (query_catalogs entries).
Proof.
  induction entries as [|[s c] r IH]; simpl.
  - apply stable_ret.
  - apply stable_bind; [apply stable_await | intros tools].
    apply stable_bind; [apply IH | intros rest; apply stable_ret].
Qed.

Lemma listTools_loop_stable (names : list string) :
  forall acc, stable I (listTools_loop names acc).
Proof.
  induction names as [|n r IH]; intros acc; simpl.
  - apply stable_ret.
  - apply stable_bind; [apply stable_gets | intros [c|]].
    + apply stable_bind; [apply stable_await | intros tools; apply IH].
    + apply stable_throw.
Qed.

Lemma listTools_stable : stable I listTools.
Proof.
  unfold listTools. apply stable_bind; [apply stable_gets|].
  intros names. apply listTools_loop_stable.
Qed.

Lemma callTool_stable (name : string) (args : Json) : stable I (callTool name args).
Proof.
  unfold callTool. apply stable_bind; [apply stable_gets | intros sn].
  destruct (negb (truthy_string sn)); [apply stable_throw|].
  destruct sn as [sn|]; [|apply stable_throw].
  apply stable_bind; [apply stable_gets | intros [c|]]; [|apply stable_throw].
  apply stable_bind; [apply stable_gets | intros t; apply stable_await].
Qed.

(** The loop of [closeAllSessions] keeps what [closeSession] keeps. *)
Lemma closeAll_loop_stable (names : list string) :
  (forall n, stable I (closeSession n)) ->
  forall errors, stable I (closeAll_loop names errors).
Proof.
  intros Hc. induction names as [|n r IH]; intros errors; simpl.
  - apply stable_ret.
  - apply stable_bind; [|intros errors'; apply IH].
    apply stable_try_catch; [|intros ex; apply stable_ret].
    apply stable_bind; [apply Hc | intros _; apply stable_ret].
Qed.

End Stability.

Ltac stable_step :=
  first
    [ apply stable_ret | apply stable_throw | apply stable_gets | apply stable_lift
    | apply stable_await
    | apply stable_bind; [|intros ?]
    | apply stable_try_catch; [|intros ?]
    | apply stable_try_finally
    | apply stable_for_of; intros ?
    | match goal with
      | |- stable _ (match ?x with _ => _ end) => destruct x
      end ].

Section Timeout.

Context {sdk : Sdk}.

Lemma timeout_modify (x : float) (f : MCPClient -> MCPClient) :
  (forall this, maxToolTimeout (f this) = maxToolTimeout this) ->
  stable (timeout_is x) (modify f).
Proof.
  intros Hf. apply stable_modify. unfold timeout_is. intros this H. now rewrite Hf.
Qed.

Ltac timeout_step :=
  first
    [ stable_step
    | apply timeout_modify; intros ?;
      repeat match goal with
             | |- context [match ?y with _ => _ end] => destruct y
             end; reflexivity ].

(** [addServer] writes the configuration only. *)
Lemma addServer_frame (n : string) (cfg : MCPServerConfig) this :
  let this' := assign_server n cfg (ensure_mcpServers this) in
  sessions this' = sessions this
  /\ activeSessions this' = activeSessions this
  /\ toolServerMap this' = toolServerMap this
  /\ maxToolTimeout this' = maxToolTimeout this.
Proof.
  unfold assign_server, ensure_mcpServers.
  destruct (mcpServers (config this));
    match goal with
    | |- context [if ?b then _ else _] => destruct b
    end; simpl; auto.
Qed.

Lemma createSession_timeout (x : float) (n : string) : stable (timeout_is x) (createSession n).
Proof. unfold createSession. repeat timeout_step. Qed.

Lemma closeSession_timeout (x : float) (n : string) : stable (timeout_is x) (closeSession n).
Proof. unfold closeSession. repeat timeout_step. Qed.

Lemma exec_timeout (c : Call) (this : MCPClient) (e : Env) :
  maxToolTimeout (fst (exec c this e)) = maxToolTimeout this.
Proof.
  assert (H : forall A (m : M A), stable (timeout_is (maxToolTimeout this)) m ->
                maxToolTimeout (fst (forget m this e)) = maxToolTimeout this).
  { intros A m Hm. unfold forget. destruct (m this e) as [[r this'] e'] eqn:E.
    simpl. eapply Hm; [exact E | reflexivity]. }
  destruct c; unfold exec; apply H.
  - unfold addServer. apply timeout_modify. intros this0. apply addServer_frame.
  - unfold removeServer. repeat timeout_step.
  - apply createSession_timeout.
  - unfold createAllSessions.
    repeat first [ apply createSession_timeout | apply getToolServerMap_stable | timeout_step ].
  - apply closeSession_timeout.
  - unfold closeAllSessions.
    repeat first [ apply closeAll_loop_stable; intros ?; apply closeSession_timeout
                 | timeout_step ].
  - apply listTools_stable.
  - apply callTool_stable.
Qed.

End Timeout.

Section Constructor.

Context {sdk : Sdk}.

Lemma run_timeout (cs : list Call) :
  forall this e, maxToolTimeout (fst (run cs this e)) = maxToolTimeout this.
Proof.
  induction cs as [|c r IH]; intros this e; simpl; [reflexivity|].
  destruct (exec c this e) as [this1 e1] eqn:E.
  rewrite IH. change this1 with (fst (this1, e1)). rewrite <- E. apply exec_timeout.
Qed.

(** The timeout the constructor leaves in the field. *)
Lemma new_MCPClient_timeout arg (t : option float) (w : World) this w' :
  new_MCPClient arg t w = (Normal this, w') ->
  maxToolTimeout this
  = match t with
    | Some x => if truthy_number x then x else 10000%float
    | None => 10000%float
    end.
Proof.
  unfold new_MCPClient. intros H.
  assert (E : forall c, maxToolTimeout
            match t with
            | Some x => if truthy_number x then set_maxToolTimeout x (fresh c) else fresh c
            | None => fresh c
            end
          = match t with
            | Some x => if truthy_number x then x else 10000%float
            | None => 10000%float
            end).
  { intros c. destruct t as [x|]; [destruct (truthy_number x)|]; reflexivity. }
  destruct arg as [[p|c]|].
  - destruct (p =? "").
    + inversion H; subst. apply E.
    + destruct (read_config p w) as [[c|ex] w1]; inversion H; subst. apply E.
  - inversion H; subst. apply E.
  - inversion H; subst. apply E.
Qed.

(** C10: a falsy [maxToolTimeout] argument (zero, negative zero, NaN)
    leaves the field at its default of 10000, and so it stays through
    every later call; and however the object is constructed, the timeout
    that [callTool] will pass on is never zero. *)
Theorem falsy_maxToolTimeout_keeps_default
  arg (x : float) (w : World) (this : MCPClient) (w' : World) :
  truthy_number x = false ->
  new_MCPClient arg (Some x) w = (Normal this, w') ->
  maxToolTimeout this = 10000%float
  /\ (forall cs e, maxToolTimeout (fst (run cs this e)) = 10000%float)
  /\ (forall arg0 t0 w0 this0 w0',
        new_MCPClient arg0 t0 w0 = (Normal this0, w0') ->
        forall cs e, is_zero (maxToolTimeout (fst (run cs this0 e))) = false).
Proof.
  intros Hx Hnew.
  apply new_MCPClient_timeout in Hnew. rewrite Hx in Hnew.
  split; [exact Hnew|]. split.
  - intros cs e. now rewrite run_timeout.
  - intros arg0 t0 w0 this0 w0' H0 cs e. rewrite run_timeout.
    apply new_MCPClient_timeout in H0. rewrite H0.
    destruct t0 as [y|]; [|reflexivity].
    destruct (truthy_number y) eqn:Ey; [|reflexivity].
    unfold truthy_number in Ey. apply negb_true_iff in Ey.
    now apply orb_false_iff in Ey.
Qed.

End Constructor.

(** Constructing with a timeout of zero. *)
Lemma zero_maxToolTimeout_keeps_default :
  let this := fresh (sdk := Demo.runtime Demo.quiet) (mkConfig None) in
  truthy_number 0%float = false
  /\ new_MCPClient (sdk := Demo.runtime Demo.quiet) None (Some 0%float) 0 = (Normal this, 0)
  /\ maxToolTimeout this = 10000%float.
Proof.
  split; [reflexivity|]. split; [reflexivity|].
  apply (falsy_maxToolTimeout_keeps_default
           (sdk := Demo.runtime Demo.quiet)
           None 0%float 0 (w' := 0)); reflexivity.
Defined.

(* ================================================================== *)
(** ** Single sessions: creation and closing                           *)
(* ================================================================== *)

Section Sessions.

Context {sdk : Sdk}.

(** [createSession] either throws and leaves the object as it was, having
    made at most the one connection attempt, or connects once and stores
    the client. *)
Lemma createSession_inv (n : string) this e r this' e' :
  createSession n this e = (r, this', e') ->
  (exists ex, r = Throw ex /\ this' = this
              /\ (e' = e \/ exists t w1, e' = mkEnv w1 (calls e ++ [ev_connect n "1.0.0" t])%list))
  \/ (exists c o v t,
        r = Normal c
        /\ mcpServers (config this) = Some o
        /\ (read_server o (mcpServers_prototype this) n = v /\ truthy_value v = true)
        /\ createTransport_value v = Normal t
        /\ sdk_connect n "1.0.0" t (world e) = (Normal c, world e')
        /\ calls e' = (calls e ++ [ev_connect n "1.0.0" t])%list
        /\ this' = created n c this).
Proof.
  unfold createSession, bind, gets, throw, lift, await, modify, ret.
  destruct (mcpServers (config this)) as [o|] eqn:Eo.
  2:{ intros H; inversion H; subst. left; eauto. }
  destruct (List.length (JsObject.keys o) =? 0)%nat.
  { intros H; inversion H; subst. left; eauto. }
  destruct (truthy_value (read_server o (mcpServers_prototype this) n)) eqn:Ev; simpl.
  2:{ intros H; inversion H; subst. left; eauto. }
  destruct (createTransport_value (read_server o (mcpServers_prototype this) n))
    as [t|ex] eqn:Et.
  2:{ intros H; inversion H; subst. left; eauto. }
  destruct (sdk_connect n "1.0.0" t (world e)) as [[c|ex] w1] eqn:Ec.
  - intros H; inversion H; subst. right.
    exists c, o, (read_server o (mcpServers_prototype this) n), t.
    simpl. repeat split; auto.
  - intros H; inversion H; subst. left. exists ex. repeat split. right; eauto.
Qed.

(** With the original prototype, a value that is read for a name and
    gives a transport is an own descriptor of the configuration. *)
Lemma read_server_plain (o : JsObject.t MCPServerConfig) (n : string) v t :
  read_server o None n = v ->
  createTransport_value v = Normal t ->
  exists cfg, v = value_config cfg /\ JsObject.get o n = Some cfg
              /\ createTransport cfg = Normal t.
Proof.
  unfold read_server. destruct (JsObject.get o n) as [cfg|].
  - intros <- Ht. exists cfg. auto.
  - destruct (JsObject.inherits n); intros <-; discriminate.
Qed.

(** An own descriptor is what is read, whatever the prototype. *)
Lemma read_server_own (o : JsObject.t MCPServerConfig) proto (n : string) cfg :
  JsObject.get o n = Some cfg -> read_server o proto n = value_config cfg.
Proof. unfold read_server. now intros ->. Qed.

(** [closeSession] as one equation: nothing happens for an unknown name;
    otherwise the client is asked to close, whatever that call answers is
    dropped, and the name leaves both the map and the list. *)
Lemma closeSession_eq (n : string) this e :
  closeSession n this e
  = match JsMap.get (sessions this) n with
    | None => (Normal tt, this, e)
    | Some c =>
        (Normal tt, closed n this,
         mkEnv (snd (sdk_close c (world e))) (calls e ++ [ev_close c])%list)
    end.
Proof.
  unfold closeSession, bind, gets, try_finally, try_catch, await, modify, ret.
  destruct (JsMap.get (sessions this) n) as [c|]; [|reflexivity].
  destruct (sdk_close c (world e)) as [[[]|ex] w1]; reflexivity.
Qed.

Lemma consistent_created (n : string) (c : Client) this :
  consistent this ->
  (original_prototype this -> In n (Assoc.keys (servers_or_empty this))) ->
  consistent (created n c this).
Proof.
  intros [Hnd Hs Hc Hsn] Hn. unfold created. simpl.
  destruct (JsArray.includes (activeSessions this) n) eqn:E; constructor; simpl.
  - assumption.
  - intros m Hm. apply AssocFacts.In_keys_set. right. now apply Hs.
  - assumption.
  - now apply AssocFacts.NoDup_keys_set.
  - apply JsArrayFacts.NoDup_push; [assumption|].
    now apply JsArrayFacts.includes_not_In.
  - intros m Hm. apply AssocFacts.In_keys_set.
    apply JsArrayFacts.In_push in Hm. destruct Hm as [Hm| ->]; [right; now apply Hs | now left].
  - intros Hp m Hm. apply JsArrayFacts.In_push in Hm.
    destruct Hm as [Hm| ->]; [now apply Hc | now apply Hn].
  - now apply AssocFacts.NoDup_keys_set.
Qed.

Lemma consistent_closed (n : string) this :
  consistent this -> consistent (closed n this).
Proof.
  intros [Hnd Hs Hc Hsn]. unfold closed.
  constructor; simpl; rewrite ?JsArrayFacts.evict_remove_first.
  - now apply JsArrayFacts.NoDup_remove_first.
  - intros m Hm. apply AssocFacts.In_keys_delete. split.
    + intros ->. revert Hm. now apply JsArrayFacts.remove_first_NoDup_not_In.
    + apply Hs. eapply JsArrayFacts.In_remove_first; eassumption.
  - intros Hp m Hm. apply (Hc Hp). eapply JsArrayFacts.In_remove_first; eassumption.
  - now apply AssocFacts.NoDup_keys_delete.
Qed.

Lemma createSession_consistent (n : string) : stable consistent (createSession n).
Proof.
  intros this e r this' e' H Hi.
  apply createSession_inv in H.
  destruct H as [(ex & _ & -> & _)|(c & o & v & t & _ & Ho & [Hv _] & Ht & _ & _ & ->)].
  - assumption.
  - apply consistent_created; [assumption|].
    intros [Hp|Hp]; [congruence|]. rewrite Hp in Hv.
    destruct (read_server_plain _ _ Hv Ht) as (cfg & _ & Hcfg & _).
    unfold servers_or_empty. rewrite Ho.
    eapply AssocFacts.get_Some_In_keys. exact Hcfg.
Qed.

Lemma closeSession_consistent (n : string) : stable consistent (closeSession n).
Proof.
  intros this e r this' e' H Hi. rewrite closeSession_eq in H.
  destruct (JsMap.get (sessions this) n); inversion H; subst;
    [now apply consistent_closed | assumption].
Qed.

(** What [addServer] does to the configuration: under the name
    [__proto__], on an object without an own property of that name, the
    prototype is replaced and the own properties stay; otherwise the own
    property is written and the prototype stays. *)
Lemma addServer_config (n : string) (cfg : MCPServerConfig) this :
  let this' := assign_server n cfg (ensure_mcpServers this) in
  (n = "__proto__" /\ JsObject.get (servers_or_empty this) n = None
   /\ mcpServers (config this') = Some (servers_or_empty this)
   /\ mcpServers_prototype this' = Some cfg)
  \/ ((n <> "__proto__" \/ JsObject.get (servers_or_empty this) n <> None)
      /\ mcpServers (config this') = Some (JsObject.set (servers_or_empty this) n cfg)
      /\ mcpServers_prototype this'
         = match mcpServers (config this) with
           | Some _ => mcpServers_prototype this
           | None => None
           end).
Proof.
  unfold assign_server, ensure_mcpServers, servers_or_empty, Assoc.has, JsObject.get.
  destruct (mcpServers (config this)) as [o|] eqn:Eo; simpl; rewrite ?Eo; simpl.
  - destruct (n =? "__proto__") eqn:En; simpl.
    + apply String.eqb_eq in En.
      destruct (Assoc.get o n) eqn:Eg; simpl; rewrite ?Eo.
      * right. repeat split; auto. right. congruence.
      * left. repeat split; auto.
    + apply String.eqb_neq in En. rewrite ?Eo. right. repeat split; auto.
  - destruct (n =? "__proto__") eqn:En; simpl.
    + apply String.eqb_eq in En. left. repeat split; auto.
    + apply String.eqb_neq in En. right. repeat split; auto.
Qed.

Lemma addServer_consistent (n : string) (cfg : MCPServerConfig) :
  stable consistent (addServer n cfg).
Proof.
  apply stable_modify. intros this [Hnd Hs Hc Hsn].
  destruct (addServer_frame n cfg this) as (Fs & Fa & _ & _).
  pose proof (addServer_config n cfg this) as Hcfg. cbv zeta in Hcfg.
  constructor; rewrite ?Fs, ?Fa; try assumption.
  intros Hp m Hm. unfold original_prototype, servers_or_empty in *.
  destruct Hcfg as [(_ & _ & Ho & Hq)|(_ & Ho & Hq)]; rewrite Ho in *.
  - destruct Hp; congruence.
  - apply AssocFacts.In_keys_set. right. apply Hc; [|assumption].
    destruct (mcpServers (config this)); [right|left; reflexivity].
    destruct Hp; congruence.
Qed.

(** Deleting a key that is not there leaves the object as it is. *)
Lemma set_config_same (o : JsObject.t MCPServerConfig) this :
  mcpServers (config this) = Some o -> set_config (mkConfig (Some o)) this = this.
Proof.
  destruct this as [[ms] ss act idx t p]. simpl. now intros ->.
Qed.

Lemma delete_not_own {V : Type} (o : Assoc.t V) (n : string) :
  Assoc.get o n = None -> Assoc.delete o n = o.
Proof.
  induction o as [|[k v] r IH]; simpl; [reflexivity|].
  destruct (k =? n); [discriminate|]. simpl. intros H. now rewrite IH.
Qed.

(** [removeServer] never throws and makes no SDK call. *)
Lemma removeServer_eq (n : string) this e :
  removeServer n this e = (Normal tt, removed n this, e).
Proof.
  unfold removeServer, removed, bind, modify.
  destruct (mcpServers (config this)) as [o|] eqn:Eo; [|reflexivity].
  unfold read_server.
  destruct (JsObject.get o n) eqn:Eg; simpl; [reflexivity|].
  match goal with
  | |- context [if ?b then _ else _] => destruct b
  end; [|reflexivity].
  unfold JsObject.delete. rewrite (delete_not_own _ _ Eg).
  now rewrite (set_config_same _ Eo).
Qed.

Lemma sessions_removed (n : string) this : sessions (removed n this) = sessions this.
Proof.
  unfold removed. destruct (mcpServers (config this)) as [o|]; [|reflexivity].
  destruct (JsObject.get o n); reflexivity.
Qed.

Lemma activeSessions_removed (n : string) this :
  activeSessions (removed n this) = JsArray.remove_first (activeSessions this) n.
Proof.
  unfold removed. rewrite <- JsArrayFacts.evict_remove_first.
  destruct (mcpServers (config this)) as [o|]; [|reflexivity].
  destruct (JsObject.get o n); reflexivity.
Qed.

(** The own keys left in the configuration by [removeServer n]. *)
Lemma configured_removed (n : string) this (m : string) :
  In m (Assoc.keys (servers_or_empty (removed n this)))
  <-> m <> n /\ In m (Assoc.keys (servers_or_empty this)).
Proof.
  unfold removed, servers_or_empty. simpl.
  destruct (mcpServers (config this)) as [o|] eqn:Eo; simpl.
  - destruct (JsObject.get o n) as [cfg|] eqn:Ecfg; simpl.
    + apply AssocFacts.In_keys_delete.
    + rewrite Eo. split; [|tauto]. intros Hm. split; [|assumption].
      intros ->. apply AssocFacts.get_None_not_In in Ecfg. tauto.
  - rewrite Eo. simpl. tauto.
Qed.

Lemma consistent_removed (n : string) this :
  consistent this -> consistent (removed n this).
Proof.
  intros [Hnd Hs Hc Hsn].
  constructor; rewrite ?sessions_removed, ?activeSessions_removed.
  - now apply JsArrayFacts.NoDup_remove_first.
  - intros m Hm. apply Hs. eapply JsArrayFacts.In_remove_first; eassumption.
  - intros Hp m Hm. apply configured_removed. split.
    + intros ->. revert Hm. now apply JsArrayFacts.remove_first_NoDup_not_In.
    + apply Hc; [|eapply JsArrayFacts.In_remove_first; eassumption].
      revert Hp. unfold original_prototype, removed.
      destruct (mcpServers (config this)) as [o|] eqn:Eo; [|tauto].
      destruct (JsObject.get o n); simpl; (intros [Hp|Hp]; [congruence | now right]).
  - assumption.
Qed.

Lemma removeServer_consistent (n : string) : stable consistent (removeServer n).
Proof.
  intros this e r this' e' H Hi. rewrite removeServer_eq in H.
  inversion H; subst. now apply consistent_removed.
Qed.

Lemma prototype_removed (n : string) this :
  mcpServers_prototype (removed n this) = mcpServers_prototype this.
Proof.
  unfold removed. destruct (mcpServers (config this)) as [o|]; [|reflexivity].
  destruct (JsObject.get o n); reflexivity.
Qed.

End Sessions.

(* ================================================================== *)
(** ** The prototype of the configuration object                       *)
(* ================================================================== *)

Section Prototype.

Context {sdk : Sdk}.

Variable p : option MCPServerConfig.

Lemma prototype_modify (f : MCPClient -> MCPClient) :
  (forall this, mcpServers_prototype (f this) = mcpServers_prototype this) ->
  stable (prototype_is p) (modify f).
Proof.
  intros Hf. apply stable_modify. unfold prototype_is. intros this H. now rewrite Hf.
Qed.

Ltac prototype_step :=
  first
    [ stable_step
    | apply prototype_modify; intros ?;
      repeat match goal with
             | |- context [match ?y with _ => _ end] => destruct y
             end; reflexivity ].

Lemma createSession_prototype (n : string) : stable (prototype_is p) (createSession n).
Proof. unfold createSession. repeat prototype_step. Qed.


Lemma createAllSessions_prototype : stable (prototype_is p) createAllSessions.
Proof.
  unfold createAllSessions.
  repeat first [ apply createSession_prototype | apply getToolServerMap_stable
               | prototype_step ].
Qed.



End Prototype.

Section PrototypeCalls.

Context {sdk : Sdk}.




End PrototypeCalls.

(* ================================================================== *)
(** ** The registry invariant                                          *)
(* ================================================================== *)

Section Invariant.

Context {sdk : Sdk}.

(** A body that keeps every property leaves the object untouched. *)
Lemma stable_readonly {A : Type} (m : M A) :
  (forall I, stable I m) ->
  forall this e r this' e', m this e = (r, this', e') -> this' = this.
Proof.
  intros Hm this e r this' e' H.
  exact (Hm (fun s => s = this) this e r this' e' H eq_refl).
Qed.

Lemma create_each_consistent (names : list string) :
  stable consistent (for_of names (fun name => createSession name ;; ret tt)).
Proof.
  apply stable_for_of. intros n.
  apply stable_bind; [apply createSession_consistent | intros _; apply stable_ret].
Qed.

Lemma createAllSessions_consistent : stable consistent createAllSessions.
Proof.
  unfold createAllSessions.
  apply stable_bind; [apply stable_gets | intros [o|]]; [|apply stable_throw].
  destruct (List.length (JsObject.keys o) =? 0)%nat; [apply stable_throw|].
  apply stable_bind; [apply create_each_consistent | intros _].
  apply stable_bind; [apply getToolServerMap_stable | intros m].
  apply stable_bind; [|intros _; apply stable_gets].
  apply stable_modify. intros this [Hnd Hs Hc Hsn]. now constructor.
Qed.

Lemma closeAllSessions_consistent : stable consistent closeAllSessions.
Proof.
  unfold closeAllSessions.
  apply stable_bind; [apply stable_gets | intros names].
  apply stable_bind; [|intros _; apply stable_ret].
  apply closeAll_loop_stable. apply closeSession_consistent.
Qed.

Lemma exec_consistent (c : Call) this e :
  consistent this -> consistent (fst (exec c this e)).
Proof.
  assert (H : forall A (m : M A), stable consistent m ->
                consistent this -> consistent (fst (forget m this e))).
  { intros A m Hm Hi. unfold forget. destruct (m this e) as [[r this'] e'] eqn:E.
    simpl. eapply Hm; eassumption. }
  destruct c; unfold exec; apply H.
  - apply addServer_consistent.
  - apply removeServer_consistent.
  - apply createSession_consistent.
  - apply createAllSessions_consistent.
  - apply closeSession_consistent.
  - apply closeAllSessions_consistent.
  - apply listTools_stable.
  - apply callTool_stable.
Qed.

Lemma new_MCPClient_fields arg t (w : World) this w' :
  new_MCPClient arg t w = (Normal this, w') ->
  sessions this = JsMap.empty /\ activeSessions this = []
  /\ toolServerMap this = JsMap.empty.
Proof.
  unfold new_MCPClient. intros H.
  assert (E : forall c,
    let this0 := match t with
                 | Some x => if truthy_number x then set_maxToolTimeout x (fresh c) else fresh c
                 | None => fresh c
                 end in
    sessions this0 = JsMap.empty /\ activeSessions this0 = []
    /\ toolServerMap this0 = JsMap.empty).
  { intros c. destruct t as [x|]; [destruct (truthy_number x)|]; simpl; auto. }
  destruct arg as [[p|c]|].
  - destruct (p =? "").
    + inversion H; subst. apply E.
    + destruct (read_config p w) as [[c|ex] w1]; inversion H; subst. apply E.
  - inversion H; subst. apply E.
  - inversion H; subst. apply E.
Qed.

(** In every reachable state the active list has no repetition and
    names only servers that have a session, and a descriptor of their own
    too while the configuration object has its original prototype; the
    session map has one entry per key. *)
Lemma reachable_consistent this : reachable this -> consistent this.
Proof.
  induction 1 as [arg t w this w' Hnew | c this e Hr IH].
  - apply new_MCPClient_fields in Hnew. destruct Hnew as (Hs & Ha & _).
    constructor; rewrite ?Hs, ?Ha; simpl; try constructor; tauto.
  - now apply exec_consistent.
Qed.

Lemma reachable_run (cs : list Call) :
  forall this e, reachable this -> reachable (fst (run cs this e)).
Proof.
  induction cs as [|c r IH]; intros this e Hr; simpl; [assumption|].
  destruct (exec c this e) as [this1 e1] eqn:E.
  apply IH. change this1 with (fst (this1, e1)). rewrite <- E.
  now apply reachable_call.
Qed.

Lemma reachable_fresh (c : MCPConfig) : World -> reachable (fresh c).
Proof.
  intros w. apply (@reachable_new _ (Some (inr c)) None w (fresh c) w). reflexivity.
Qed.

(** C6: in every state reachable from the constructor by calls of
    the methods, each name in [activeSessions] has an entry in
    [sessions]. *)
Theorem active_sessions_are_registered (this : MCPClient) (n : string) :
  reachable this ->
  In n (activeSessions this) ->
  exists c, JsMap.get (sessions this) n = Some c.
Proof.
  intros Hr Hn. apply reachable_consistent in Hr.
  apply AssocFacts.In_keys_get. now apply (active_has_session Hr).
Qed.

End Invariant.

(** Two sessions are created and the first server is then removed from
    the configuration: its session stays in the map, its name leaves the
    list.  The invariant holds, and its converse does not. *)
Lemma session_outlives_removeServer :
  let this :=
    fst (run (sdk := Demo.runtime Demo.quiet)
             [call_createSession "a"; call_createSession "b"; call_removeServer "a"]
             (fresh Demo.two_servers) (Demo.start Demo.quiet)) in
  (sessions this = [("a", "a"); ("b", "b")] /\ activeSessions this = ["b"])
  /\ (exists c, JsMap.get (sessions this) "b" = Some c)
  /\ JsMap.get (sessions this) "a" = Some "a"
  /\ ~ In "a" (activeSessions this).
Proof.
  split; [split; reflexivity|]. split.
  - apply (@active_sessions_are_registered (Demo.runtime Demo.quiet)).
    + apply reachable_run. apply reachable_fresh. exact 0.
    + simpl. tauto.
  - split; [reflexivity|]. simpl. intros [H|[]]. discriminate.
Defined.

(* ================================================================== *)
(** ** Closing sessions and removing servers                           *)
(* ================================================================== *)

Section Closing.

Context {sdk : Sdk}.

Lemma not_In_closed (n : string) this :
  NoDup (activeSessions this) ->
  JsMap.get (sessions (closed n this)) n = None
  /\ ~ In n (activeSessions (closed n this)).
Proof.
  intros Hnd. unfold closed. simpl. split.
  - apply AssocFacts.get_delete_same.
  - rewrite JsArrayFacts.evict_remove_first.
    now apply JsArrayFacts.remove_first_NoDup_not_In.
Qed.

Lemma closed_frame (n m : string) this :
  m <> n ->
  JsMap.get (sessions (closed n this)) m = JsMap.get (sessions this) m
  /\ (In m (activeSessions (closed n this)) <-> In m (activeSessions this)).
Proof.
  intros Hne. unfold closed. simpl. split.
  - apply AssocFacts.get_delete_other. congruence.
  - rewrite JsArrayFacts.evict_remove_first. split.
    + apply JsArrayFacts.In_remove_first.
    + now apply JsArrayFacts.In_remove_first_other.
Qed.

(** C7: [closeSession n] for a name without a session returns
    normally, changes neither the object nor the record of SDK calls.  For a
    tracked session it issues the one [close] call and, whatever that call
    answers, returns normally with [n] gone from [sessions] and from
    [activeSessions]; the sessions and the active names other than [n],
    and the configuration, are as before. *)
Theorem closeSession_cleans_up (n : string) (this : MCPClient) (e : Env) :
  reachable this ->
  match JsMap.get (sessions this) n with
  | None => closeSession n this e = (Normal tt, this, e)
  | Some c =>
      exists this',
        closeSession n this e
        = (Normal tt, this',
           mkEnv (snd (sdk_close c (world e))) (calls e ++ [ev_close c])%list)
        /\ JsMap.get (sessions this') n = None
        /\ ~ In n (activeSessions this')
        /\ config this' = config this
        /\ forall m, m <> n ->
             JsMap.get (sessions this') m = JsMap.get (sessions this) m
             /\ (In m (activeSessions this') <-> In m (activeSessions this))
  end.
Proof.
  intros Hr. apply reachable_consistent in Hr.
  rewrite closeSession_eq.
  destruct (JsMap.get (sessions this) n) as [c|]; [|reflexivity].
  exists (closed n this). split; [reflexivity|].
  destruct (not_In_closed n this (active_NoDup Hr)) as [H1 H2].
  repeat split; try assumption; now apply closed_frame.
Qed.

(** The loop of [closeAllSessions] never throws. *)
Lemma closeAll_loop_normal (names : list string) :
  forall errors this e, exists errors' this' e',
    closeAll_loop names errors this e = (Normal errors', this', e').
Proof.
  induction names as [|n r IH]; intros errors this e; simpl.
  - unfold ret. eauto.
  - unfold bind at 1. unfold try_catch, bind. rewrite closeSession_eq.
    destruct (JsMap.get (sessions this) n); unfold ret; apply IH.
Qed.

(** After the loop no name of the list it ran over has a session. *)
Lemma closeAll_loop_sessions (names : list string) :
  forall errors this e r this' e',
    closeAll_loop names errors this e = (r, this', e') ->
    forall m, In m (JsMap.keys (sessions this')) ->
              In m (JsMap.keys (sessions this)) /\ ~ In m names.
Proof.
  induction names as [|n r0 IH]; intros errors this e r this' e' H m Hm; simpl in H.
  - inversion H; subst. tauto.
  - unfold bind at 1 in H. unfold try_catch, bind in H. rewrite closeSession_eq in H.
    destruct (JsMap.get (sessions this) n) as [c|] eqn:Ec; unfold ret in H.
    + destruct (IH _ _ _ _ _ _ H m Hm) as [H1 H2].
      unfold closed in H1. simpl in H1. apply AssocFacts.In_keys_delete in H1.
      split; [tauto|]. simpl. intros [->|H3]; tauto.
    + destruct (IH _ _ _ _ _ _ H m Hm) as [H1 H2].
      split; [assumption|]. simpl. intros [->|H3]; [|tauto].
      apply AssocFacts.get_None_not_In in Ec. tauto.
Qed.

Lemma no_keys_empty {V : Type} (m : JsMap.t V) :
  (forall k, ~ In k (JsMap.keys m)) -> m = [].
Proof.
  destruct m as [|[k v] r]; [reflexivity|].
  intros H. exfalso. apply (H k). simpl. tauto.
Qed.

Lemma nothing_In_nil {X : Type} (l : list X) : (forall x, ~ In x l) -> l = [].
Proof.
  destruct l as [|x r]; [reflexivity|].
  intros H. exfalso. apply (H x). simpl. tauto.
Qed.

(** C8: [closeAllSessions] returns normally whatever the individual
    [close] calls answer, and leaves [sessions] and [activeSessions]
    empty. *)
Theorem closeAllSessions_empties_registry (this : MCPClient) (e : Env) :
  reachable this ->
  exists this' e',
    closeAllSessions this e = (Normal tt, this', e')
    /\ sessions this' = JsMap.empty
    /\ activeSessions this' = [].
Proof.
  intros Hr. apply reachable_consistent in Hr.
  destruct (closeAll_loop_normal (JsMap.keys (sessions this)) [] this e)
    as (errors & this' & e' & Hloop).
  exists this', e'.
  assert (Hrun : closeAllSessions this e = (Normal tt, this', e')).
  { unfold closeAllSessions, bind, gets, ret. now rewrite Hloop. }
  assert (Hs : sessions this' = []).
  { apply no_keys_empty. intros k Hk.
    destruct (closeAll_loop_sessions _ _ _ _ Hloop k Hk). tauto. }
  split; [exact Hrun|]. split; [exact Hs|].
  apply nothing_In_nil. intros n Hn.
  assert (Hc : consistent this') by (eapply closeAllSessions_consistent; eassumption).
  apply (active_has_session Hc) in Hn. rewrite Hs in Hn. exact Hn.
Qed.

(** X22: on a reachable object [removeServer n] returns normally
    without any SDK call (so no session is closed).  Afterwards the active
    list is the one before without [n], in the same order: [n] is not in
    it and every other name is in it exactly when it was.  The [sessions]
    map, the tool index, the timeout and the prototype of the
    configuration object are as before.  [n] has no own descriptor and is
    not listed by [getServerNames], which lists every other name exactly
    when it was configured; the other descriptors are untouched.  If the
    configuration object still has the prototype it was built with, a
    later [createSession n] throws without connecting.  A session held
    for [n] is still closed by a later [closeSession n]. *)
Theorem removeServer_keeps_session (n : string) (this : MCPClient) (e : Env) :
  reachable this ->
  exists this',
    removeServer n this e = (Normal tt, this', e)
    /\ sessions this' = sessions this
    /\ activeSessions this' = JsArray.remove_first (activeSessions this) n
    /\ ~ In n (activeSessions this')
    /\ (forall m, m <> n -> (In m (activeSessions this') <-> In m (activeSessions this)))
    /\ (toolServerMap this' = toolServerMap this
        /\ maxToolTimeout this' = maxToolTimeout this
        /\ mcpServers_prototype this' = mcpServers_prototype this)
    /\ JsObject.get (servers_or_empty this') n = None
    /\ (exists names, getServerNames this' e = (Normal names, this', e)
                      /\ ~ In n names
                      /\ (forall m, m <> n ->
                            (In m names <-> In m (JsObject.keys (servers_or_empty this)))))
    /\ (forall m, m <> n ->
          JsObject.get (servers_or_empty this') m = JsObject.get (servers_or_empty this) m)
    /\ (mcpServers_prototype this = None ->
        exists ex, createSession n this' e = (Throw ex, this', e))
    /\ (forall c, JsMap.get (sessions this) n = Some c ->
          exists this'',
            closeSession n this' e
            = (Normal tt, this'',
               mkEnv (snd (sdk_close c (world e))) (calls e ++ [ev_close c])%list)
            /\ JsMap.get (sessions this'') n = None).
Proof.
  intros Hr. apply reachable_consistent in Hr.
  exists (removed n this).
  assert (Hcfg : ~ In n (Assoc.keys (servers_or_empty (removed n this)))).
  { rewrite configured_removed. tauto. }
  assert (Hget : JsObject.get (servers_or_empty (removed n this)) n = None)
    by now apply AssocFacts.get_None_not_In.
  split; [apply removeServer_eq|].
  split; [apply sessions_removed|].
  split; [apply activeSessions_removed|].
  split.
  { rewrite activeSessions_removed.
    apply JsArrayFacts.remove_first_NoDup_not_In. exact (active_NoDup Hr). }
  split.
  { intros m Hm. rewrite activeSessions_removed. split.
    - apply JsArrayFacts.In_remove_first.
    - now apply JsArrayFacts.In_remove_first_other. }
  split.
  { rewrite prototype_removed. unfold removed.
    destruct (mcpServers (config this)) as [o|]; [|auto].
    destruct (JsObject.get o n); auto. }
  split; [exact Hget|].
  split.
  { exists (JsObject.keys (servers_or_empty (removed n this))).
    split; [reflexivity|]. split; [now rewrite JsObjectFacts.In_keys|].
    intros m Hm. rewrite !JsObjectFacts.In_keys, configured_removed. tauto. }
  split.
  { intros m Hm. unfold removed, servers_or_empty. simpl.
    destruct (mcpServers (config this)) as [o|] eqn:Eo; simpl; [|now rewrite Eo].
    destruct (JsObject.get o n) eqn:En; simpl; [|now rewrite Eo].
    apply AssocFacts.get_delete_other. congruence. }
  split.
  { intros Hp. rewrite <- prototype_removed with (n := n) in Hp.
    revert Hget Hp. generalize (removed n this). intros s Hget Hp.
    unfold createSession, bind, gets, throw, servers_or_empty in *.
    destruct (mcpServers (config s)) as [o|]; [|eauto].
    destruct (List.length (JsObject.keys o) =? 0)%nat; [eauto|].
    rewrite Hp. unfold read_server. rewrite Hget.
    destruct (JsObject.inherits n); simpl; eauto. }
  intros c Hc. rewrite closeSession_eq, sessions_removed, Hc.
  exists (closed n (removed n this)). split; [reflexivity|].
  unfold closed. simpl. apply AssocFacts.get_delete_same.
Qed.

End Closing.

Lemma reachable_after (sc : Demo.Scenario) (c : MCPConfig) (cs : list Call) :
  reachable (fst (Demo.after sc c cs)).
Proof.
  unfold Demo.after. apply reachable_run. apply reachable_fresh. exact 0.
Qed.

(** The registry is consistent after a creation, a removal and a
    re-creation. *)
Lemma consistent_after_recreation :
  let cs := [call_createAllSessions; call_removeServer "a";
             call_addServer "a" (Demo.stdio "srv-a"); call_createSession "a"] in
  activeSessions (fst (Demo.after Demo.quiet Demo.two_servers cs)) = ["b"; "a"]
  /\ consistent (fst (Demo.after Demo.quiet Demo.two_servers cs)).
Proof.
  split; [reflexivity|].
  apply (@reachable_consistent (Demo.runtime Demo.quiet)).
  apply reachable_after.
Defined.

(** Server [a] throws from [close]; [closeSession "a"] still returns
    normally and forgets the session. *)
Lemma closeSession_despite_failing_close :
  let sc := Demo.stubborn in
  let this := fst (Demo.after sc Demo.two_servers
                     [call_createSession "a"; call_createSession "b"]) in
  let e := snd (Demo.after sc Demo.two_servers
                  [call_createSession "a"; call_createSession "b"]) in
  sdk_close (Sdk := Demo.runtime sc) "a" (world e) = (Throw (Error "Not connected"), 3)
  /\ exists this',
       closeSession "a" this e
       = (Normal tt, this',
          mkEnv (snd (sdk_close (Sdk := Demo.runtime sc) "a" (world e)))
                (calls e ++ [ev_close (sdk := Demo.runtime sc) "a"])%list)
       /\ JsMap.get (sessions this') "a" = None
       /\ ~ In "a" (activeSessions this')
       /\ config this' = config this
       /\ forall m, m <> "a" ->
            JsMap.get (sessions this') m = JsMap.get (sessions this) m
            /\ (In m (activeSessions this') <-> In m (activeSessions this)).
Proof.
  split; [reflexivity|].
  exact (@closeSession_cleans_up (Demo.runtime Demo.stubborn) "a" _ _
           (reachable_after Demo.stubborn Demo.two_servers
              [call_createSession "a"; call_createSession "b"])).
Defined.

(** Both sessions are dropped although the first one fails to close. *)
Lemma closeAllSessions_despite_failing_close :
  let sc := Demo.stubborn in
  let this := fst (Demo.after sc Demo.two_servers [call_createAllSessions]) in
  let e := snd (Demo.after sc Demo.two_servers [call_createAllSessions]) in
  sessions this = [("a", "a"); ("b", "b")]
  /\ exists this' e',
       closeAllSessions this e = (Normal tt, this', e')
       /\ sessions this' = JsMap.empty
       /\ activeSessions this' = [].
Proof.
  split; [reflexivity|].
  exact (@closeAllSessions_empties_registry (Demo.runtime Demo.stubborn) _ _
           (reachable_after Demo.stubborn Demo.two_servers [call_createAllSessions])).
Defined.

(** Two servers are active; [a] is removed: [b] stays active and
    configured, both sessions stay, and the session of [a] can still be
    closed. *)
Lemma removeServer_then_closeSession :
  let sc := Demo.quiet in
  let this := fst (Demo.after sc Demo.two_servers [call_createAllSessions]) in
  let e := snd (Demo.after sc Demo.two_servers [call_createAllSessions]) in
  (activeSessions this = ["a"; "b"]
   /\ activeSessions (snd (fst (removeServer "a" this e))) = ["b"]
   /\ sessions (snd (fst (removeServer "a" this e))) = [("a", "a"); ("b", "b")]
   /\ getServerNames (snd (fst (removeServer "a" this e))) e
      = (Normal ["b"], snd (fst (removeServer "a" this e)), e))
  /\ exists this',
       removeServer "a" this e = (Normal tt, this', e)
       /\ sessions this' = sessions this
       /\ activeSessions this' = JsArray.remove_first (activeSessions this) "a"
       /\ ~ In "a" (activeSessions this')
       /\ (forall m, m <> "a" ->
             (In m (activeSessions this') <-> In m (activeSessions this)))
       /\ (toolServerMap this' = toolServerMap this
           /\ maxToolTimeout this' = maxToolTimeout this
           /\ mcpServers_prototype this' = mcpServers_prototype this)
       /\ JsObject.get (servers_or_empty this') "a" = None
       /\ (exists names, getServerNames this' e = (Normal names, this', e)
                         /\ ~ In "a" names
                         /\ (forall m, m <> "a" ->
                               (In m names <-> In m (JsObject.keys (servers_or_empty this)))))
       /\ (forall m, m <> "a" ->
             JsObject.get (servers_or_empty this') m
             = JsObject.get (servers_or_empty this) m)
       /\ (mcpServers_prototype this = None ->
           exists ex, createSession "a" this' e = (Throw ex, this', e))
       /\ (forall c, JsMap.get (sessions this) "a" = Some c ->
             exists this'',
               closeSession "a" this' e
               = (Normal tt, this'',
                  mkEnv (snd (sdk_close c (world e))) (calls e ++ [ev_close c])%list)
               /\ JsMap.get (sessions this'') "a" = None).
Proof.
  split; [repeat split; reflexivity|].
  exact (@removeServer_keeps_session (Demo.runtime Demo.quiet) "a" _ _
           (reachable_after Demo.quiet _ [call_createAllSessions])).
Defined.

(* ================================================================== *)
(** ** Creating the sessions of every configured server                *)
(* ================================================================== *)

Section Bulk.

Context {sdk : Sdk}.

Lemma for_of_app {X : Type} (l1 l2 : list X) (body : X -> M unit) this e :
  for_of (l1 ++ l2) body this e
  = bind (for_of l1 body) (fun _ => for_of l2 body) this e.
Proof.
  revert this e. induction l1 as [|x r IH]; intros this e; simpl.
  - reflexivity.
  - unfold bind.
    destruct (body x this e) as [[[u|ex] this1] e1]; [|reflexivity].
    rewrite IH. reflexivity.
Qed.

Lemma get_created_same (n : string) (c : Client) this :
  JsMap.get (sessions (created n c this)) n = Some c
  /\ In n (activeSessions (created n c this)).
Proof.
  unfold created. simpl.
  destruct (JsArray.includes (activeSessions this) n) eqn:E; simpl.
  - split; [apply AssocFacts.get_set_same | now apply JsArrayFacts.includes_In].
  - split; [apply AssocFacts.get_set_same|]. apply JsArrayFacts.In_push. now right.
Qed.

Lemma created_grows (n : string) (c : Client) this :
  config (created n c this) = config this
  /\ toolServerMap (created n c this) = toolServerMap this
  /\ (forall m, In m (activeSessions this) -> In m (activeSessions (created n c this)))
  /\ (forall m, In m (JsMap.keys (sessions this)) ->
                In m (JsMap.keys (sessions (created n c this)))).
Proof.
  unfold created. simpl.
  destruct (JsArray.includes (activeSessions this) n) eqn:E; simpl.
  - repeat split; auto. intros m Hm. apply AssocFacts.In_keys_set. now right.
  - repeat split; auto.
    + intros m Hm. apply JsArrayFacts.In_push. now left.
    + intros m Hm. apply AssocFacts.In_keys_set. now right.
Qed.

(** What one [createSession] can do to the object and to the call record. *)
Lemma createSession_grows (n : string) this e r this' e' :
  createSession n this e = (r, this', e') ->
  config this' = config this
  /\ toolServerMap this' = toolServerMap this
  /\ (forall m, In m (activeSessions this) -> In m (activeSessions this'))
  /\ (forall m, In m (JsMap.keys (sessions this)) -> In m (JsMap.keys (sessions this')))
  /\ (forall c, r = Normal c ->
        In n (activeSessions this') /\ In n (JsMap.keys (sessions this')))
  /\ exists evs, calls e' = (calls e ++ evs)%list
                 /\ Forall is_connect evs /\ (List.length evs <= 1)%nat.
Proof.
  intros H. apply createSession_inv in H.
  destruct H as [(ex & -> & -> & He)|(c & o & cfg & t & -> & Ho & Hcfg & Ht & Hc & Hev & ->)].
  - repeat split; auto; try discriminate.
    destruct He as [->|(t & w1 & ->)].
    + exists []. rewrite app_nil_r. repeat split; [constructor | simpl; lia].
    + exists [ev_connect n "1.0.0" t]. repeat split; [|simpl; lia].
      constructor; [exact Logic.I | constructor].
  - destruct (created_grows n c this) as (H1 & H2 & H3 & H4).
    destruct (get_created_same n c this) as [H5 H6].
    repeat split; auto.
    + eapply AssocFacts.get_Some_In_keys. exact H5.
    + exists [ev_connect n "1.0.0" t]. repeat split; [assumption | | simpl; lia].
      constructor; [exact Logic.I | constructor].
Qed.

(** What the creation loop can do, and what it has done when it
    completes normally. *)
Lemma create_each_grows (names : list string) :
  forall this e r this' e',
    create_each names this e = (r, this', e') ->
    config this' = config this
    /\ toolServerMap this' = toolServerMap this
    /\ (forall m, In m (activeSessions this) -> In m (activeSessions this'))
    /\ (forall m, In m (JsMap.keys (sessions this)) -> In m (JsMap.keys (sessions this')))
    /\ (r = Normal tt ->
        forall m, In m names ->
          In m (activeSessions this') /\ In m (JsMap.keys (sessions this')))
    /\ exists evs, calls e' = (calls e ++ evs)%list
                   /\ Forall is_connect evs
                   /\ (List.length evs <= List.length names)%nat.
Proof.
  unfold create_each.
  induction names as [|n rest IH]; intros this e r this' e' H; simpl in H.
  - inversion H; subst. repeat apply conj; auto.
    + intros _ m [].
    + exists []. rewrite app_nil_r. repeat apply conj; [reflexivity | constructor | simpl; lia].
  - unfold bind at 1 in H. unfold bind at 1 in H.
    destruct (createSession n this e) as [[[c|ex] this1] e1] eqn:Ec.
    + apply createSession_grows in Ec.
      destruct Ec as (C1 & C2 & C3 & C4 & C5 & evs1 & C6 & C7 & C8).
      unfold ret in H. apply IH in H.
      destruct H as (H1 & H2 & H3 & H4 & H5 & evs2 & H6 & H7 & H8).
      destruct (C5 c eq_refl) as [C5a C5b].
      repeat apply conj; try congruence; auto.
      * intros Hr m [<-|Hm]; [split; auto | now apply H5].
      * exists (evs1 ++ evs2)%list. rewrite H6, C6, app_assoc.
        repeat apply conj;
          [reflexivity | now apply Forall_app | rewrite length_app; simpl; lia].
    + inversion H; subst. apply createSession_grows in Ec.
      destruct Ec as (C1 & C2 & C3 & C4 & C5 & evs1 & C6 & C7 & C8).
      repeat apply conj; auto; try discriminate.
      exists evs1. repeat apply conj; auto. simpl. lia.
Qed.

Lemma getToolServerMap_readonly this e r this' e' :
  getToolServerMap this e = (r, this', e') -> this' = this.
Proof.
  apply stable_readonly. intros I. apply getToolServerMap_stable.
Qed.

(** How [createAllSessions] completes normally: every creation went
    through, then the index was rebuilt and stored. *)
Lemma createAllSessions_normal this e m this' e' :
  createAllSessions this e = (Normal m, this', e') ->
  exists o this1 e1 idx,
    mcpServers (config this) = Some o
    /\ create_each (JsObject.keys o) this e = (Normal tt, this1, e1)
    /\ getToolServerMap this1 e1 = (Normal idx, this1, e')
    /\ this' = set_toolServerMap idx this1
    /\ m = sessions this1.
Proof.
  unfold createAllSessions. unfold bind at 1. unfold gets at 1.
  destruct (mcpServers (config this)) as [o|]; [|discriminate].
  destruct (List.length (JsObject.keys o) =? 0)%nat; [discriminate|].
  unfold bind at 1. fold (create_each (JsObject.keys o)).
  destruct (create_each (JsObject.keys o) this e) as [[[[]|ex] this1] e1] eqn:E1;
    [|discriminate].
  unfold bind at 1.
  destruct (getToolServerMap this1 e1) as [[[idx|ex] this2] e2] eqn:E2; [|discriminate].
  pose proof (getToolServerMap_readonly _ _ E2) as ->.
  unfold bind, modify, gets. intros H. inversion H; subst.
  exists o, this1, e1, idx. repeat apply conj; auto.
Qed.

(** How [createAllSessions] fails in its creation loop. *)
Lemma createAllSessions_aborts this e o pre n post this1 e1 ex this2 e2 :
  mcpServers (config this) = Some o ->
  JsObject.keys o = (pre ++ n :: post)%list ->
  create_each pre this e = (Normal tt, this1, e1) ->
  createSession n this1 e1 = (Throw ex, this2, e2) ->
  createAllSessions this e = (Throw ex, this1, e2).
Proof.
  intros Ho Hk Hpre Hn.
  assert (this2 = this1) as ->.
  { apply createSession_inv in Hn.
    destruct Hn as [(? & _ & -> & _)|(c & ? & ? & ? & Hc & _)]; [reflexivity | discriminate]. }
  unfold createAllSessions. unfold bind at 1. unfold gets at 1. rewrite Ho, Hk.
  replace (List.length (pre ++ n :: post) =? 0)%nat with false
    by (symmetry; apply Nat.eqb_neq; rewrite length_app; simpl; lia).
  unfold bind at 1. rewrite for_of_app. unfold bind at 1.
  fold (create_each pre). rewrite Hpre. simpl.
  unfold bind at 1. unfold bind at 1. now rewrite Hn.
Qed.

(** C4: with no servers configured (the [mcpServers] field absent,
    or without keys) [createAllSessions] throws the no-servers error, which
    the specification calls NotFoundError, and changes neither the object
    nor the call record.  When the creations for a prefix [pre] of the
    configured names went through and the next one throws, that exception
    is the result; no later name is attempted (the calls added are
    connection attempts, at most one per name of [pre] and one more);
    every name of [pre] is in [activeSessions] with its session in
    [sessions]; no [close] call was made; the tool index is as before. *)
Theorem createAllSessions_failures (this : MCPClient) (e : Env) :
  (JsObject.keys (servers_or_empty this) = [] ->
   createAllSessions this e = (Throw (Error msg_no_servers), this, e)
   /\ error_kind (Error msg_no_servers) = NotFoundError)
  /\ (forall o pre n post this1 e1 ex this2 e2,
        mcpServers (config this) = Some o ->
        JsObject.keys o = (pre ++ n :: post)%list ->
        create_each pre this e = (Normal tt, this1, e1) ->
        createSession n this1 e1 = (Throw ex, this2, e2) ->
        createAllSessions this e = (Throw ex, this1, e2)
        /\ (forall m, In m pre ->
              In m (activeSessions this1)
              /\ exists c, JsMap.get (sessions this1) m = Some c)
        /\ toolServerMap this1 = toolServerMap this
        /\ exists evs, calls e2 = (calls e ++ evs)%list
                       /\ Forall is_connect evs
                       /\ (List.length evs <= S (List.length pre))%nat).
Proof.
  split.
  - intros Hk. split; [|reflexivity].
    unfold createAllSessions, bind, gets, throw. unfold servers_or_empty in Hk.
    destruct (mcpServers (config this)) as [o|]; [|reflexivity].
    now rewrite Hk.
  - intros o pre n post this1 e1 ex this2 e2 Ho Hk Hpre Hn.
    split; [eapply createAllSessions_aborts; eassumption|].
    apply create_each_grows in Hpre.
    destruct Hpre as (H1 & H2 & H3 & H4 & H5 & evs1 & H6 & H7 & H8).
    apply createSession_grows in Hn.
    destruct Hn as (_ & _ & _ & _ & _ & evs2 & C6 & C7 & C8).
    split; [|split; [assumption|]].
    + intros m Hm. destruct (H5 eq_refl m Hm) as [Ha Hs].
      split; [assumption | now apply AssocFacts.In_keys_get].
    + exists (evs1 ++ evs2)%list. rewrite C6, H6, app_assoc.
      repeat apply conj; [reflexivity | now apply Forall_app | rewrite length_app; lia].
Qed.

End Bulk.

(** The third server is never tried after the second one refuses; the
    first session stays. *)
Lemma createAllSessions_second_server_down :
  let sc := Demo.b_down in
  let this := fresh (sdk := Demo.runtime sc) Demo.three_servers in
  let this1 := created (sdk := Demo.runtime sc) "a" "a" this in
  let ex := McpError (-32000) "Connection closed" in
  let t := fun cmd : string => StdioClientTransport (URL := string) cmd [] None in
  createAllSessions this (Demo.start sc)
  = (Throw ex, this1,
     mkEnv (sdk := Demo.runtime sc) 2
           [ev_connect (sdk := Demo.runtime sc) "a" "1.0.0" (t "srv-a");
            ev_connect (sdk := Demo.runtime sc) "b" "1.0.0" (t "srv-b")])
  /\ sessions this1 = [("a", "a")] /\ activeSessions this1 = ["a"]
  /\ createAllSessions (fresh (sdk := Demo.runtime sc) (mkConfig (Some [])))
                       (Demo.start sc)
     = (Throw (Error msg_no_servers), fresh (mkConfig (Some [])), Demo.start sc)
  /\ createAllSessions (fresh (sdk := Demo.runtime sc) (mkConfig None)) (Demo.start sc)
     = (Throw (Error msg_no_servers), fresh (mkConfig None), Demo.start sc).
Proof.
  pose (sc := Demo.b_down).
  pose (this := fresh (sdk := Demo.runtime sc) Demo.three_servers).
  split.
  - apply (proj2 (@createAllSessions_failures (Demo.runtime sc) this (Demo.start sc))
             [("a", Demo.stdio "srv-a"); ("b", Demo.stdio "srv-b"); ("c", Demo.stdio "srv-c")]
             ["a"] "b" ["c"] _ _ _ _ _ eq_refl eq_refl eq_refl eq_refl).
  - split; [reflexivity|]. split; [reflexivity|]. split.
    + apply (proj1 (@createAllSessions_failures (Demo.runtime sc)
                      (fresh (mkConfig (Some []))) (Demo.start sc)) eq_refl).
    + apply (proj1 (@createAllSessions_failures (Demo.runtime sc)
                      (fresh (mkConfig None)) (Demo.start sc)) eq_refl).
Defined.

(* ================================================================== *)
(** ** The active sessions after a successful bulk creation            *)
(* ================================================================== *)

Section Active.

Context {sdk : Sdk}.

Lemma getAllActiveSessions_eq this e :
  getAllActiveSessions this e
  = (Normal (fold_left (collect (sessions this)) (activeSessions this) JsMap.empty),
     this, e).
Proof. reflexivity. Qed.

Lemma In_keys_collected (ss : JsMap.t Client) (l : list string) (n : string) :
  forall acc,
    In n (JsMap.keys (fold_left (collect ss) l acc))
    <-> In n (JsMap.keys acc) \/ (In n l /\ In n (JsMap.keys ss)).
Proof.
  induction l as [|x r IH]; intros acc; simpl; [tauto|].
  rewrite IH. unfold collect.
  destruct (JsMap.get ss x) as [c|] eqn:Ex.
  - pose proof (AssocFacts.get_Some_In_keys _ _ Ex) as Hx.
    unfold JsMap.keys, JsMap.set. rewrite AssocFacts.In_keys_set.
    split; [intros [[->|H]|H]; tauto | intros [H|[[->|H] H']]; tauto].
  - apply AssocFacts.get_None_not_In in Ex.
    split; [tauto|]. intros [H|[[->|H] H']]; tauto.
Qed.

Lemma get_collected_kept (ss : JsMap.t Client) (l : list string) (n : string) (c : Client) :
  JsMap.get ss n = Some c ->
  forall acc, JsMap.get acc n = Some c ->
              JsMap.get (fold_left (collect ss) l acc) n = Some c.
Proof.
  intros Hn. induction l as [|x r IH]; intros acc Hacc; simpl; [assumption|].
  apply IH. unfold collect. destruct (JsMap.get ss x) as [cx|] eqn:Ex; [|assumption].
  destruct (String.eqb_spec x n) as [->|Hne].
  - rewrite Hn in Ex. inversion Ex; subst. apply AssocFacts.get_set_same.
  - unfold JsMap.get, JsMap.set. now rewrite AssocFacts.get_set_other.
Qed.

Lemma get_collected (ss : JsMap.t Client) (l : list string) (n : string) (c : Client) :
  JsMap.get ss n = Some c -> In n l ->
  forall acc, JsMap.get (fold_left (collect ss) l acc) n = Some c.
Proof.
  intros Hn. induction l as [|x r IH]; intros Hin acc; simpl; [destruct Hin|].
  destruct (String.eqb_spec x n) as [->|Hne].
  - apply get_collected_kept; [assumption|].
    unfold collect. rewrite Hn. apply AssocFacts.get_set_same.
  - apply IH. destruct Hin; [congruence | assumption].
Qed.

(** X21: on a reachable object whose configuration object still has
    the prototype it was built with (no server was added under the name
    [__proto__]), when [createAllSessions] completes normally,
    [getAllActiveSessions] returns a map whose keys are exactly the names
    [getServerNames] lists, each bound to the session stored for it; the
    map [createAllSessions] returned is the session map. *)
Theorem createAllSessions_activates_configured
  (this : MCPClient) (e : Env) (m : JsMap.t Client) (this' : MCPClient) (e' : Env) :
  reachable this ->
  mcpServers_prototype this = None ->
  createAllSessions this e = (Normal m, this', e') ->
  exists act names,
    getAllActiveSessions this' e' = (Normal act, this', e')
    /\ getServerNames this' e' = (Normal names, this', e')
    /\ (forall n, In n (JsMap.keys act) <-> In n names)
    /\ (forall n, In n names ->
          exists c, JsMap.get act n = Some c /\ JsMap.get (sessions this') n = Some c)
    /\ m = sessions this'.
Proof.
  intros Hr Hp Hrun.
  assert (Hc : consistent this').
  { eapply createAllSessions_consistent; [exact Hrun|]. now apply reachable_consistent. }
  assert (Hp' : original_prototype this').
  { right. eapply createAllSessions_prototype; [exact Hrun | exact Hp]. }
  apply createAllSessions_normal in Hrun.
  destruct Hrun as (o & this1 & e1 & idx & Ho & Hloop & _ & -> & ->).
  apply create_each_grows in Hloop.
  destruct Hloop as (Hcfg & _ & _ & _ & Hall & _).
  specialize (Hall eq_refl).
  assert (Hnames : servers_or_empty (set_toolServerMap idx this1) = o).
  { unfold servers_or_empty. simpl. now rewrite Hcfg, Ho. }
  exists (fold_left (collect (sessions this1)) (activeSessions this1) JsMap.empty),
         (JsObject.keys o).
  split; [reflexivity|]. split; [unfold getServerNames, gets; now rewrite Hnames|].
  split; [|split; [|reflexivity]].
  - intros n. rewrite In_keys_collected. simpl. split.
    + intros [[]|[Ha _]]. apply JsObjectFacts.In_keys.
      rewrite <- Hnames. now apply (active_is_configured Hc Hp').
    + intros Hn. right. now apply Hall.
  - intros n Hn. destruct (Hall n Hn) as [Ha Hs].
    apply AssocFacts.In_keys_get in Hs. destruct Hs as [c Hs].
    exists c. split; [|exact Hs]. now apply get_collected.
Qed.

End Active.

(** Both configured servers connect; both are active afterwards. *)
Lemma createAllSessions_two_servers :
  let sc := Demo.two_catalogs in
  let this := fresh (sdk := Demo.runtime sc) Demo.two_servers in
  let this' := fst (Demo.after sc Demo.two_servers [call_createAllSessions]) in
  let e' := snd (Demo.after sc Demo.two_servers [call_createAllSessions]) in
  (mcpServers_prototype this = None
   /\ createAllSessions this (Demo.start sc) = (Normal [("a", "a"); ("b", "b")], this', e'))
  /\ exists act names,
       getAllActiveSessions this' e' = (Normal act, this', e')
       /\ getServerNames this' e' = (Normal names, this', e')
       /\ (forall n, In n (JsMap.keys act) <-> In n names)
       /\ (forall n, In n names ->
             exists c, JsMap.get act n = Some c /\ JsMap.get (sessions this') n = Some c)
       /\ [("a", "a"); ("b", "b")] = sessions this'.
Proof.
  split; [split; reflexivity|].
  apply (@createAllSessions_activates_configured (Demo.runtime Demo.two_catalogs)
           (fresh Demo.two_servers) (Demo.start Demo.two_catalogs)).
  - apply reachable_fresh. exact 0.
  - reflexivity.
  - reflexivity.
Defined.

(* ================================================================== *)
(** ** The tool index                                                  *)
(* ================================================================== *)

Section ToolIndex.

Context {sdk : Sdk}.

Lemma get_record_tools (s : string) (tools : list Tool) (t : string) :
  forall m, JsMap.get (record_tools s tools m) t
            = if reports tools t then Some s else JsMap.get m t.
Proof.
  unfold record_tools.
  induction tools as [|tool r IH]; intros m; simpl; [reflexivity|].
  rewrite IH. destruct (reports r t); [now rewrite orb_true_r|].
  rewrite orb_false_r. destruct (String.eqb_spec (tool_name tool) t) as [<-|Hne].
  - apply AssocFacts.get_set_same.
  - now apply AssocFacts.get_set_other.
Qed.

Lemma get_index_of (catalogs : list (string * list Tool)) (t : string) :
  forall acc, JsMap.get (index_of catalogs acc) t
              = match last_reporter catalogs t with
                | Some s => Some s
                | None => JsMap.get acc t
                end.
Proof.
  unfold index_of.
  induction catalogs as [|[s tools] r IH]; intros acc; simpl; [reflexivity|].
  rewrite IH. destruct (last_reporter r t); [reflexivity|].
  rewrite get_record_tools. now destruct (reports tools t).
Qed.

(** The scan is its catalog queries followed by the pure construction
    of the index. *)
Lemma scan_sessions_eq (entries : list (string * Client)) :
  forall acc this e,
    scan_sessions entries acc this e
    = match query_catalogs entries this e with
      | (Normal catalogs, this', e') => (Normal (index_of catalogs acc), this', e')
      | (Throw ex, this', e') => (Throw ex, this', e')
      end.
Proof.
  induction entries as [|[s c] r IH]; intros acc this e; simpl; [reflexivity|].
  unfold bind at 1 2. unfold await.
  destruct (sdk_listTools c (world e)) as [[tools|ex] w1]; [|reflexivity].
  rewrite IH. unfold bind.
  destruct (query_catalogs r this _) as [[[cats|ex] this1] e1]; reflexivity.
Qed.

Lemma query_catalogs_names (entries : list (string * Client)) :
  forall this e catalogs this' e',
    query_catalogs entries this e = (Normal catalogs, this', e') ->
    map fst catalogs = map fst entries.
Proof.
  induction entries as [|[s c] r IH]; intros this e catalogs this' e' H; simpl in H.
  - inversion H. reflexivity.
  - unfold bind at 1 in H. unfold await in H.
    destruct (sdk_listTools c (world e)) as [[tools|ex] w1]; [|discriminate].
    unfold bind in H.
    destruct (query_catalogs r this _) as [[[cats|ex] this1] e1] eqn:E; [|discriminate].
    inversion H; subst. simpl. f_equal. eapply IH. exact E.
Qed.

Lemma last_reporter_None (catalogs : list (string * list Tool)) (t : string) :
  last_reporter catalogs t = None
  <-> Forall (fun c => reports (snd c) t = false) catalogs.
Proof.
  induction catalogs as [|[s0 tools0] r IH]; simpl.
  - split; [constructor | reflexivity].
  - destruct (last_reporter r t) as [s1|].
    + split; [discriminate|]. intros H. inversion H; subst.
      assert (H' : Some s1 = None) by now apply IH. discriminate.
    + destruct (reports tools0 t) eqn:Er.
      * split; [discriminate|]. intros H. inversion H; subst. simpl in *. congruence.
      * split; [|reflexivity]. intros _. constructor; [exact Er | now apply IH].
Qed.

(** The winner of a tool name is preceded by anything and followed only
    by servers that do not report the name. *)
Lemma last_reporter_Some (catalogs : list (string * list Tool)) (t s : string) :
  last_reporter catalogs t = Some s
  <-> exists pre tools post,
        catalogs = (pre ++ (s, tools) :: post)%list
        /\ reports tools t = true
        /\ Forall (fun c => reports (snd c) t = false) post.
Proof.
  induction catalogs as [|[s0 tools0] r IH]; simpl.
  - split; [discriminate|]. intros (pre & tools & post & H & _). now destruct pre.
  - destruct (last_reporter r t) as [s1|] eqn:E.
    + split.
      * intros H. inversion H; subst s1.
        destruct (proj1 IH eq_refl) as (pre & tools & post & -> & Hr & Hp).
        exists ((s0, tools0) :: pre), tools, post. auto.
      * intros (pre & tools & post & Hc & Hr & Hp).
        destruct pre as [|p pre]; simpl in Hc; inversion Hc; subst.
        -- apply last_reporter_None in Hp. congruence.
        -- apply IH. exists pre, tools, post. auto.
    + destruct (reports tools0 t) eqn:Er.
      * split.
        -- intros H. inversion H; subst. exists [], tools0, r.
           repeat apply conj; auto. now apply last_reporter_None.
        -- intros (pre & tools & post & Hc & Hr & Hp).
           destruct pre as [|p pre]; simpl in Hc; inversion Hc; subst; [reflexivity|].
           assert (H : None = Some s) by (apply IH; exists pre, tools, post; auto).
           discriminate.
      * split; [discriminate|].
        intros (pre & tools & post & Hc & Hr & Hp).
        destruct pre as [|p pre]; simpl in Hc; inversion Hc; subst; [congruence|].
        assert (H : None = Some s) by (apply IH; exists pre, tools, post; auto).
        discriminate.
Qed.

(** C1, as amended: the rebuild queries the tool catalog of every
    entry of the [sessions] map, in the order of that map (insertion
    order), active or not, and records tool name to server name.  If any
    query throws, so does the rebuild.  Otherwise a tool name is bound in
    the index exactly when some scanned server reports it, and then to one
    server, the last of the scan that reports it.  The object is not
    changed by the scan; [createAllSessions] stores the index that the scan
    returned after the creations. *)
Theorem getToolServerMap_last_scanned_wins (this : MCPClient) (e : Env) :
  match query_catalogs (JsMap.entries (sessions this)) this e with
  | (Normal catalogs, _, e') =>
      exists idx,
        getToolServerMap this e = (Normal idx, this, e')
        /\ map fst catalogs = JsMap.keys (sessions this)
        /\ (forall t, JsMap.get idx t = last_reporter catalogs t)
        /\ (forall t s,
              JsMap.get idx t = Some s
              <-> exists pre tools post,
                    catalogs = (pre ++ (s, tools) :: post)%list
                    /\ reports tools t = true
                    /\ Forall (fun c => reports (snd c) t = false) post)
  | (Throw ex, _, e') => getToolServerMap this e = (Throw ex, this, e')
  end
  /\ (forall m this' e',
        createAllSessions this e = (Normal m, this', e') ->
        exists this1 e1,
          create_each (JsObject.keys (servers_or_empty this)) this e = (Normal tt, this1, e1)
          /\ getToolServerMap this1 e1 = (Normal (toolServerMap this'), this1, e')
          /\ this' = set_toolServerMap (toolServerMap this') this1).
Proof.
  split.
  - unfold getToolServerMap, bind, gets. rewrite scan_sessions_eq.
    destruct (query_catalogs (JsMap.entries (sessions this)) this e)
      as [[[catalogs|ex] this1] e1] eqn:E.
    + assert (this1 = this) as ->.
      { eapply stable_readonly; [|exact E]. intros I. apply query_catalogs_stable. }
      exists (index_of catalogs JsMap.empty).
      assert (Hget : forall t, JsMap.get (index_of catalogs JsMap.empty) t
                               = last_reporter catalogs t).
      { intros t. rewrite get_index_of. now destruct (last_reporter catalogs t). }
      repeat apply conj.
      * reflexivity.
      * eapply query_catalogs_names. exact E.
      * exact Hget.
      * intros t s. rewrite Hget. apply last_reporter_Some.
    + assert (this1 = this) as ->.
      { eapply stable_readonly; [|exact E]. intros I. apply query_catalogs_stable. }
      reflexivity.
  - intros m this' e' H. apply createAllSessions_normal in H.
    destruct H as (o & this1 & e1 & idx & Ho & Hloop & Hscan & -> & _).
    exists this1, e1. unfold servers_or_empty. rewrite Ho. simpl. auto.
Qed.

End ToolIndex.

(** C1, as stated, fails: a session whose server was removed from
    the configuration is no longer active, yet the rebuild scans it; the
    index binds its tool [x], which a rebuild over [activeSessions] would
    leave out. *)
Lemma getToolServerMap_scans_inactive_session :
  let sc := Demo.two_catalogs in
  let cs := [call_createSession "a"; call_removeServer "a"; call_createAllSessions] in
  let this := fst (Demo.after sc Demo.two_servers cs) in
  let e := snd (Demo.after sc Demo.two_servers cs) in
  activeSessions this = ["b"]
  /\ JsMap.keys (sessions this) = ["a"; "b"]
  /\ toolServerMap this = [("x", "a"); ("shared", "b"); ("y", "b")]
  /\ fst (fst (getToolServerMap this e)) = Normal (toolServerMap this)
  /\ fst (fst (rebuild_as_specified this e)) = Normal [("y", "b"); ("shared", "b")]
  /\ JsMap.get (toolServerMap this) "x" = Some "a"
  /\ fst (fst (getToolServerMap this e)) <> fst (fst (rebuild_as_specified this e)).
Proof.
  repeat split; try reflexivity. discriminate.
Qed.

(** The scan follows the order of the session map, not of the active
    list: after [a] is removed, added again and its session re-created,
    the list reads [b; a] but the map still reads [a; b], and [b] wins the
    tool both servers report. *)
Lemma scan_order_is_map_order :
  let sc := Demo.two_catalogs in
  let cs := [call_createAllSessions; call_removeServer "a";
             call_addServer "a" (Demo.stdio "srv-a"); call_createAllSessions] in
  let this := fst (Demo.after sc Demo.two_servers cs) in
  let e := snd (Demo.after sc Demo.two_servers cs) in
  activeSessions this = ["b"; "a"]
  /\ JsMap.keys (sessions this) = ["a"; "b"]
  /\ JsMap.get (toolServerMap this) "shared" = Some "b"
  /\ match fst (fst (rebuild_as_specified this e)) with
     | Normal idx => JsMap.get idx "shared" = Some "a"
     | Throw _ => False
     end.
Proof.
  repeat split; reflexivity.
Qed.

(** The index of two servers that both report the tool [shared]. *)
Lemma getToolServerMap_two_catalogs :
  let sc := Demo.two_catalogs in
  let this := fst (Demo.after sc Demo.two_servers [call_createAllSessions]) in
  let e := snd (Demo.after sc Demo.two_servers [call_createAllSessions]) in
  query_catalogs (JsMap.entries (sessions this)) this e
  = (Normal [("a", [Demo.tool "x"; Demo.tool "shared"]);
             ("b", [Demo.tool "y"; Demo.tool "shared"])],
     this,
     mkEnv (sdk := Demo.runtime sc) 6
           (calls e ++ [ev_listTools (sdk := Demo.runtime sc) "a";
                        ev_listTools (sdk := Demo.runtime sc) "b"])%list)
  /\ JsMap.get (toolServerMap this) "shared" = Some "b"
  /\ exists idx,
       fst (fst (getToolServerMap this e)) = Normal idx
       /\ JsMap.get idx "shared" = Some "b"
       /\ JsMap.get idx "x" = Some "a"
       /\ JsMap.get idx "y" = Some "b"
       /\ JsMap.get idx "z" = None.
Proof.
  split; [reflexivity|]. split; [reflexivity|].
  pose proof (proj1 (@getToolServerMap_last_scanned_wins (Demo.runtime Demo.two_catalogs)
    (fst (Demo.after Demo.two_catalogs Demo.two_servers [call_createAllSessions]))
    (snd (Demo.after Demo.two_catalogs Demo.two_servers [call_createAllSessions])))) as H.
  destruct H as (idx & Hrun & _ & Hget & _).
  exists idx. rewrite Hrun, !Hget. repeat split; reflexivity.
Defined.

(* ================================================================== *)
(** ** Dispatching a tool call                                         *)
(* ================================================================== *)

Section Dispatch.

Context {sdk : Sdk}.

(** [callTool] as one equation. *)
Lemma callTool_eq (name : string) (args : Json) this e :
  callTool name args this e
  = match JsMap.get (toolServerMap this) name with
    | None => (Throw (Error (msg_no_server_for_tool name)), this, e)
    | Some sn =>
        if sn =? "" then (Throw (Error (msg_no_server_for_tool name)), this, e)
        else
          match JsMap.get (sessions this) sn with
          | None => (Throw (Error (msg_no_session_found sn)), this, e)
          | Some c =>
              (fst (sdk_callTool c name args (maxToolTimeout this) (world e)), this,
               mkEnv (snd (sdk_callTool c name args (maxToolTimeout this) (world e)))
                     (calls e ++ [ev_callTool c name args (maxToolTimeout this)]))
          end
    end.
Proof.
  unfold callTool, bind, gets, throw, await.
  destruct (JsMap.get (toolServerMap this) name) as [sn|]; simpl; [|reflexivity].
  destruct (sn =? ""); simpl; [reflexivity|].
  destruct (JsMap.get (sessions this) sn) as [c|]; [|reflexivity].
  now destruct (sdk_callTool c name args (maxToolTimeout this) (world e)).
Qed.

Lemma error_kind_no_server_for_tool (name : string) :
  error_kind (Error (msg_no_server_for_tool name)) = NotFoundError.
Proof. reflexivity. Qed.

Lemma error_kind_no_session_found (sn : string) :
  error_kind (Error (msg_no_session_found sn)) = NotFoundError.
Proof. reflexivity. Qed.

(** X1: dispatch when the index does not hold the empty server name: an
    unknown tool name fails at once, with no SDK call and the object as it
    was; a known one is forwarded to the session of the indexed server
    with the timeout of the object, or fails when that session is gone. *)
Lemma callTool_dispatch (name : string) (args : Json) this e :
  (JsMap.get (toolServerMap this) name = None ->
   callTool name args this e = (Throw (Error (msg_no_server_for_tool name)), this, e)
   /\ error_kind (Error (msg_no_server_for_tool name)) = NotFoundError)
  /\ (forall sn, JsMap.get (toolServerMap this) name = Some sn -> sn <> "" ->
        match JsMap.get (sessions this) sn with
        | Some c =>
            callTool name args this e
            = (fst (sdk_callTool c name args (maxToolTimeout this) (world e)), this,
               mkEnv (snd (sdk_callTool c name args (maxToolTimeout this) (world e)))
                     (calls e ++ [ev_callTool c name args (maxToolTimeout this)]))
        | None =>
            callTool name args this e
            = (Throw (Error (msg_no_session_found sn)), this, e)
            /\ error_kind (Error (msg_no_session_found sn)) = NotFoundError
        end).
Proof.
  rewrite callTool_eq. split.
  - intros ->. split; [reflexivity | apply error_kind_no_server_for_tool].
  - intros sn -> Hne. apply String.eqb_neq in Hne. rewrite Hne.
    destruct (JsMap.get (sessions this) sn); [reflexivity|].
    split; [reflexivity | apply error_kind_no_session_found].
Qed.

(** The default timeout reaches the SDK unless the constructor was
    given a truthy one. *)
Lemma callTool_default_timeout (name : string) (args : Json) this e sn c :
  maxToolTimeout this = 10000%float ->
  JsMap.get (toolServerMap this) name = Some sn -> sn <> "" ->
  JsMap.get (sessions this) sn = Some c ->
  calls (snd (callTool name args this e))
  = (calls e ++ [ev_callTool c name args 10000%float])%list.
Proof.
  intros Ht Hn Hne Hc. rewrite callTool_eq, Hn, Hc, Ht.
  apply String.eqb_neq in Hne. now rewrite Hne.
Qed.

End Dispatch.

(** C3 at its failing input: the one configured server has the
    empty string for its name and reports the tool [x].  After
    [createAllSessions] the index binds [x] to that server, its session is
    in the registry and [listTools] lists [x]; yet [callTool] rejects [x]
    as if it were unknown and never reaches the SDK: the test
    [!serverName] takes the empty name for a missing entry. *)
Lemma callTool_rejects_tool_of_unnamed_server :
  let sc := Demo.unnamed in
  let this := fst (Demo.after sc Demo.unnamed_server [call_createAllSessions]) in
  let e := snd (Demo.after sc Demo.unnamed_server [call_createAllSessions]) in
  JsMap.get (toolServerMap this) "x" = Some ""
  /\ JsMap.get (sessions this) "" = Some ""
  /\ activeSessions this = [""]
  /\ fst (fst (listTools this e)) = Normal [mkToolInfo "x" "" JNull]
  /\ callTool "x" JNull this e = (Throw (Error "No server found for tool 'x'"), this, e).
Proof.
  repeat split; reflexivity.
Qed.

(* ================================================================== *)
(** ** The SDK calls a method makes                                    *)
(* ================================================================== *)

Section Footprint.

Context {sdk : Sdk}.

Variable I : MCPClient -> Prop.
Variable P : Event -> Prop.

(** [I] is about the timeout field only. *)
Hypothesis I_timeout :
  forall this this', I this -> maxToolTimeout this' = maxToolTimeout this -> I this'.

Lemma emits_nothing {A : Type} (m : M A) :
  (forall this e r this' e', m this e = (r, this', e') ->
     maxToolTimeout this' = maxToolTimeout this /\ e' = e) ->
  emits I P m.
Proof.
  intros Hm this e r this' e' H Hi. destruct (Hm _ _ _ _ _ H) as [Ht ->].
  split; [eapply I_timeout; eassumption|].
  exists []. rewrite app_nil_r. split; [reflexivity | constructor].
Qed.

Lemma emits_ret {A : Type} (a : A) : emits I P (ret a).
Proof. apply emits_nothing. intros this e r this' e' H. inversion H. auto. Qed.

Lemma emits_throw {A : Type} (ex : Exn) : emits I P (throw (A := A) ex).
Proof. apply emits_nothing. intros this e r this' e' H. inversion H. auto. Qed.

Lemma emits_gets {A : Type} (f : MCPClient -> A) : emits I P (gets f).
Proof. apply emits_nothing. intros this e r this' e' H. inversion H. auto. Qed.

Lemma emits_lift {A : Type} (c : Completion A) : emits I P (lift c).
Proof. apply emits_nothing. intros this e r this' e' H. inversion H. auto. Qed.

Lemma emits_modify (f : MCPClient -> MCPClient) :
  (forall this, maxToolTimeout (f this) = maxToolTimeout this) ->
  emits I P (modify f).
Proof.
  intros Hf. apply emits_nothing. intros this e r this' e' H. inversion H. auto.
Qed.

Lemma emits_await {A : Type} (ev : Event) (call : World -> Completion A * World) :
  P ev -> emits I P (await ev call).
Proof.
  intros Hev this e r this' e' H Hi. unfold await in H.
  destruct (call (world e)) as [r1 w1]. inversion H; subst. split; [assumption|].
  exists [ev]. split; [reflexivity | now constructor].
Qed.

Lemma emits_bind {A B : Type} (m : M A) (k : A -> M B) :
  emits I P m -> (forall a, emits I P (k a)) -> emits I P (bind m k).
Proof.
  intros Hm Hk this e r this' e' H Hi. unfold bind in H.
  destruct (m this e) as [[[a|ex] this1] e1] eqn:E.
  - destruct (Hm _ _ _ _ _ E Hi) as (Hi1 & evs1 & Hc1 & Hp1).
    destruct (Hk a _ _ _ _ _ H Hi1) as (Hi2 & evs2 & Hc2 & Hp2).
    split; [assumption|]. exists (evs1 ++ evs2)%list.
    rewrite Hc2, Hc1, app_assoc. split; [reflexivity | now apply Forall_app].
  - inversion H; subst. eapply Hm; eassumption.
Qed.

Lemma emits_try_catch {A : Type} (m : M A) (h : Exn -> M A) :
  emits I P m -> (forall ex, emits I P (h ex)) -> emits I P (try_catch m h).
Proof.
  intros Hm Hh this e r this' e' H Hi. unfold try_catch in H.
  destruct (m this e) as [[[a|ex] this1] e1] eqn:E.
  - inversion H; subst. eapply Hm; eassumption.
  - destruct (Hm _ _ _ _ _ E Hi) as (Hi1 & evs1 & Hc1 & Hp1).
    destruct (Hh ex _ _ _ _ _ H Hi1) as (Hi2 & evs2 & Hc2 & Hp2).
    split; [assumption|]. exists (evs1 ++ evs2)%list.
    rewrite Hc2, Hc1, app_assoc. split; [reflexivity | now apply Forall_app].
Qed.

Lemma emits_try_finally {A : Type} (m : M A) (fin : M unit) :
  emits I P m -> emits I P fin -> emits I P (try_finally m fin).
Proof.
  intros Hm Hf this e r this' e' H Hi. unfold try_finally in H.
  destruct (m this e) as [[r1 this1] e1] eqn:E.
  destruct (Hm _ _ _ _ _ E Hi) as (Hi1 & evs1 & Hc1 & Hp1).
  destruct (fin this1 e1) as [[[u|ex] this2] e2] eqn:E2;
    destruct (Hf _ _ _ _ _ E2 Hi1) as (Hi2 & evs2 & Hc2 & Hp2);
    inversion H; subst; (split; [assumption|]);
    exists (evs1 ++ evs2)%list; rewrite Hc2, Hc1, app_assoc;
    (split; [reflexivity | now apply Forall_app]).
Qed.

Lemma emits_for_of {X : Type} (l : list X) (body : X -> M unit) :
  (forall x, emits I P (body x)) -> emits I P (for_of l body).
Proof.
  intros Hb. induction l as [|x r IH]; simpl.
  - apply emits_ret.
  - apply emits_bind; auto.
Qed.

Lemma emits_addServer (n : string) (cfg : MCPServerConfig) : emits I P (addServer n cfg).
Proof. unfold addServer. apply emits_modify. intros this. apply addServer_frame. Qed.

Lemma emits_removeServer (n : string) : emits I P (removeServer n).
Proof.
  apply emits_nothing. intros this e r this' e' H. rewrite removeServer_eq in H.
  inversion H; subst. split; [|reflexivity].
  unfold removed. simpl. destruct (mcpServers (config this)) as [o|]; [|reflexivity].
  destruct (JsObject.get o n); reflexivity.
Qed.

Lemma emits_createSession (n : string) :
  (forall name version t, P (ev_connect name version t)) ->
  emits I P (createSession n).
Proof.
  intros Hp. unfold createSession.
  apply emits_bind; [apply emits_gets | intros [o|]]; [|apply emits_throw].
  destruct (List.length (JsObject.keys o) =? 0)%nat; [apply emits_throw|].
  apply emits_bind; [apply emits_gets | intros v].
  destruct (negb (truthy_value v)); [apply emits_throw|].
  apply emits_bind; [apply emits_lift | intros t].
  apply emits_bind; [apply emits_await; apply Hp | intros c].
  apply emits_bind; [apply emits_modify; reflexivity | intros _].
  apply emits_bind; [|intros _; apply emits_ret].
  apply emits_modify. intros this. simpl.
  now destruct (JsArray.includes (activeSessions this) n).
Qed.

Lemma emits_scan_sessions (entries : list (string * Client)) :
  (forall c, P (ev_listTools c)) ->
  forall acc, emits I P (scan_sessions entries acc).
Proof.
  intros Hp. induction entries as [|[s c] r IH]; intros acc; simpl.
  - apply emits_ret.
  - apply emits_bind; [apply emits_await; apply Hp | intros tools; apply IH].
Qed.

Lemma emits_createAllSessions :
  (forall name version t, P (ev_connect name version t)) ->
  (forall c, P (ev_listTools c)) ->
  emits I P createAllSessions.
Proof.
  intros Hc Hl. unfold createAllSessions.
  apply emits_bind; [apply emits_gets | intros [o|]]; [|apply emits_throw].
  destruct (List.length (JsObject.keys o) =? 0)%nat; [apply emits_throw|].
  apply emits_bind; [|intros _].
  { apply emits_for_of. intros n.
    apply emits_bind; [now apply emits_createSession | intros _; apply emits_ret]. }
  apply emits_bind; [|intros m].
  { unfold getToolServerMap. apply emits_bind; [apply emits_gets | intros entries].
    now apply emits_scan_sessions. }
  apply emits_bind; [apply emits_modify; reflexivity | intros _; apply emits_gets].
Qed.

Lemma emits_closeSession (n : string) :
  (forall c, P (ev_close c)) -> emits I P (closeSession n).
Proof.
  intros Hp. unfold closeSession.
  apply emits_bind; [apply emits_gets | intros [c|]]; [|apply emits_ret].
  apply emits_try_finally.
  - apply emits_try_catch; [apply emits_await; apply Hp | intros ex; apply emits_ret].
  - apply emits_bind; [apply emits_modify; reflexivity | intros _].
    apply emits_modify. reflexivity.
Qed.

Lemma emits_closeAll_loop (names : list string) :
  (forall c, P (ev_close c)) ->
  forall errors, emits I P (closeAll_loop names errors).
Proof.
  intros Hp. induction names as [|n r IH]; intros errors; simpl.
  - apply emits_ret.
  - apply emits_bind; [|intros errors'; apply IH].
    apply emits_try_catch; [|intros ex; apply emits_ret].
    apply emits_bind; [now apply emits_closeSession | intros _; apply emits_ret].
Qed.

Lemma emits_closeAllSessions :
  (forall c, P (ev_close c)) -> emits I P closeAllSessions.
Proof.
  intros Hp. unfold closeAllSessions.
  apply emits_bind; [apply emits_gets | intros names].
  apply emits_bind; [now apply emits_closeAll_loop | intros _; apply emits_ret].
Qed.

Lemma emits_listTools_loop (names : list string) :
  (forall c, P (ev_listTools c)) ->
  forall acc, emits I P (listTools_loop names acc).
Proof.
  intros Hp. induction names as [|n r IH]; intros acc; simpl.
  - apply emits_ret.
  - apply emits_bind; [apply emits_gets | intros [c|]]; [|apply emits_throw].
    apply emits_bind; [apply emits_await; apply Hp | intros tools; apply IH].
Qed.

Lemma emits_listTools :
  (forall c, P (ev_listTools c)) -> emits I P listTools.
Proof.
  intros Hp. unfold listTools.
  apply emits_bind; [apply emits_gets | intros names].
  now apply emits_listTools_loop.
Qed.

Lemma emits_callTool (name : string) (args : Json) :
  (forall this c, I this -> P (ev_callTool c name args (maxToolTimeout this))) ->
  emits I P (callTool name args).
Proof.
  intros Hp this e r this' e' H Hi. rewrite callTool_eq in H.
  assert (Hnone : forall ex, (r, this', e') = (Throw ex, this, e) ->
            I this' /\ exists evs, calls e' = (calls e ++ evs)%list /\ Forall P evs).
  { intros ex Heq. inversion Heq; subst. split; [assumption|].
    exists []. rewrite app_nil_r. split; [reflexivity | constructor]. }
  destruct (JsMap.get (toolServerMap this) name) as [sn|];
    [|eapply Hnone; symmetry; exact H].
  destruct (sn =? ""); [eapply Hnone; symmetry; exact H|].
  destruct (JsMap.get (sessions this) sn) as [c|];
    [|eapply Hnone; symmetry; exact H].
  inversion H; subst. split; [assumption|].
  exists [ev_callTool c name args (maxToolTimeout this')]. split; [reflexivity|].
  constructor; [now apply Hp | constructor].
Qed.

End Footprint.

(** X2: each public method touches the SDK only in its own way, whether
    it completes normally or throws: [addServer] and [removeServer] make
    no SDK call; [createSession] only connects; [createAllSessions] only
    connects and lists tools, so it never closes a session and never
    calls a tool; [closeSession] and [closeAllSessions] only close;
    [listTools] only lists tools; [callTool] only calls a tool. *)
Theorem methods_sdk_footprint {sdk : Sdk} :
  (forall n cfg, emits (fun _ => True) (fun _ => False) (addServer n cfg))
  /\ (forall n, emits (fun _ => True) (fun _ => False) (removeServer n))
  /\ (forall n, emits (fun _ => True) is_connect (createSession n))
  /\ emits (fun _ => True) (fun ev => is_connect ev \/ is_listTools ev) createAllSessions
  /\ (forall n, emits (fun _ => True) is_close (closeSession n))
  /\ emits (fun _ => True) is_close closeAllSessions
  /\ emits (fun _ => True) is_listTools listTools
  /\ (forall n a, emits (fun _ => True) is_callTool (callTool n a)).
Proof.
  assert (HI : forall this this' : MCPClient,
            True -> maxToolTimeout this' = maxToolTimeout this -> True) by auto.
  repeat apply conj.
  - intros n cfg. now apply emits_addServer.
  - intros n. now apply emits_removeServer.
  - intros n. apply emits_createSession; [exact HI | intros; exact Logic.I].
  - apply emits_createAllSessions; [exact HI | intros; now left | intros; now right].
  - intros n. apply emits_closeSession; [exact HI | intros; exact Logic.I].
  - apply emits_closeAllSessions; [exact HI | intros; exact Logic.I].
  - apply emits_listTools; [exact HI | intros; exact Logic.I].
  - intros n a. apply emits_callTool. intros; exact Logic.I.
Qed.

Section Propagation.

Context {sdk : Sdk}.

Variable x : float.

Lemma timeout_is_frame (this this' : MCPClient) :
  timeout_is x this -> maxToolTimeout this' = maxToolTimeout this -> timeout_is x this'.
Proof. unfold timeout_is. congruence. Qed.

Lemma exec_carries_timeout (c : Call) this e :
  timeout_is x this ->
  timeout_is x (fst (exec c this e))
  /\ exists evs, calls (snd (exec c this e)) = (calls e ++ evs)%list
                 /\ Forall (carries_timeout x) evs.
Proof.
  assert (H : forall A (m : M A), emits (timeout_is x) (carries_timeout x) m ->
            timeout_is x this ->
            timeout_is x (fst (forget m this e))
            /\ exists evs, calls (snd (forget m this e)) = (calls e ++ evs)%list
                           /\ Forall (carries_timeout x) evs).
  { intros A m Hm Hi. unfold forget. destruct (m this e) as [[r this'] e'] eqn:E.
    simpl. eapply Hm; eassumption. }
  destruct c; unfold exec; apply H.
  - apply emits_addServer, timeout_is_frame.
  - apply emits_removeServer, timeout_is_frame.
  - apply emits_createSession; [apply timeout_is_frame | intros; exact Logic.I].
  - apply emits_createAllSessions;
      [apply timeout_is_frame | intros; exact Logic.I | intros; exact Logic.I].
  - apply emits_closeSession; [apply timeout_is_frame | intros; exact Logic.I].
  - apply emits_closeAllSessions; [apply timeout_is_frame | intros; exact Logic.I].
  - apply emits_listTools; [apply timeout_is_frame | intros; exact Logic.I].
  - apply emits_callTool. intros this0 c Hi. exact Hi.
Qed.

Lemma run_carries_timeout (cs : list Call) :
  forall this e,
    timeout_is x this ->
    exists evs, calls (snd (run cs this e)) = (calls e ++ evs)%list
                /\ Forall (carries_timeout x) evs.
Proof.
  induction cs as [|c r IH]; intros this e Hi; simpl.
  - exists []. rewrite app_nil_r. split; [reflexivity | constructor].
  - destruct (@exec_carries_timeout c this e Hi) as (Hi1 & evs1 & Hc1 & Hp1).
    destruct (exec c this e) as [this1 e1]. simpl in *.
    destruct (IH this1 e1 Hi1) as (evs2 & Hc2 & Hp2).
    exists (evs1 ++ evs2)%list. rewrite Hc2, Hc1, app_assoc.
    split; [reflexivity | now apply Forall_app].
Qed.

(** X3: a truthy timeout given to the constructor is the timeout of
    every tool call the client ever forwards to the SDK, whatever sequence
    of method calls is made on it. *)
Theorem truthy_maxToolTimeout_reaches_every_call
  arg (w : World) (this : MCPClient) (w' : World) (cs : list Call) (e : Env) :
  truthy_number x = true ->
  new_MCPClient arg (Some x) w = (Normal this, w') ->
  exists evs, calls (snd (run cs this e)) = (calls e ++ evs)%list
              /\ Forall (carries_timeout x) evs.
Proof.
  intros Hx Hnew. apply run_carries_timeout.
  apply new_MCPClient_timeout in Hnew. rewrite Hx in Hnew. exact Hnew.
Qed.

End Propagation.

(** A client constructed with a timeout of 500 forwards its tool call
    with that timeout. *)
Lemma timeout_500_reaches_callTool :
  let sc := Demo.two_catalogs in
  let this := set_maxToolTimeout 500%float (fresh (sdk := Demo.runtime sc) Demo.two_servers) in
  let cs := [call_createAllSessions; call_callTool "x" JNull] in
  (truthy_number 500%float = true
   /\ new_MCPClient (sdk := Demo.runtime sc) (Some (inr Demo.two_servers)) (Some 500%float) 0
      = (Normal this, 0))
  /\ nth_error (calls (snd (run cs this (Demo.start sc)))) 4
     = Some (ev_callTool (sdk := Demo.runtime sc) "a" "x" JNull 500%float)
  /\ exists evs, calls (snd (run cs this (Demo.start sc)))
                 = (calls (Demo.start sc) ++ evs)%list
                 /\ Forall (carries_timeout 500%float) evs.
Proof.
  split; [split; reflexivity|]. split; [reflexivity|].
  apply (@truthy_maxToolTimeout_reaches_every_call (Demo.runtime Demo.two_catalogs)
           500%float (Some (inr Demo.two_servers)) 0 _ 0); reflexivity.
Defined.

(* ================================================================== *)
(** ** Changing the configuration                                      *)
(* ================================================================== *)

Section Configuring.

Context {sdk : Sdk}.

Lemma delete_set_fresh {V : Type} (m : Assoc.t V) (k : string) (v : V) :
  Assoc.get m k = None -> Assoc.delete (Assoc.set m k v) k = m.
Proof.
  unfold Assoc.delete.
  induction m as [|[k' v'] r IH]; simpl; intros H.
  - now rewrite String.eqb_refl.
  - destruct (k' =? k) eqn:E; [discriminate|]. simpl. rewrite E. simpl.
    f_equal. now apply IH.
Qed.

Lemma keys_set_present {V : Type} (m : Assoc.t V) (k : string) (v : V) :
  In k (Assoc.keys m) -> Assoc.keys (Assoc.set m k v) = Assoc.keys m.
Proof.
  induction m as [|[k' v'] r IH]; simpl; [tauto|].
  destruct (k' =? k) eqn:E; simpl.
  - apply String.eqb_eq in E. now subst.
  - apply String.eqb_neq in E. intros [H|H]; [congruence|]. f_equal. now apply IH.
Qed.

Lemma keys_set_fresh {V : Type} (m : Assoc.t V) (k : string) (v : V) :
  ~ In k (Assoc.keys m) -> Assoc.keys (Assoc.set m k v) = (Assoc.keys m ++ [k])%list.
Proof.
  induction m as [|[k' v'] r IH]; simpl; [reflexivity|].
  intros H. destruct (k' =? k) eqn:E; simpl.
  - apply String.eqb_eq in E. tauto.
  - f_equal. apply IH. tauto.
Qed.

Lemma set_activeSessions_same (this : MCPClient) :
  set_activeSessions (activeSessions this) this = this.
Proof. now destruct this. Qed.

(** X4: for a name other than [__proto__] (assigning that key would
    replace the prototype of the configuration object instead of adding a
    property), [addServer n cfg] never throws and makes no SDK call; afterwards
    [n] is configured with [cfg] and listed by [getServerNames] beside the
    names listed before; the other descriptors, the sessions, the active
    list and the tool index are untouched; and a session created for [n]
    from then on is connected over the transport of [cfg]. *)
Theorem addServer_registers (n : string) (cfg : MCPServerConfig) (this : MCPClient) (e : Env) :
  n <> "__proto__" ->
  exists this',
    addServer n cfg this e = (Normal tt, this', e)
    /\ JsObject.get (servers_or_empty this') n = Some cfg
    /\ (forall m, m <> n ->
          JsObject.get (servers_or_empty this') m = JsObject.get (servers_or_empty this) m)
    /\ (exists names names',
          getServerNames this e = (Normal names, this, e)
          /\ getServerNames this' e = (Normal names', this', e)
          /\ forall m, In m names' <-> m = n \/ In m names)
    /\ (sessions this' = sessions this
        /\ activeSessions this' = activeSessions this
        /\ toolServerMap this' = toolServerMap this)
    /\ (forall t, createTransport cfg = Normal t ->
          calls (snd (createSession n this' e))
          = (calls e ++ [ev_connect n "1.0.0" t])%list).
Proof.
  intros Hn.
  destruct (addServer_frame n cfg this) as (Fs & Fa & Fi & _).
  pose proof (addServer_config n cfg this) as Hcfg. cbv zeta in Hcfg.
  destruct Hcfg as [(Hq & _)|(_ & Ho & _)]; [contradiction|].
  remember (assign_server n cfg (ensure_mcpServers this)) as this1 eqn:E1.
  assert (Hs : servers_or_empty this1 = JsObject.set (servers_or_empty this) n cfg).
  { unfold servers_or_empty at 1. now rewrite Ho. }
  exists this1. split; [unfold addServer, modify; now rewrite E1|].
  rewrite Hs. repeat apply conj; try assumption.
  - apply AssocFacts.get_set_same.
  - intros m Hm. apply AssocFacts.get_set_other. congruence.
  - exists (JsObject.keys (servers_or_empty this)),
           (JsObject.keys (JsObject.set (servers_or_empty this) n cfg)).
    repeat apply conj; try reflexivity.
    + unfold getServerNames, gets. now rewrite Hs.
    + intros m. rewrite !JsObjectFacts.In_keys. apply AssocFacts.In_keys_set.
  - intros t Ht.
    unfold createSession, bind, gets, throw, lift, await, modify, ret. rewrite Ho.
    assert (Hk : JsObject.keys (JsObject.set (servers_or_empty this) n cfg) <> []).
    { intros Hk. apply JsObjectFacts.keys_nil in Hk.
      destruct (servers_or_empty this) as [|[k v] r]; simpl in Hk; [discriminate|].
      destruct (k =? n); discriminate. }
    destruct (JsObject.keys (JsObject.set (servers_or_empty this) n cfg)) as [|k ks];
      [congruence|]. simpl.
    rewrite (@read_server_own _ _ n cfg) by apply AssocFacts.get_set_same.
    simpl. rewrite Ht.
    now destruct (sdk_connect n "1.0.0" t (world e)) as [[c|ex] w1].
Qed.

(** X5: on a reachable object whose configuration object still has the
    prototype it was built with, adding a server (under a name other than
    [__proto__]) that was not configured and removing it again restores
    the own properties of the configuration exactly, and leaves its
    prototype, the sessions, the active list, the tool index and the
    timeout as they were, without any SDK call. *)
Theorem addServer_then_removeServer
  (n : string) (cfg : MCPServerConfig) (this : MCPClient) (e : Env) :
  reachable this ->
  mcpServers_prototype this = None ->
  n <> "__proto__" ->
  JsObject.get (servers_or_empty this) n = None ->
  exists this',
    run [call_addServer n cfg; call_removeServer n] this e = (this', e)
    /\ servers_or_empty this' = servers_or_empty this
    /\ mcpServers_prototype this' = mcpServers_prototype this
    /\ sessions this' = sessions this
    /\ activeSessions this' = activeSessions this
    /\ toolServerMap this' = toolServerMap this
    /\ maxToolTimeout this' = maxToolTimeout this.
Proof.
  intros Hr Hp Hne Hn. apply reachable_consistent in Hr.
  assert (Ha : ~ In n (activeSessions this)).
  { intros Hin. apply (active_is_configured Hr (or_intror Hp)) in Hin.
    apply AssocFacts.get_None_not_In in Hn. tauto. }
  destruct (addServer_frame n cfg this) as (Fs & Fa & Fi & Ft).
  pose proof (addServer_config n cfg this) as Hcfg. cbv zeta in Hcfg.
  destruct Hcfg as [(Hq & _)|(_ & Ho & Hq)]; [contradiction|].
  remember (assign_server n cfg (ensure_mcpServers this)) as this1 eqn:E1.
  exists (removed n this1). split.
  - unfold run, exec, forget, addServer, modify. cbv beta iota.
    rewrite <- E1. rewrite removeServer_eq. reflexivity.
  - rewrite sessions_removed, activeSessions_removed, prototype_removed, Fa, Hq, Hp.
    rewrite JsArrayFacts.remove_first_not_In by assumption.
    repeat apply conj; try assumption; try reflexivity.
    + unfold removed, servers_or_empty at 1. rewrite Ho.
      unfold JsObject.get, JsObject.set. rewrite AssocFacts.get_set_same. simpl.
      unfold JsObject.delete. now apply delete_set_fresh.
    + now destruct (mcpServers (config this)).
    + unfold removed. rewrite Ho. unfold JsObject.get, JsObject.set.
      rewrite AssocFacts.get_set_same. simpl. exact Fi.
    + unfold removed. rewrite Ho. unfold JsObject.get, JsObject.set.
      rewrite AssocFacts.get_set_same. simpl. exact Ft.
Qed.

(** X6: on a reachable object whose configuration object still has the
    prototype it was built with, removing a server that is not configured
    changes nothing. *)
Theorem removeServer_unconfigured (n : string) (this : MCPClient) (e : Env) :
  reachable this ->
  mcpServers_prototype this = None ->
  JsObject.get (servers_or_empty this) n = None ->
  removeServer n this e = (Normal tt, this, e).
Proof.
  intros Hr Hp Hn. apply reachable_consistent in Hr.
  assert (Ha : ~ In n (activeSessions this)).
  { intros Hin. apply (active_is_configured Hr (or_intror Hp)) in Hin.
    apply AssocFacts.get_None_not_In in Hn. tauto. }
  rewrite removeServer_eq. f_equal. f_equal.
  unfold removed. rewrite JsArrayFacts.evict_remove_first,
    JsArrayFacts.remove_first_not_In by assumption.
  unfold servers_or_empty in Hn.
  destruct (mcpServers (config this)) as [o|]; [rewrite Hn|];
    apply set_activeSessions_same.
Qed.

End Configuring.

(** A third server is added to a client with two sessions and removed
    again. *)
Lemma add_then_remove_third_server :
  let this := fst (Demo.after Demo.quiet Demo.two_servers [call_createAllSessions]) in
  let e := snd (Demo.after Demo.quiet Demo.two_servers [call_createAllSessions]) in
  JsObject.get (servers_or_empty this) "c" = None
  /\ mcpServers_prototype this = None
  /\ activeSessions this = ["a"; "b"]
  /\ exists this',
       run [call_addServer "c" (Demo.stdio "srv-c"); call_removeServer "c"] this e = (this', e)
       /\ servers_or_empty this' = servers_or_empty this
       /\ mcpServers_prototype this' = mcpServers_prototype this
       /\ sessions this' = sessions this
       /\ activeSessions this' = activeSessions this
       /\ toolServerMap this' = toolServerMap this
       /\ maxToolTimeout this' = maxToolTimeout this.
Proof.
  split; [reflexivity|]. split; [reflexivity|]. split; [reflexivity|].
  apply (@addServer_then_removeServer (Demo.runtime Demo.quiet) "c" (Demo.stdio "srv-c")).
  - apply reachable_after.
  - reflexivity.
  - discriminate.
  - reflexivity.
Defined.

(** The descriptor of server [a] is replaced by an SSE one: the name
    keeps its place in the list of names, and the next session for [a] is
    connected over SSE. *)
Lemma addServer_updates_descriptor :
  let sc := Demo.quiet in
  let this := fresh (sdk := Demo.runtime sc) Demo.two_servers in
  let cfg := mkServerConfig (Some type_sse) None None None
                            (Some "http://localhost:8000/sse") None in
  let this' := snd (fst (addServer "a" cfg this (Demo.start sc))) in
  getServerNames this' (Demo.start sc) = (Normal ["a"; "b"], this', Demo.start sc)
  /\ calls (snd (createSession "a" this' (Demo.start sc)))
     = [ev_connect (sdk := Demo.runtime sc) "a" "1.0.0"
          (SSEClientTransport "http://localhost:8000/sse")]
  /\ exists this'',
       addServer "a" cfg this (Demo.start sc) = (Normal tt, this'', Demo.start sc)
       /\ JsObject.get (servers_or_empty this'') "a" = Some cfg
       /\ (forall m, m <> "a" ->
             JsObject.get (servers_or_empty this'') m
             = JsObject.get (servers_or_empty this) m)
       /\ (exists names names',
             getServerNames this (Demo.start sc) = (Normal names, this, Demo.start sc)
             /\ getServerNames this'' (Demo.start sc) = (Normal names', this'', Demo.start sc)
             /\ forall m, In m names' <-> m = "a" \/ In m names)
       /\ (sessions this'' = sessions this
           /\ activeSessions this'' = activeSessions this
           /\ toolServerMap this'' = toolServerMap this)
       /\ (forall t, createTransport cfg = Normal t ->
             calls (snd (createSession "a" this'' (Demo.start sc)))
             = (calls (Demo.start sc) ++ [ev_connect "a" "1.0.0" t])%list).
Proof.
  split; [reflexivity|]. split; [reflexivity|].
  apply (@addServer_registers (Demo.runtime Demo.quiet) "a"). discriminate.
Defined.

(** Removing a name that was never configured, with sessions open. *)
Lemma remove_unknown_server :
  let this := fst (Demo.after Demo.quiet Demo.two_servers [call_createAllSessions]) in
  let e := snd (Demo.after Demo.quiet Demo.two_servers [call_createAllSessions]) in
  activeSessions this = ["a"; "b"]
  /\ mcpServers_prototype this = None
  /\ removeServer "zzz" this e = (Normal tt, this, e).
Proof.
  split; [reflexivity|]. split; [reflexivity|].
  apply (@removeServer_unconfigured (Demo.runtime Demo.quiet) "zzz").
  - apply reachable_after.
  - reflexivity.
  - reflexivity.
Defined.

(* ================================================================== *)
(** ** The life of one session                                         *)
(* ================================================================== *)

Section Lifecycle.

Context {sdk : Sdk}.

Lemma getSession_eq (n : string) this e :
  getSession n this e
  = match JsMap.get (sessions this) n with
    | Some c => (Normal c, this, e)
    | None => (Throw (Error (msg_no_session_exists n)), this, e)
    end.
Proof.
  unfold getSession, bind, gets, throw, ret.
  now destruct (JsMap.get (sessions this) n).
Qed.

(** X7: [getSession] follows the registry through the life of a
    session: right after [createSession n] returned a client it returns
    that client, changing nothing; after [closeSession n] it throws the
    no-session error. *)
Theorem getSession_follows_lifecycle
  (n : string) (this : MCPClient) (e : Env) (c : Client) (this' : MCPClient) (e' : Env) :
  createSession n this e = (Normal c, this', e') ->
  getSession n this' e' = (Normal c, this', e')
  /\ exists this'' e'',
       closeSession n this' e' = (Normal tt, this'', e'')
       /\ getSession n this'' e''
          = (Throw (Error (msg_no_session_exists n)), this'', e'').
Proof.
  intros H. apply createSession_inv in H.
  destruct H as [(ex & Hr & _)|(c0 & o & cfg & t & Hr & _ & _ & _ & _ & _ & ->)];
    [discriminate|].
  inversion Hr; subst c0.
  destruct (get_created_same n c this) as [Hget _].
  split; [now rewrite getSession_eq, Hget|].
  rewrite closeSession_eq, Hget. eexists. eexists. split; [reflexivity|].
  rewrite getSession_eq. unfold closed. simpl.
  unfold JsMap.get, JsMap.delete. now rewrite AssocFacts.get_delete_same.
Qed.

(** X8: [createSession n] for a name that already has a session
    replaces the stored client by the new one and keeps the place of [n]
    in the session map; the other sessions are untouched; [n] is not
    entered twice in [activeSessions]; and the only SDK call made is the
    new connection, so the client replaced is not closed. *)
Theorem createSession_replaces_session
  (n : string) (this : MCPClient) (e : Env) (c : Client) (this' : MCPClient) (e' : Env) :
  createSession n this e = (Normal c, this', e') ->
  In n (JsMap.keys (sessions this)) ->
  JsMap.keys (sessions this') = JsMap.keys (sessions this)
  /\ JsMap.get (sessions this') n = Some c
  /\ (forall m, m <> n -> JsMap.get (sessions this') m = JsMap.get (sessions this) m)
  /\ activeSessions this'
     = (if JsArray.includes (activeSessions this) n then activeSessions this
        else (activeSessions this ++ [n])%list)
  /\ exists t, calls e' = (calls e ++ [ev_connect n "1.0.0" t])%list.
Proof.
  intros H Hin. apply createSession_inv in H.
  destruct H as [(ex & Hr & _)|(c0 & o & cfg & t & Hr & _ & _ & _ & _ & Hev & ->)];
    [discriminate|].
  inversion Hr; subst c0.
  unfold created. simpl.
  assert (Hk : JsMap.keys (JsMap.set (sessions this) n c) = JsMap.keys (sessions this))
    by now apply keys_set_present.
  assert (Hg : JsMap.get (JsMap.set (sessions this) n c) n = Some c)
    by apply AssocFacts.get_set_same.
  assert (Ho : forall m, m <> n ->
            JsMap.get (JsMap.set (sessions this) n c) m = JsMap.get (sessions this) m).
  { intros m Hm. apply AssocFacts.get_set_other. congruence. }
  destruct (JsArray.includes (activeSessions this) n); simpl;
    repeat apply conj; try assumption; try reflexivity; now exists t.
Qed.

Lemma createTransport_throws (cfg : MCPServerConfig) (ex : Exn) :
  createTransport cfg = Throw ex ->
  ex = Error msg_cannot_determine \/ ex = TypeError msg_invalid_url.
Proof.
  assert (Hu : forall u k, with_URL u k = Throw ex -> ex = TypeError msg_invalid_url).
  { intros u k. unfold with_URL. destruct (new_URL u); [discriminate|].
    intros H. now inversion H. }
  unfold createTransport.
  destruct (truthy_string (command cfg) && truthy_object (args cfg)).
  { destruct (command cfg), (args cfg); try discriminate;
      intros H; inversion H; now left. }
  destruct (truthy_string (url cfg) && type_is cfg type_sse).
  { destruct (url cfg); [intros H; right; eapply Hu; exact H|].
    intros H; inversion H; now left. }
  destruct (truthy_string (url cfg) && type_is cfg type_streamable_http).
  { destruct (url cfg); [intros H; right; eapply Hu; exact H|].
    intros H; inversion H; now left. }
  destruct (truthy_string (ws_url cfg)).
  { destruct (ws_url cfg); [intros H; right; eapply Hu; exact H|].
    intros H; inversion H; now left. }
  intros H; inversion H; now left.
Qed.

Lemma createTransport_record_throws (r : list (string * string)) (ex : Exn) :
  createTransport_record r = Throw ex ->
  ex = Error msg_cannot_determine \/ ex = TypeError msg_invalid_url.
Proof.
  assert (Hu : forall u k, with_URL u k = Throw ex -> ex = TypeError msg_invalid_url).
  { intros u k. unfold with_URL. destruct (new_URL u); [discriminate|].
    intros H. now inversion H. }
  unfold createTransport_record.
  destruct (truthy_string (Assoc.get r "command") && truthy_string (Assoc.get r "args")).
  { destruct (Assoc.get r "command"), (Assoc.get r "args"); try discriminate;
      intros H; inversion H; now left. }
  match goal with |- context [if ?b then _ else _] => destruct b end.
  { destruct (Assoc.get r "url"); [intros H; right; eapply Hu; exact H|].
    intros H; inversion H; now left. }
  match goal with |- context [if ?b then _ else _] => destruct b end.
  { destruct (Assoc.get r "url"); [intros H; right; eapply Hu; exact H|].
    intros H; inversion H; now left. }
  destruct (truthy_string (Assoc.get r "ws_url")).
  { destruct (Assoc.get r "ws_url"); [intros H; right; eapply Hu; exact H|].
    intros H; inversion H; now left. }
  intros H; inversion H; now left.
Qed.

(** The exceptions of [createTransport] on a value that passed the
    truthiness test of [createSession]. *)
Lemma createTransport_value_throws (v : ServerValue) (ex : Exn) :
  truthy_value v = true ->
  createTransport_value v = Throw ex ->
  ex = Error msg_cannot_determine \/ ex = TypeError msg_invalid_url.
Proof.
  destruct v; simpl; intros Hv H; try discriminate;
    try (inversion H; now left).
  - now apply createTransport_throws in H.
  - now apply createTransport_record_throws in H.
Qed.

(** The values that give a transport. *)
Lemma read_server_gives_transport this o (n : string) (t : Transport URL) :
  mcpServers (config this) = Some o ->
  createTransport_value (read_server o (mcpServers_prototype this) n) = Normal t ->
  gives_transport this n t.
Proof.
  intros Ho. unfold gives_transport, servers_or_empty, read_server. rewrite Ho.
  destruct (JsObject.get o n) as [cfg|] eqn:Ecfg.
  { intros H. left. exists cfg. auto. }
  destruct (mcpServers_prototype this) as [p|].
  2:{ destruct (JsObject.inherits n); discriminate. }
  destruct (String.eqb_spec n "__proto__") as [->|Hn].
  { intros H. right. split; [reflexivity|]. exists p. split; [reflexivity|]. left. auto. }
  unfold own_field.
  destruct (n =? "type"); [destruct (type p); simpl|].
  1,2: try destruct (JsObject.inherits n); discriminate.
  destruct (n =? "command"); [destruct (command p); simpl|].
  1,2: try destruct (JsObject.inherits n); discriminate.
  destruct (n =? "args"); [destruct (args p); simpl|].
  1,2: try destruct (JsObject.inherits n); discriminate.
  destruct (String.eqb_spec n "env") as [->|Hne].
  { destruct (env p) as [r|] eqn:Er; simpl; [|discriminate].
    intros H. right. split; [reflexivity|]. exists p. split; [reflexivity|].
    right. split; [reflexivity|]. exists r. auto. }
  destruct (n =? "url"); [destruct (url p); simpl|].
  1,2: try destruct (JsObject.inherits n); discriminate.
  destruct (n =? "ws_url"); [destruct (ws_url p); simpl|].
  1,2: try destruct (JsObject.inherits n); discriminate.
  destruct (JsObject.inherits n); discriminate.
Qed.

(** X9: a [createSession] that throws leaves the object exactly as it
    was.  Either no SDK call was made and the exception is one of the
    client's own (no servers configured, server not found, transport
    cannot be determined, url rejected by the [URL] constructor), or the
    value read for [n] gave a transport (the own descriptor of [n], or,
    through a replaced prototype, that prototype or its [env] record), the
    one connection attempt was made, and the exception is the one the SDK
    raised. *)
Theorem createSession_failure_leaves_object
  (n : string) (this : MCPClient) (e : Env) (ex : Exn) (this' : MCPClient) (e' : Env) :
  createSession n this e = (Throw ex, this', e') ->
  this' = this
  /\ ((e' = e
       /\ (ex = Error msg_no_servers \/ ex = Error (msg_server_not_found n)
           \/ ex = Error msg_cannot_determine \/ ex = TypeError msg_invalid_url))
      \/ exists t w1,
           gives_transport this n t
           /\ (mcpServers_prototype this = None ->
               exists cfg, JsObject.get (servers_or_empty this) n = Some cfg
                           /\ createTransport cfg = Normal t)
           /\ sdk_connect n "1.0.0" t (world e) = (Throw ex, w1)
           /\ e' = mkEnv w1 (calls e ++ [ev_connect n "1.0.0" t])%list).
Proof.
  unfold createSession, bind, gets, throw, lift, await, modify, ret.
  destruct (mcpServers (config this)) as [o|] eqn:Eo.
  2:{ intros H; inversion H; subst. split; [reflexivity|]. left. auto. }
  destruct (List.length (JsObject.keys o) =? 0)%nat.
  { intros H; inversion H; subst. split; [reflexivity|]. left. auto. }
  destruct (truthy_value (read_server o (mcpServers_prototype this) n)) eqn:Ev; simpl.
  2:{ intros H; inversion H; subst. split; [reflexivity|]. left. auto. }
  destruct (createTransport_value (read_server o (mcpServers_prototype this) n))
    as [t|ex0] eqn:Et.
  2:{ intros H; inversion H; subst. split; [reflexivity|]. left.
      split; [reflexivity|]. apply createTransport_value_throws in Et; tauto. }
  destruct (sdk_connect n "1.0.0" t (world e)) as [[c|ex0] w1] eqn:Ec.
  - discriminate.
  - intros H; inversion H; subst. split; [reflexivity|]. right.
    exists t, w1. repeat apply conj; auto.
    + eapply read_server_gives_transport; eassumption.
    + intros Hp. rewrite Hp in Et.
      destruct (read_server_plain _ _ eq_refl Et) as (cfg & _ & Hg & Hc).
      exists cfg. unfold servers_or_empty. rewrite Eo. auto.
Qed.

End Lifecycle.

(** A session is created, looked up, closed and looked up again. *)
Lemma getSession_before_and_after_close :
  let sc := Demo.quiet in
  let this := fresh (sdk := Demo.runtime sc) Demo.two_servers in
  let this' := snd (fst (createSession "a" this (Demo.start sc))) in
  let e' := snd (createSession "a" this (Demo.start sc)) in
  createSession "a" this (Demo.start sc) = (Normal "a", this', e')
  /\ getSession "b" this' e' = (Throw (Error "No session exists for server 'b'"), this', e')
  /\ getSession "a" this' e' = (Normal "a", this', e')
  /\ exists this'' e'',
       closeSession "a" this' e' = (Normal tt, this'', e'')
       /\ getSession "a" this'' e''
          = (Throw (Error (msg_no_session_exists "a")), this'', e'').
Proof.
  split; [reflexivity|]. split; [reflexivity|].
  apply (@getSession_follows_lifecycle (Demo.runtime Demo.quiet) "a"
           (fresh Demo.two_servers) (Demo.start Demo.quiet)).
  reflexivity.
Defined.

(** Server [a] gets a second session while the first is still open. *)
Lemma createSession_twice :
  let sc := Demo.quiet in
  let this := fst (Demo.after sc Demo.two_servers [call_createAllSessions]) in
  let e := snd (Demo.after sc Demo.two_servers [call_createAllSessions]) in
  let this' := snd (fst (createSession "a" this e)) in
  let e' := snd (createSession "a" this e) in
  (createSession "a" this e = (Normal "a", this', e')
   /\ In "a" (JsMap.keys (sessions this)))
  /\ activeSessions this' = ["a"; "b"]
  /\ JsMap.keys (sessions this') = JsMap.keys (sessions this)
  /\ JsMap.get (sessions this') "a" = Some "a"
  /\ (forall m, m <> "a" -> JsMap.get (sessions this') m = JsMap.get (sessions this) m)
  /\ activeSessions this'
     = (if JsArray.includes (activeSessions this) "a" then activeSessions this
        else (activeSessions this ++ ["a"])%list)
  /\ exists t, calls e' = (calls e ++ [ev_connect "a" "1.0.0" t])%list.
Proof.
  split; [split; [reflexivity | simpl; tauto]|]. split; [reflexivity|].
  apply (@createSession_replaces_session (Demo.runtime Demo.quiet) "a").
  - reflexivity.
  - simpl. tauto.
Defined.

(** A name that is not configured, and a server that refuses the
    connection. *)
Lemma createSession_unknown_and_refused :
  let sc := Demo.b_down in
  let this := fresh (sdk := Demo.runtime sc) Demo.three_servers in
  let e := Demo.start sc in
  createSession "zzz" this e = (Throw (Error "Server 'zzz' not found in config"), this, e)
  /\ createSession "toString" this e = (Throw (Error msg_cannot_determine), this, e)
  /\ fst (fst (createSession "b" this e)) = Throw (McpError (-32000) "Connection closed")
  /\ (snd (fst (createSession "b" this e)) = this
      /\ ((snd (createSession "b" this e) = e
           /\ (McpError (-32000) "Connection closed" = Error msg_no_servers
               \/ McpError (-32000) "Connection closed" = Error (msg_server_not_found "b")
               \/ McpError (-32000) "Connection closed" = Error msg_cannot_determine
               \/ McpError (-32000) "Connection closed" = TypeError msg_invalid_url))
          \/ exists t w1,
               gives_transport this "b" t
               /\ (mcpServers_prototype this = None ->
                   exists cfg, JsObject.get (servers_or_empty this) "b" = Some cfg
                               /\ createTransport cfg = Normal t)
               /\ sdk_connect "b" "1.0.0" t (world e)
                  = (Throw (McpError (-32000) "Connection closed"), w1)
               /\ snd (createSession "b" this e)
                  = mkEnv w1 (calls e ++ [ev_connect "b" "1.0.0" t])%list)).
Proof.
  split; [reflexivity|]. split; [reflexivity|]. split; [reflexivity|].
  apply (@createSession_failure_leaves_object (Demo.runtime Demo.b_down) "b"
           (fresh Demo.three_servers) (Demo.start Demo.b_down)).
  reflexivity.
Defined.

(* ================================================================== *)
(** ** Listing and routing                                             *)
(* ================================================================== *)

Section Listing.

Context {sdk : Sdk}.

Lemma entries_of_names (ss : JsMap.t Client) (names : list string) :
  (forall n, In n names -> In n (JsMap.keys ss)) ->
  map fst (entries_of ss names) = names.
Proof.
  induction names as [|n r IH]; intros H; simpl; [reflexivity|].
  destruct (AssocFacts.In_keys_get ss n (H n (or_introl eq_refl))) as [c Hc].
  unfold JsMap.get. rewrite Hc. simpl. f_equal. apply IH. intros m Hm. apply H. now right.
Qed.

Lemma listTools_loop_eq (names : list string) :
  forall acc this e,
    (forall n, In n names -> In n (JsMap.keys (sessions this))) ->
    listTools_loop names acc this e
    = match query_catalogs (entries_of (sessions this) names) this e with
      | (Normal catalogs, _, e') =>
          (Normal (acc ++ flatten_catalogs catalogs)%list, this, e')
      | (Throw ex, _, e') => (Throw ex, this, e')
      end.
Proof.
  induction names as [|n r IH]; intros acc this e H; simpl.
  - unfold ret. now rewrite app_nil_r.
  - destruct (AssocFacts.In_keys_get (sessions this) n (H n (or_introl eq_refl))) as [c Hc].
    unfold bind at 1. unfold gets at 1. unfold JsMap.get. rewrite Hc. simpl.
    unfold bind at 1 2. unfold await.
    destruct (sdk_listTools c (world e)) as [[tools|ex] w1]; [|reflexivity].
    rewrite IH by (intros m Hm; apply H; now right).
    unfold bind, ret.
    destruct (query_catalogs (entries_of (sessions this) r) this _)
      as [[[cats|ex] this1] e1]; [|reflexivity].
    unfold flatten_catalogs. simpl. now rewrite app_assoc.
Qed.

(** X10: on a reachable object [listTools] never fails for want of a
    session.  It asks each active session, in the order of
    [activeSessions], for its tools, and returns them as one list, server
    by server in that order, each tool with its description or the empty
    string when it has none; if a query throws, that exception is the
    result.  The object is not changed. *)
Theorem listTools_flattens_active_catalogs (this : MCPClient) (e : Env) :
  reachable this ->
  map fst (active_entries this) = activeSessions this
  /\ (forall n c, In (n, c) (active_entries this) -> JsMap.get (sessions this) n = Some c)
  /\ listTools this e
     = match query_catalogs (active_entries this) this e with
       | (Normal catalogs, _, e') => (Normal (flatten_catalogs catalogs), this, e')
       | (Throw ex, _, e') => (Throw ex, this, e')
       end.
Proof.
  intros Hr. apply reachable_consistent in Hr.
  repeat apply conj.
  - apply entries_of_names. exact (active_has_session Hr).
  - intros n c Hin. unfold active_entries, entries_of in Hin. apply in_flat_map in Hin.
    destruct Hin as (m & _ & Hm).
    destruct (JsMap.get (sessions this) m) as [c'|] eqn:E; [|destruct Hm].
    destruct Hm as [Hm|[]]. now inversion Hm; subst.
  - unfold listTools, bind, gets.
    rewrite listTools_loop_eq by exact (active_has_session Hr).
    reflexivity.
Qed.

(** X11: right after [createAllSessions] completed normally, every
    server name in the tool index has a session in the registry; so a call
    for an indexed tool of a server with a non-empty name always reaches
    that server's session, with the timeout of the client. *)
Theorem callTool_routes_after_createAllSessions
  (this : MCPClient) (e : Env) (m : JsMap.t Client) (this' : MCPClient) (e' : Env)
  (t s : string) (args : Json) :
  createAllSessions this e = (Normal m, this', e') ->
  JsMap.get (toolServerMap this') t = Some s ->
  s <> "" ->
  exists c,
    JsMap.get (sessions this') s = Some c
    /\ callTool t args this' e'
       = (fst (sdk_callTool c t args (maxToolTimeout this') (world e')), this',
          mkEnv (snd (sdk_callTool c t args (maxToolTimeout this') (world e')))
                (calls e' ++ [ev_callTool c t args (maxToolTimeout this')])).
Proof.
  intros Hrun Hidx Hs. apply createAllSessions_normal in Hrun.
  destruct Hrun as (o & this1 & e1 & idx & _ & _ & Hscan & -> & _).
  simpl in Hidx.
  unfold getToolServerMap, bind, gets in Hscan. rewrite scan_sessions_eq in Hscan.
  destruct (query_catalogs (JsMap.entries (sessions this1)) this1 e1)
    as [[[cats|ex] this2] e2] eqn:Eq; [|discriminate].
  inversion Hscan; subst idx.
  apply query_catalogs_names in Eq.
  rewrite get_index_of in Hidx.
  destruct (last_reporter cats t) as [s'|] eqn:El; [|discriminate].
  inversion Hidx; subst s'.
  destruct (proj1 (last_reporter_Some cats t s) El) as (pre & tools & post & Hcats & _ & _).
  assert (Hin : In s (JsMap.keys (sessions this1))).
  { unfold JsMap.keys, Assoc.keys, JsMap.entries, Assoc.entries in *.
    rewrite <- Eq, Hcats, map_app, in_app_iff. right. simpl. now left. }
  apply AssocFacts.In_keys_get in Hin. destruct Hin as [c Hc].
  exists c. split; [exact Hc|].
  rewrite callTool_eq. simpl. rewrite get_index_of, El.
  apply String.eqb_neq in Hs. rewrite Hs.
  unfold JsMap.get in *. now rewrite Hc.
Qed.

Lemma keys_collected_in_order (ss : JsMap.t Client) (l : list string) :
  forall acc,
    NoDup (JsMap.keys acc ++ l) ->
    (forall n, In n l -> In n (JsMap.keys ss)) ->
    JsMap.keys (fold_left (collect ss) l acc) = (JsMap.keys acc ++ l)%list.
Proof.
  induction l as [|x r IH]; intros acc Hnd Hs; simpl.
  - now rewrite app_nil_r.
  - destruct (AssocFacts.In_keys_get ss x (Hs x (or_introl eq_refl))) as [c Hc].
    assert (Hx : ~ In x (JsMap.keys acc)).
    { intros Hin. apply NoDup_remove_2 in Hnd. apply Hnd.
      apply in_app_iff. now left. }
    assert (Hk : JsMap.keys (collect ss acc x) = (JsMap.keys acc ++ [x])%list).
    { unfold collect, JsMap.get. rewrite Hc. now apply keys_set_fresh. }
    rewrite IH.
    + rewrite Hk, <- app_assoc. reflexivity.
    + rewrite Hk, <- app_assoc. exact Hnd.
    + intros n Hn. apply Hs. now right.
Qed.

(** X12: on a reachable object [getAllActiveSessions] returns a new map
    whose keys are the names of [activeSessions], in that order, each bound
    to the session the registry holds for it; a name that is not active is
    not in the map, even when the registry still holds a session for it. *)
Theorem getAllActiveSessions_lists_active (this : MCPClient) (e : Env) :
  reachable this ->
  exists act,
    getAllActiveSessions this e = (Normal act, this, e)
    /\ JsMap.keys act = activeSessions this
    /\ (forall n, In n (activeSessions this) ->
          JsMap.get act n = JsMap.get (sessions this) n
          /\ JsMap.get act n <> None)
    /\ (forall n, ~ In n (activeSessions this) -> JsMap.get act n = None).
Proof.
  intros Hr. apply reachable_consistent in Hr.
  exists (fold_left (collect (sessions this)) (activeSessions this) JsMap.empty).
  split; [reflexivity|]. repeat apply conj.
  - rewrite keys_collected_in_order; [reflexivity | | exact (active_has_session Hr)].
    simpl. exact (active_NoDup Hr).
  - intros n Hn.
    destruct (AssocFacts.In_keys_get _ _ (active_has_session Hr n Hn)) as [c Hc].
    assert (Ha : JsMap.get (fold_left (collect (sessions this)) (activeSessions this)
                                      JsMap.empty) n = Some c)
      by (apply get_collected; assumption).
    rewrite Ha. split; [symmetry; exact Hc | discriminate].
  - intros n Hn. apply AssocFacts.get_None_not_In. intros Hin.
    apply In_keys_collected in Hin. simpl in Hin. tauto.
Qed.

End Listing.

(** The tools of two active servers, in the order of the active list,
    which here differs from the order of the session map. *)
Lemma listTools_after_recreation :
  let sc := Demo.two_catalogs in
  let cs := [call_createAllSessions; call_removeServer "a";
             call_addServer "a" (Demo.stdio "srv-a"); call_createSession "a"] in
  let this := fst (Demo.after sc Demo.two_servers cs) in
  let e := snd (Demo.after sc Demo.two_servers cs) in
  fst (fst (listTools this e))
  = Normal [mkToolInfo "y" "" JNull; mkToolInfo "shared" "" JNull;
            mkToolInfo "x" "" JNull; mkToolInfo "shared" "" JNull]
  /\ map fst (active_entries this) = activeSessions this
  /\ (forall n c, In (n, c) (active_entries this) -> JsMap.get (sessions this) n = Some c)
  /\ listTools this e
     = match query_catalogs (active_entries this) this e with
       | (Normal catalogs, _, e') => (Normal (flatten_catalogs catalogs), this, e')
       | (Throw ex, _, e') => (Throw ex, this, e')
       end.
Proof.
  split; [reflexivity|].
  apply (@listTools_flattens_active_catalogs (Demo.runtime Demo.two_catalogs)).
  apply reachable_after.
Defined.

(** The tool [y] of server [b] is called after the sessions are
    created. *)
Lemma callTool_reaches_server_b :
  let sc := Demo.two_catalogs in
  let this := fresh (sdk := Demo.runtime sc) Demo.two_servers in
  let this' := snd (fst (createAllSessions this (Demo.start sc))) in
  let e' := snd (createAllSessions this (Demo.start sc)) in
  (createAllSessions this (Demo.start sc) = (Normal [("a", "a"); ("b", "b")], this', e')
   /\ JsMap.get (toolServerMap this') "y" = Some "b")
  /\ fst (fst (callTool "y" JNull this' e')) = Normal (JString "b/y")
  /\ exists c,
       JsMap.get (sessions this') "b" = Some c
       /\ callTool "y" JNull this' e'
          = (fst (sdk_callTool c "y" JNull (maxToolTimeout this') (world e')), this',
             mkEnv (snd (sdk_callTool c "y" JNull (maxToolTimeout this') (world e')))
                   (calls e' ++ [ev_callTool c "y" JNull (maxToolTimeout this')])).
Proof.
  split; [split; reflexivity|]. split; [reflexivity|].
  apply (@callTool_routes_after_createAllSessions (Demo.runtime Demo.two_catalogs)
           (fresh Demo.two_servers) (Demo.start Demo.two_catalogs)
           [("a", "a"); ("b", "b")]).
  - reflexivity.
  - reflexivity.
  - discriminate.
Defined.

(** The session of the removed server [a] is still registered but is
    not among the active sessions. *)
Lemma getAllActiveSessions_after_removeServer :
  let sc := Demo.quiet in
  let cs := [call_createAllSessions; call_removeServer "a"] in
  let this := fst (Demo.after sc Demo.two_servers cs) in
  let e := snd (Demo.after sc Demo.two_servers cs) in
  (JsMap.get (sessions this) "a" = Some "a"
   /\ getAllActiveSessions this e = (Normal [("b", "b")], this, e))
  /\ exists act,
       getAllActiveSessions this e = (Normal act, this, e)
       /\ JsMap.keys act = activeSessions this
       /\ (forall n, In n (activeSessions this) ->
             JsMap.get act n = JsMap.get (sessions this) n
             /\ JsMap.get act n <> None)
       /\ (forall n, ~ In n (activeSessions this) -> JsMap.get act n = None).
Proof.
  split; [split; reflexivity|].
  apply (@getAllActiveSessions_lists_active (Demo.runtime Demo.quiet)).
  apply reachable_after.
Defined.

(* ================================================================== *)
(** ** After closing                                                   *)
(* ================================================================== *)

Section AfterClosing.

Context {sdk : Sdk}.

(** X13: closing the same session twice is closing it once: the second
    [closeSession] finds nothing, makes no SDK call and changes nothing. *)
Theorem closeSession_twice (n : string) (this : MCPClient) (e : Env) :
  exists this1 e1,
    closeSession n this e = (Normal tt, this1, e1)
    /\ JsMap.get (sessions this1) n = None
    /\ closeSession n this1 e1 = (Normal tt, this1, e1).
Proof.
  rewrite closeSession_eq.
  destruct (JsMap.get (sessions this) n) as [c|] eqn:E.
  - eexists. eexists. split; [reflexivity|].
    assert (H : JsMap.get (sessions (closed n this)) n = None)
      by (unfold closed; simpl; apply AssocFacts.get_delete_same).
    split; [exact H|]. now rewrite closeSession_eq, H.
  - exists this, e. split; [reflexivity|]. split; [exact E|].
    now rewrite closeSession_eq, E.
Qed.

Lemma delete_absent {V : Type} (m : Assoc.t V) (k : string) :
  ~ In k (Assoc.keys m) -> Assoc.delete m k = m.
Proof.
  unfold Assoc.delete. induction m as [|[k' v'] r IH]; simpl; [reflexivity|].
  intros H. destruct (k' =? k) eqn:E; simpl.
  - apply String.eqb_eq in E. tauto.
  - f_equal. apply IH. tauto.
Qed.

Lemma closeAll_loop_calls (m : JsMap.t Client) :
  forall errors this e,
    sessions this = m ->
    NoDup (JsMap.keys m) ->
    exists errors' this' w',
      closeAll_loop (JsMap.keys m) errors this e
      = (Normal errors', this',
         mkEnv w' (calls e ++ map (fun kv => ev_close (snd kv)) m)%list).
Proof.
  induction m as [|[k v] r IH]; intros errors this e Hs Hnd; simpl.
  - exists errors, this, (world e). unfold ret. rewrite app_nil_r. now destruct e.
  - unfold bind at 1. unfold try_catch, bind. rewrite closeSession_eq, Hs. simpl.
    rewrite String.eqb_refl. unfold ret.
    inversion Hnd as [|? ? Hk Hr]; subst.
    assert (Hs' : sessions (closed k this) = r).
    { unfold closed. simpl. rewrite Hs. unfold JsMap.delete, Assoc.delete. simpl.
      rewrite String.eqb_refl. simpl. now apply delete_absent. }
    destruct (IH errors (closed k this)
                 (mkEnv (snd (sdk_close v (world e))) (calls e ++ [ev_close v])%list)
                 Hs' Hr) as (errors' & this' & w' & Hloop).
    exists errors', this', w'. simpl in Hloop. rewrite Hloop.
    now rewrite <- app_assoc.
Qed.

(** X14: on a reachable object [closeAllSessions] asks every session of
    the registry to close, once each, in the order of the session map, and
    makes no other SDK call. *)
Theorem closeAllSessions_closes_each_once (this : MCPClient) (e : Env) :
  reachable this ->
  exists this' w',
    closeAllSessions this e
    = (Normal tt, this',
       mkEnv w' (calls e ++ map (fun kv => ev_close (snd kv))
                                (JsMap.entries (sessions this)))%list).
Proof.
  intros Hr. apply reachable_consistent in Hr.
  destruct (@closeAll_loop_calls (sessions this) [] this e eq_refl (sessions_NoDup Hr))
    as (errors' & this' & w' & Hloop).
  exists this', w'. unfold closeAllSessions, bind, gets, ret. now rewrite Hloop.
Qed.

(** X15: closing a session does not touch the tool index, so the index
    goes stale: a call for a tool that the index binds to the closed
    server (of non-empty name) throws the no-session error and makes no SDK
    call. *)
Theorem callTool_after_closeSession
  (t s : string) (args : Json) (this : MCPClient) (e : Env)
  (r : Completion unit) (this1 : MCPClient) (e1 : Env) :
  JsMap.get (toolServerMap this) t = Some s ->
  s <> "" ->
  closeSession s this e = (r, this1, e1) ->
  toolServerMap this1 = toolServerMap this
  /\ callTool t args this1 e1 = (Throw (Error (msg_no_session_found s)), this1, e1).
Proof.
  intros Hidx Hs Hclose. rewrite closeSession_eq in Hclose.
  assert (H : toolServerMap this1 = toolServerMap this
              /\ JsMap.get (sessions this1) s = None).
  { destruct (JsMap.get (sessions this) s) as [c|] eqn:E; inversion Hclose; subst.
    - split; [reflexivity|]. unfold closed. simpl. apply AssocFacts.get_delete_same.
    - split; [reflexivity | exact E]. }
  destruct H as [H1 H2]. split; [exact H1|].
  rewrite callTool_eq, H1, Hidx, H2. apply String.eqb_neq in Hs. now rewrite Hs.
Qed.

(** What [closeAllSessions] leaves of the registry. *)
Lemma closeAllSessions_leaves_empty this e r this' e' :
  consistent this ->
  closeAllSessions this e = (r, this', e') ->
  sessions this' = [] /\ activeSessions this' = [].
Proof.
  intros Hc Hrun.
  assert (Hc' : consistent this') by (eapply closeAllSessions_consistent; eassumption).
  unfold closeAllSessions, bind, gets in Hrun.
  destruct (closeAll_loop (JsMap.keys (sessions this)) [] this e)
    as [[r1 this1] e1] eqn:Hloop.
  assert (this1 = this') as ->.
  { destruct r1; unfold ret in Hrun; now inversion Hrun. }
  assert (Hs : sessions this' = []).
  { apply no_keys_empty. intros k Hk.
    destruct (closeAll_loop_sessions _ _ _ _ Hloop k Hk). tauto. }
  split; [exact Hs|].
  apply nothing_In_nil. intros n Hn.
  apply (active_has_session Hc') in Hn. rewrite Hs in Hn. exact Hn.
Qed.

(** X16: after [closeAllSessions] on a reachable object nothing reaches
    the SDK any more until sessions are created again: every [callTool]
    throws without an SDK call, [listTools] returns the empty list,
    [getAllActiveSessions] returns the empty map, and a second
    [closeAllSessions] does nothing. *)
Theorem nothing_reaches_sdk_after_closeAllSessions
  (this : MCPClient) (e : Env) (r : Completion unit) (this' : MCPClient) (e' : Env) :
  reachable this ->
  closeAllSessions this e = (r, this', e') ->
  (forall t args, exists ex, callTool t args this' e' = (Throw ex, this', e'))
  /\ listTools this' e' = (Normal [], this', e')
  /\ getAllActiveSessions this' e' = (Normal JsMap.empty, this', e')
  /\ closeAllSessions this' e' = (Normal tt, this', e').
Proof.
  intros Hr Hrun. apply reachable_consistent in Hr.
  destruct (@closeAllSessions_leaves_empty this e r this' e' Hr Hrun) as [Hs Ha].
  repeat apply conj.
  - intros t args. rewrite callTool_eq, Hs.
    destruct (JsMap.get (toolServerMap this') t) as [sn|];
      [|eexists; reflexivity].
    destruct (sn =? ""); simpl; eexists; reflexivity.
  - unfold listTools, bind, gets. now rewrite Ha.
  - rewrite getAllActiveSessions_eq. now rewrite Ha.
  - unfold closeAllSessions, bind, gets. now rewrite Hs.
Qed.

End AfterClosing.

(** Two sessions are closed in the order in which they were created,
    the first failing to close. *)
Lemma closeAllSessions_order :
  let sc := Demo.stubborn in
  let this := fst (Demo.after sc Demo.two_servers [call_createAllSessions]) in
  let e := snd (Demo.after sc Demo.two_servers [call_createAllSessions]) in
  calls (snd (closeAllSessions this e))
  = (calls e ++ [ev_close (sdk := Demo.runtime sc) "a";
                 ev_close (sdk := Demo.runtime sc) "b"])%list
  /\ exists this' w',
       closeAllSessions this e
       = (Normal tt, this',
          mkEnv w' (calls e ++ map (fun kv => ev_close (snd kv))
                                   (JsMap.entries (sessions this)))%list).
Proof.
  split; [reflexivity|].
  apply (@closeAllSessions_closes_each_once (Demo.runtime Demo.stubborn)).
  apply reachable_after.
Defined.

(** The session of server [a] is closed after the index was built; its
    tool [x] can no longer be called. *)
Lemma callTool_on_stale_index :
  let sc := Demo.two_catalogs in
  let this := fst (Demo.after sc Demo.two_servers [call_createAllSessions]) in
  let e := snd (Demo.after sc Demo.two_servers [call_createAllSessions]) in
  let this1 := snd (fst (closeSession "a" this e)) in
  let e1 := snd (closeSession "a" this e) in
  (JsMap.get (toolServerMap this) "x" = Some "a"
   /\ closeSession "a" this e = (Normal tt, this1, e1))
  /\ toolServerMap this1 = toolServerMap this
  /\ callTool "x" JNull this1 e1
     = (Throw (Error (msg_no_session_found "a")), this1, e1).
Proof.
  split; [split; reflexivity|].
  apply (@callTool_after_closeSession (Demo.runtime Demo.two_catalogs) "x" "a" JNull
           (fst (Demo.after Demo.two_catalogs Demo.two_servers [call_createAllSessions]))
           (snd (Demo.after Demo.two_catalogs Demo.two_servers [call_createAllSessions]))
           (Normal tt)).
  - reflexivity.
  - discriminate.
  - reflexivity.
Defined.

(** All sessions are closed after the index was built. *)
Lemma everything_closed :
  let sc := Demo.two_catalogs in
  let this := fst (Demo.after sc Demo.two_servers [call_createAllSessions]) in
  let e := snd (Demo.after sc Demo.two_servers [call_createAllSessions]) in
  let this' := snd (fst (closeAllSessions this e)) in
  let e' := snd (closeAllSessions this e) in
  (toolServerMap this' = [("x", "a"); ("shared", "b"); ("y", "b")]
   /\ closeAllSessions this e = (Normal tt, this', e'))
  /\ (forall t args, exists ex, callTool t args this' e' = (Throw ex, this', e'))
  /\ listTools this' e' = (Normal [], this', e')
  /\ getAllActiveSessions this' e' = (Normal JsMap.empty, this', e')
  /\ closeAllSessions this' e' = (Normal tt, this', e').
Proof.
  split; [split; reflexivity|].
  apply (@nothing_reaches_sdk_after_closeAllSessions (Demo.runtime Demo.two_catalogs)
           (fst (Demo.after Demo.two_catalogs Demo.two_servers [call_createAllSessions]))
           (snd (Demo.after Demo.two_catalogs Demo.two_servers [call_createAllSessions]))
           (Normal tt)).
  - apply reachable_after.
  - reflexivity.
Defined.

(* ================================================================== *)
(** ** Who writes the tool index                                       *)
(* ================================================================== *)

Section IndexWriters.

Context {sdk : Sdk}.

Variable J : MCPClient -> Prop.

(** [J] does not depend on the configuration, the sessions or the
    active list. *)
Hypothesis J_config : forall c this, J this -> J (set_config c this).
Hypothesis J_prototype : forall p this, J this -> J (set_mcpServers_prototype p this).
Hypothesis J_sessions : forall m this, J this -> J (set_sessions m this).
Hypothesis J_active : forall l this, J this -> J (set_activeSessions l this).

Lemma J_createSession (n : string) : stable J (createSession n).
Proof.
  intros this e r this' e' H Hj. apply createSession_inv in H.
  destruct H as [(ex & _ & -> & _)|(c & o & cfg & t & _ & _ & _ & _ & _ & _ & ->)];
    [assumption|].
  unfold created. simpl.
  destruct (JsArray.includes (activeSessions this) n); auto.
Qed.

Lemma J_closeSession (n : string) : stable J (closeSession n).
Proof.
  intros this e r this' e' H Hj. rewrite closeSession_eq in H.
  destruct (JsMap.get (sessions this) n); inversion H; subst; [|assumption].
  unfold closed. auto.
Qed.

Lemma J_removeServer (n : string) : stable J (removeServer n).
Proof.
  intros this e r this' e' H Hj. rewrite removeServer_eq in H.
  inversion H; subst. unfold removed. apply J_active.
  destruct (mcpServers (config this)) as [o|]; [|assumption].
  destruct (JsObject.get o n); auto.
Qed.

Lemma J_create_each (names : list string) : stable J (create_each names).
Proof.
  unfold create_each. apply stable_for_of. intros n.
  apply stable_bind; [apply J_createSession | intros _; apply stable_ret].
Qed.

(** A [createAllSessions] that throws has not reached its assignment
    of the index. *)
Lemma J_createAllSessions_throws this e ex this' e' :
  createAllSessions this e = (Throw ex, this', e') -> J this -> J this'.
Proof.
  unfold createAllSessions. unfold bind at 1. unfold gets at 1.
  destruct (mcpServers (config this)) as [o|];
    [|intros H Hj; now inversion H; subst].
  destruct (List.length (JsObject.keys o) =? 0)%nat;
    [intros H Hj; now inversion H; subst|].
  unfold bind at 1. fold (create_each (JsObject.keys o)).
  destruct (create_each (JsObject.keys o) this e) as [[[[]|ex1] this1] e1] eqn:E1.
  - unfold bind at 1.
    destruct (getToolServerMap this1 e1) as [[[idx|ex2] this2] e2] eqn:E2.
    + unfold bind, modify, gets. discriminate.
    + intros H Hj. inversion H; subst.
      pose proof (getToolServerMap_readonly _ _ E2) as ->.
      eapply J_create_each; eassumption.
  - intros H Hj. inversion H; subst. eapply J_create_each; eassumption.
Qed.

Lemma J_exec (c : Call) this e :
  c <> call_createAllSessions -> J this -> J (fst (exec c this e)).
Proof.
  intros Hc Hj.
  assert (H : forall A (m : M A), stable J m -> J (fst (forget m this e))).
  { intros A m Hm. unfold forget. destruct (m this e) as [[r this'] e'] eqn:E.
    simpl. eapply Hm; eassumption. }
  destruct c; unfold exec; try (apply H); try congruence.
  - unfold addServer. apply stable_modify. intros s Hs.
    unfold assign_server, ensure_mcpServers.
    destruct (mcpServers (config s));
      match goal with
      | |- context [if ?b then _ else _] => destruct b
      end; auto.
  - apply J_removeServer.
  - apply J_createSession.
  - apply J_closeSession.
  - unfold closeAllSessions. apply stable_bind; [apply stable_gets | intros names].
    apply stable_bind; [|intros _; apply stable_ret].
    apply closeAll_loop_stable. apply J_closeSession.
  - apply listTools_stable.
  - apply callTool_stable.
Qed.

Lemma J_run (cs : list Call) :
  forall this e,
    ~ In call_createAllSessions cs -> J this -> J (fst (run cs this e)).
Proof.
  induction cs as [|c r IH]; intros this e Hn Hj; simpl; [assumption|].
  destruct (exec c this e) as [this1 e1] eqn:E.
  apply IH; [simpl in Hn; tauto|].
  change this1 with (fst (this1, e1)). rewrite <- E. apply J_exec; [|assumption].
  intros ->. apply Hn. now left.
Qed.

End IndexWriters.

Section IndexUse.

Context {sdk : Sdk}.

(** X17: only [createAllSessions] fills the tool index.  On a client
    that has been driven by any calls other than [createAllSessions] -
    sessions created one by one with [createSession] included - every
    [callTool] throws the no-server-found error without an SDK call. *)
Theorem callTool_needs_createAllSessions
  arg (t : option float) (w : World) (this : MCPClient) (w' : World)
  (cs : list Call) (e : Env) (name : string) (args : Json) :
  new_MCPClient arg t w = (Normal this, w') ->
  ~ In call_createAllSessions cs ->
  callTool name args (fst (run cs this e)) (snd (run cs this e))
  = (Throw (Error (msg_no_server_for_tool name)), fst (run cs this e), snd (run cs this e)).
Proof.
  intros Hnew Hcs.
  apply new_MCPClient_fields in Hnew. destruct Hnew as (_ & _ & Hidx).
  assert (H : toolServerMap (fst (run cs this e)) = JsMap.empty).
  { apply (@J_run sdk (fun s => toolServerMap s = JsMap.empty)); auto. }
  rewrite callTool_eq, H. reflexivity.
Qed.

(** X18: a [createAllSessions] that throws, whether in a creation or in
    the rebuild of the index, leaves the tool index, the configuration and
    the timeout as they were, and drops no session and no active name. *)
Theorem createAllSessions_throw_keeps_index
  (this : MCPClient) (e : Env) (ex : Exn) (this' : MCPClient) (e' : Env) :
  createAllSessions this e = (Throw ex, this', e') ->
  toolServerMap this' = toolServerMap this
  /\ config this' = config this
  /\ maxToolTimeout this' = maxToolTimeout this
  /\ (forall n, In n (activeSessions this) -> In n (activeSessions this'))
  /\ (forall n, In n (JsMap.keys (sessions this)) -> In n (JsMap.keys (sessions this'))).
Proof.
  intros H.
  assert (H1 : toolServerMap this' = toolServerMap this
               /\ maxToolTimeout this' = maxToolTimeout this).
  { eapply (@J_createAllSessions_throws sdk
              (fun s => toolServerMap s = toolServerMap this
                        /\ maxToolTimeout s = maxToolTimeout this));
      try exact H; simpl; tauto. }
  destruct H1 as [H1 H2].
  revert H. unfold createAllSessions. unfold bind at 1. unfold gets at 1.
  destruct (mcpServers (config this)) as [o|];
    [|intros H; inversion H; subst; auto].
  destruct (List.length (JsObject.keys o) =? 0)%nat;
    [intros H; inversion H; subst; auto|].
  unfold bind at 1. fold (create_each (JsObject.keys o)).
  destruct (create_each (JsObject.keys o) this e) as [[[[]|ex1] this1] e1] eqn:E1.
  - unfold bind at 1.
    destruct (getToolServerMap this1 e1) as [[[idx|ex2] this2] e2] eqn:E2.
    + unfold bind, modify, gets. discriminate.
    + intros H. inversion H; subst.
      pose proof (getToolServerMap_readonly _ _ E2) as ->.
      apply create_each_grows in E1. repeat apply conj; tauto.
  - intros H. inversion H; subst.
    apply create_each_grows in E1. repeat apply conj; tauto.
Qed.

(** X19: the constructor.  When it returns, the client has no session,
    no active name and an empty tool index; its configuration is the
    object given, the configuration read from the file for a non-empty
    path, or the empty configuration when nothing or an empty path is
    given; and only the file read can have changed the world.  It throws
    only when a non-empty path is given and reading that file throws, and
    then with that exception. *)
Theorem new_MCPClient_outcome arg (t : option float) (w : World) :
  match new_MCPClient arg t w with
  | (Normal this, w') =>
      sessions this = JsMap.empty /\ activeSessions this = []
      /\ toolServerMap this = JsMap.empty
      /\ match arg with
         | None => config this = mkConfig None /\ w' = w
         | Some (inl p) =>
             if p =? "" then config this = mkConfig None /\ w' = w
             else read_config p w = (Normal (config this), w')
         | Some (inr c) => config this = c /\ w' = w
         end
  | (Throw ex, w') =>
      exists p, arg = Some (inl p) /\ p <> "" /\ read_config p w = (Throw ex, w')
  end.
Proof.
  pose proof (new_MCPClient_fields arg t w) as Hf.
  unfold new_MCPClient in *.
  assert (E : forall c, config
            match t with
            | Some x => if truthy_number x then set_maxToolTimeout x (fresh c) else fresh c
            | None => fresh c
            end = c).
  { intros c. destruct t as [x|]; [destruct (truthy_number x)|]; reflexivity. }
  destruct arg as [[p|c]|].
  - destruct (p =? "") eqn:Ep.
    + destruct (Hf _ _ eq_refl) as (H1 & H2 & H3). rewrite E. auto.
    + destruct (read_config p w) as [[c|ex] w1] eqn:Er.
      * destruct (Hf _ _ eq_refl) as (H1 & H2 & H3). rewrite E. auto.
      * exists p. repeat apply conj; auto. now apply String.eqb_neq.
  - destruct (Hf _ _ eq_refl) as (H1 & H2 & H3). rewrite E. auto.
  - destruct (Hf _ _ eq_refl) as (H1 & H2 & H3). rewrite E. auto.
Qed.

End IndexUse.

(** Both servers are connected one by one; the tool [x] of server [a]
    is listed but cannot be called. *)
Lemma callTool_without_createAllSessions :
  let sc := Demo.two_catalogs in
  let this := fresh (sdk := Demo.runtime sc) Demo.two_servers in
  let cs := [call_createSession "a"; call_createSession "b"] in
  let this' := fst (run cs this (Demo.start sc)) in
  let e' := snd (run cs this (Demo.start sc)) in
  (new_MCPClient (sdk := Demo.runtime sc) (Some (inr Demo.two_servers)) None 0
   = (Normal this, 0)
   /\ ~ In call_createAllSessions cs)
  /\ activeSessions this' = ["a"; "b"]
  /\ fst (fst (listTools this' e'))
     = Normal [mkToolInfo "x" "" JNull; mkToolInfo "shared" "" JNull;
               mkToolInfo "y" "" JNull; mkToolInfo "shared" "" JNull]
  /\ callTool "x" JNull this' e' = (Throw (Error (msg_no_server_for_tool "x")), this', e').
Proof.
  assert (Hcs : ~ In call_createAllSessions
                    [call_createSession "a"; call_createSession "b"]).
  { simpl. intros [H|[H|[]]]; discriminate. }
  split; [split; [reflexivity | exact Hcs]|].
  split; [reflexivity|]. split; [reflexivity|].
  apply (@callTool_needs_createAllSessions (Demo.runtime Demo.two_catalogs)
           (Some (inr Demo.two_servers)) None 0 _ 0); [reflexivity | exact Hcs].
Defined.

(** The second of three servers refuses the connection. *)
Lemma createAllSessions_throw_after_one_session :
  let sc := Demo.b_down in
  let this := fresh (sdk := Demo.runtime sc) Demo.three_servers in
  let ex := McpError (-32000) "Connection closed" in
  let this' := snd (fst (createAllSessions this (Demo.start sc))) in
  let e' := snd (createAllSessions this (Demo.start sc)) in
  createAllSessions this (Demo.start sc) = (Throw ex, this', e')
  /\ toolServerMap this' = toolServerMap this
  /\ config this' = config this
  /\ maxToolTimeout this' = maxToolTimeout this
  /\ (forall n, In n (activeSessions this) -> In n (activeSessions this'))
  /\ (forall n, In n (JsMap.keys (sessions this)) -> In n (JsMap.keys (sessions this'))).
Proof.
  split; [reflexivity|].
  apply (@createAllSessions_throw_keeps_index (Demo.runtime Demo.b_down)
           (fresh Demo.three_servers) (Demo.start Demo.b_down)
           (McpError (-32000) "Connection closed")
           (snd (fst (createAllSessions (fresh Demo.three_servers)
                                        (Demo.start Demo.b_down))))
           (snd (createAllSessions (fresh Demo.three_servers) (Demo.start Demo.b_down)))).
  reflexivity.
Defined.

(* ================================================================== *)
(** ** The sample driver                                               *)
(* ================================================================== *)

Section Driver.

Context {sdk : Sdk}.

Lemma callTool_normal (name : string) (args : Json) this e r this' e' :
  callTool name args this e = (Normal r, this', e') ->
  this' = this
  /\ exists c, calls e' = (calls e ++ [ev_callTool c name args (maxToolTimeout this)])%list.
Proof.
  rewrite callTool_eq.
  destruct (JsMap.get (toolServerMap this) name) as [sn|]; [|discriminate].
  destruct (sn =? ""); [discriminate|].
  destruct (JsMap.get (sessions this) sn) as [c|]; [|discriminate].
  intros H. inversion H; subst. split; [reflexivity|]. now exists c.
Qed.

Lemma main_calls_never_close :
  emits (fun _ => True) (fun ev => ~ is_close ev) main_calls.
Proof.
  assert (HI : forall this this' : MCPClient,
            True -> maxToolTimeout this' = maxToolTimeout this -> True) by auto.
  unfold main_calls.
  apply emits_bind; [|intros _].
  { apply emits_createAllSessions; [exact HI | intros; exact (fun f => f) ..]. }
  apply emits_bind; [|intros _].
  { apply emits_listTools; [exact HI | intros; exact (fun f => f)]. }
  apply emits_bind; [|intros result].
  { apply emits_callTool. intros; exact (fun f => f). }
  apply emits_bind; [now apply emits_lift | intros _].
  apply emits_bind; [|intros result2; now apply emits_lift].
  apply emits_callTool. intros; exact (fun f => f).
Qed.

(** How the calls of [main] go when none throws. *)
Lemma main_calls_normal this e u this' e' :
  maxToolTimeout this = 10000%float ->
  main_calls this e = (Normal u, this', e') ->
  exists pre c1 c2,
    calls e' = (calls e ++ pre
                ++ [ev_callTool c1 "fetch" fetch_args 10000%float;
                    ev_callTool c2 "read_file" read_file_args 10000%float])%list
    /\ Forall (fun ev => is_connect ev \/ is_listTools ev) pre.
Proof.
  intros Ht. unfold main_calls. unfold bind at 1.
  destruct (createAllSessions this e) as [[[m|ex] sA] eA] eqn:EA; [|discriminate].
  destruct (@emits_createAllSessions sdk (timeout_is 10000%float)
              (fun ev => is_connect ev \/ is_listTools ev)
              (timeout_is_frame (x := 10000%float))
              (fun _ _ _ => or_introl Logic.I) (fun _ => or_intror Logic.I)
              _ _ _ _ _ EA Ht) as (HtA & evsA & HcA & HpA).
  unfold bind at 1.
  destruct (listTools sA eA) as [[[tools|ex] sB] eB] eqn:EB; [|discriminate].
  destruct (@emits_listTools sdk (timeout_is 10000%float)
              (fun ev => is_connect ev \/ is_listTools ev)
              (timeout_is_frame (x := 10000%float))
              (fun _ => or_intror Logic.I)
              _ _ _ _ _ EB HtA) as (HtB & evsB & HcB & HpB).
  unfold bind at 1.
  destruct (callTool "fetch" fetch_args sB eB) as [[[r1|ex] sC] eC] eqn:EC; [|discriminate].
  apply callTool_normal in EC. destruct EC as (-> & c1 & HcC).
  unfold bind at 1. unfold lift at 1.
  destruct (preview r1); [|discriminate].
  unfold bind at 1.
  destruct (callTool "read_file" read_file_args sB eC) as [[[r2|ex] sD] eD] eqn:ED;
    [|discriminate].
  apply callTool_normal in ED. destruct ED as (-> & c2 & HcD).
  unfold lift. destruct (preview r2); [|discriminate].
  intros H. inversion H; subst.
  exists (evsA ++ evsB)%list, c1, c2. split; [|now apply Forall_app].
  rewrite HcD, HcC, HcB, HcA. unfold timeout_is in HtB. rewrite HtB.
  rewrite <- !app_assoc. reflexivity.
Qed.

(** X20: the sample driver exits with 0 or 1.  It exits with 0 exactly
    when nothing threw, and then it has connected and listed tools, called
    [fetch] and then [read_file] with the default timeout of 10000, and
    closed sessions, in that order.  When it exits with 1 it has closed no
    session: a failure anywhere, a tool missing from the index included,
    skips [closeAllSessions]. *)
Theorem main_closes_only_on_success (w : World) :
  (fst (main w) = 0%Z \/ fst (main w) = 1%Z)
  /\ (fst (main w) = 1%Z -> Forall (fun ev => ~ is_close ev) (calls (snd (main w))))
  /\ (fst (main w) = 0%Z ->
      exists pre c1 c2 closes,
        calls (snd (main w))
        = (pre ++ [ev_callTool c1 "fetch" fetch_args 10000%float;
                   ev_callTool c2 "read_file" read_file_args 10000%float]
               ++ closes)%list
        /\ Forall (fun ev => is_connect ev \/ is_listTools ev) pre
        /\ Forall is_close closes).
Proof.
  unfold main.
  destruct (fromConfigFile "mcp_config.json" w) as [[client|ex] w0] eqn:Enew.
  2:{ simpl. repeat apply conj; [now right | constructor | discriminate]. }
  assert (Ht : maxToolTimeout client = 10000%float).
  { unfold fromConfigFile in Enew. apply new_MCPClient_timeout in Enew. exact Enew. }
  assert (Hbody : main_body client (mkEnv w0 [])
                  = match main_calls client (mkEnv w0 []) with
                    | (Normal _, s1, e1) => closeAllSessions s1 e1
                    | (Throw ex, s1, e1) => (Throw ex, s1, e1)
                    end) by reflexivity.
  rewrite Hbody. clear Hbody.
  destruct (main_calls client (mkEnv w0 [])) as [[[u|ex] s1] e1] eqn:E1.
  - destruct (closeAll_loop_normal (JsMap.keys (sessions s1)) [] s1 e1)
      as (errors & s2 & e2 & Hloop).
    assert (Hclose : closeAllSessions s1 e1 = (Normal tt, s2, e2)).
    { unfold closeAllSessions, bind, gets, ret. now rewrite Hloop. }
    rewrite Hclose. simpl.
    repeat apply conj; [now left | discriminate | intros _].
    destruct (main_calls_normal _ _ Ht E1) as (pre & c1 & c2 & Hc1 & Hpre).
    destruct (@emits_closeAllSessions sdk (fun _ => True) is_close
                (fun _ _ _ _ => Logic.I) (fun _ => Logic.I)
                _ _ _ _ _ Hclose Logic.I) as (_ & closes & Hc2 & Hcl).
    exists pre, c1, c2, closes. repeat apply conj; try assumption.
    rewrite Hc2, Hc1. simpl. now rewrite <- app_assoc.
  - simpl. repeat apply conj; [now right | intros _ | discriminate].
    pose proof main_calls_never_close as Hn. unfold emits in Hn.
    destruct (Hn _ _ _ _ _ E1 Logic.I) as (_ & evs & Hc & Hp).
    rewrite Hc. exact Hp.
Qed.

End Driver.

(** The driver on two servers that between them report [fetch] and
    [read_file], and on servers that report neither. *)
Example main_runs :
  let good := Demo.mkScenario [] []
                (fun c => if c =? "a" then [Demo.tool "fetch"]
                          else [Demo.tool "read_file"]) in
  let file := fun sc : Demo.Scenario =>
    {| World := nat; Client := string; URL := string;
       new_URL := new_URL (Sdk := Demo.runtime sc);
       read_config := fun _ w => (Normal Demo.two_servers, S w);
       sdk_connect := sdk_connect (Sdk := Demo.runtime sc);
       sdk_close := sdk_close (Sdk := Demo.runtime sc);
       sdk_listTools := sdk_listTools (Sdk := Demo.runtime sc);
       sdk_callTool := sdk_callTool (Sdk := Demo.runtime sc) |} in
  fst (main (sdk := file good) 0) = 0%Z
  /\ fst (main (sdk := file Demo.two_catalogs) 0) = 1%Z
  /\ fst (main (sdk := Demo.runtime good) 0) = 1%Z.
Proof. repeat split; reflexivity. Qed.

(* ================================================================== *)
(** ** Servers added under the name [__proto__]                        *)
(* ================================================================== *)

Section ProtoName.

Context {sdk : Sdk}.


(** X24: what [addServer] does under the name [__proto__] on a
    configuration object without an own property of that name.  It
    returns without an SDK call and adds no property: the descriptors and
    the names [getServerNames] lists are as before, and so are the
    sessions, the active list, the tool index and the timeout.  The
    descriptor given becomes the prototype of the configuration object:
    as soon as a server is configured, [createSession] under the name
    [__proto__] connects over the transport of that descriptor; and
    [removeServer] under that name leaves the configuration and the
    prototype as they are. *)
Theorem addServer_proto_replaces_prototype
  (cfg : MCPServerConfig) (this : MCPClient) (e : Env) :
  JsObject.get (servers_or_empty this) "__proto__" = None ->
  exists this',
    addServer "__proto__" cfg this e = (Normal tt, this', e)
    /\ servers_or_empty this' = servers_or_empty this
    /\ getServerNames this' e = (Normal (JsObject.keys (servers_or_empty this)), this', e)
    /\ (sessions this' = sessions this
        /\ activeSessions this' = activeSessions this
        /\ toolServerMap this' = toolServerMap this
        /\ maxToolTimeout this' = maxToolTimeout this)
    /\ mcpServers_prototype this' = Some cfg
    /\ (JsObject.keys (servers_or_empty this) <> [] ->
        forall t, createTransport cfg = Normal t ->
          calls (snd (createSession "__proto__" this' e))
          = (calls e ++ [ev_connect "__proto__" "1.0.0" t])%list)
    /\ exists this'',
         removeServer "__proto__" this' e = (Normal tt, this'', e)
         /\ config this'' = config this'
         /\ mcpServers_prototype this'' = Some cfg.
Proof.
  intros Hn.
  destruct (addServer_frame "__proto__" cfg this) as (Fs & Fa & Fi & Ft).
  pose proof (addServer_config "__proto__" cfg this) as Hcfg. cbv zeta in Hcfg.
  destruct Hcfg as [(_ & _ & Ho & Hq)|([Hne|Hne] & _)]; [|congruence..].
  remember (assign_server "__proto__" cfg (ensure_mcpServers this)) as this1 eqn:E1.
  assert (Hs : servers_or_empty this1 = servers_or_empty this).
  { unfold servers_or_empty at 1. now rewrite Ho. }
  exists this1. split; [unfold addServer, modify; now rewrite E1|].
  split; [exact Hs|].
  split; [unfold getServerNames, gets; now rewrite Hs|].
  split; [auto|]. split; [exact Hq|]. split.
  - intros Hk t Ht.
    unfold createSession, bind, gets, throw, lift, await, modify, ret. rewrite Ho.
    destruct (JsObject.keys (servers_or_empty this)) as [|k ks]; [congruence|]. simpl.
    rewrite Hq. unfold read_server. rewrite Hn. simpl. rewrite Ht.
    now destruct (sdk_connect "__proto__" "1.0.0" t (world e)) as [[c|ex] w1].
  - exists (removed "__proto__" this1). split; [apply removeServer_eq|].
    rewrite prototype_removed. split; [|exact Hq].
    unfold removed. rewrite Ho, Hn. reflexivity.
Qed.

End ProtoName.


(** A descriptor is added under [__proto__] to a client with two
    servers: the names listed stay [a] and [b]. *)
Lemma addServer_proto_on_two_servers :
  let sc := Demo.quiet in
  let this := fresh (sdk := Demo.runtime sc) Demo.two_servers in
  let e := Demo.start sc in
  JsObject.get (servers_or_empty this) "__proto__" = None
  /\ exists this',
       addServer "__proto__" (Demo.stdio "srv-p") this e = (Normal tt, this', e)
       /\ servers_or_empty this' = servers_or_empty this
       /\ getServerNames this' e = (Normal (JsObject.keys (servers_or_empty this)), this', e)
       /\ (sessions this' = sessions this
           /\ activeSessions this' = activeSessions this
           /\ toolServerMap this' = toolServerMap this
           /\ maxToolTimeout this' = maxToolTimeout this)
       /\ mcpServers_prototype this' = Some (Demo.stdio "srv-p")
       /\ (JsObject.keys (servers_or_empty this) <> [] ->
           forall t, createTransport (Demo.stdio "srv-p") = Normal t ->
             calls (snd (createSession "__proto__" this' e))
             = (calls e ++ [ev_connect "__proto__" "1.0.0" t])%list)
       /\ exists this'',
            removeServer "__proto__" this' e = (Normal tt, this'', e)
            /\ config this'' = config this'
            /\ mcpServers_prototype this'' = Some (Demo.stdio "srv-p").
Proof.
  split; [reflexivity|].
  apply (@addServer_proto_replaces_prototype (Demo.runtime Demo.quiet)).
  reflexivity.
Defined.

(** C5: the code at the failing input.  On a client configured with
    the servers [a] and [b], a descriptor is added under the name
    [__proto__] and a session is created under that name; then
    [createAllSessions] completes normally.  [getAllActiveSessions] now
    returns the three keys [__proto__], [a] and [b], while
    [getServerNames] lists [a] and [b] only: the active names are not
    exactly the configured ones. *)
Theorem createAllSessions_activates_unlisted_name :
  let sc := Demo.quiet in
  let cs := [call_addServer "__proto__" (Demo.stdio "srv-p");
             call_createSession "__proto__"] in
  let this := fst (Demo.after sc Demo.two_servers cs) in
  let e := snd (Demo.after sc Demo.two_servers cs) in
  let this' := snd (fst (createAllSessions this e)) in
  let e' := snd (createAllSessions this e) in
  reachable this
  /\ createAllSessions this e
     = (Normal [("__proto__", "__proto__"); ("a", "a"); ("b", "b")], this', e')
  /\ getAllActiveSessions this' e'
     = (Normal [("__proto__", "__proto__"); ("a", "a"); ("b", "b")], this', e')
  /\ getServerNames this' e' = (Normal ["a"; "b"], this', e')
  /\ ~ (forall n,
          In n (JsMap.keys [("__proto__", "__proto__"); ("a", "a"); ("b", "b")])
          <-> In n ["a"; "b"]).
Proof.
  split; [apply reachable_after|].
  split; [reflexivity|]. split; [reflexivity|]. split; [reflexivity|].
  intros H. destruct (H "__proto__") as [H1 _].
  destruct (H1 (or_introl eq_refl)) as [E|[E|[]]]; discriminate E.
Qed.

(** C9: the code at the failing input.  On a client configured with
    the servers [a] and [b], a descriptor is added under the name
    [__proto__]; [createSession] under that name would connect over its
    transport.  [removeServer] under that name then returns having changed
    nothing at all, and [createSession] under the name still connects over
    the same transport: the descriptor has not been deleted. *)
Theorem removeServer_leaves_prototype_descriptor :
  let sc := Demo.quiet in
  let cs := [call_addServer "__proto__" (Demo.stdio "srv-p")] in
  let this := fst (Demo.after sc Demo.two_servers cs) in
  let e := snd (Demo.after sc Demo.two_servers cs) in
  let connected :=
    mkEnv (sdk := Demo.runtime sc) 1
      [ev_connect "__proto__" "1.0.0" (StdioClientTransport "srv-p" [] None)] in
  reachable this
  /\ getServerNames this e = (Normal ["a"; "b"], this, e)
  /\ fst (fst (createSession "__proto__" this e)) = Normal "__proto__"
  /\ snd (createSession "__proto__" this e) = connected
  /\ removeServer "__proto__" this e = (Normal tt, this, e)
  /\ fst (fst (createSession "__proto__" (snd (fst (removeServer "__proto__" this e))) e))
     = Normal "__proto__"
  /\ snd (createSession "__proto__" (snd (fst (removeServer "__proto__" this e))) e)
     = connected.
Proof.
  split; [apply reachable_after|]. repeat split; reflexivity.
Qed.

(** With the prototype replaced, a field of the prototype is read as a
    server: under the name [env] a session is opened over the transport
    that the environment record of the prototype describes, and the name
    becomes active without being configured. *)
Example createSession_through_env_record :
  let sc := Demo.quiet in
  let cs := [call_addServer "__proto__" Demo.carrier; call_createSession "env"] in
  let this := fst (Demo.after sc Demo.two_servers cs) in
  let e := snd (Demo.after sc Demo.two_servers cs) in
  calls e = [ev_connect (sdk := Demo.runtime sc) "env" "1.0.0"
               (SSEClientTransport "http://localhost:8000/sse")]
  /\ activeSessions this = ["env"]
  /\ getServerNames this e = (Normal ["a"; "b"], this, e)
  /\ activeSessions (fst (run (sdk := Demo.runtime sc)
                              [call_addServer "env" (Demo.stdio "srv-e");
                               call_removeServer "env"] this e)) = [].
Proof. repeat split; reflexivity. Qed.

(** A connection that is refused for the name [__proto__]: the transport
    tried is the one of the prototype, and the name has no own
    descriptor. *)
Example createSession_refused_through_prototype :
  let sc := Demo.mkScenario ["__proto__"] [] (fun _ => []) in
  let cs := [call_addServer "__proto__" (Demo.stdio "srv-p")] in
  let this := fst (Demo.after sc Demo.two_servers cs) in
  let e := snd (Demo.after sc Demo.two_servers cs) in
  createSession "__proto__" this e
  = (Throw (McpError (-32000) "Connection closed"), this,
     mkEnv (sdk := Demo.runtime sc) 1
       [ev_connect "__proto__" "1.0.0" (StdioClientTransport "srv-p" [] None)])
  /\ JsObject.get (servers_or_empty this) "__proto__" = None
  /\ gives_transport this "__proto__" (StdioClientTransport "srv-p" [] None).
Proof.
  split; [reflexivity|]. split; [reflexivity|].
  right. split; [reflexivity|]. exists (Demo.stdio "srv-p").
  split; [reflexivity|]. left. split; reflexivity.
Qed.
